(** * SaasAgent orchestration core: agents, task queues and workflow runs

    A shallow embedding of [backend/app/agents/base_agent.py],
    [backend/app/agents/agent_orchestrator.py] and the agent endpoints
    of [backend/app/api/v1/agents.py].

    Conventions of the embedding:
    - Python [int] is [Z]; [datetime] values are [Z] clock readings;
      the three float-valued metrics are kept as exact rationals ([Qc]).
    - a [dict] that is looked up is a [gmap]; a [dict] that the code
      iterates over with [.items()] is the list of its items in
      iteration order.
    - mutable objects are threaded explicitly; an exception raised by a
      function is the [inr] of its result, next to the state as it was
      mutated up to the raise.
    - a function that reads the clock or logs takes the process
      environment [Env], and returns it when it has logged. *)

From stdpp Require Import gmap strings list fin_maps pretty sorting.
From Stdlib Require Import ZArith QArith Qcanon.

Local Open Scope Z_scope.

(** ** Values stored in contexts, payloads and results (Python [Any]) *)

Inductive Value :=
| VNone
| VBool (b : bool)
| VInt (z : Z)
| VStr (s : string).

(** Python [==] on these values: [bool] is a subclass of [int], so
    [True == 1] and [False == 0]; values of unrelated types differ. *)
Definition int_of_bool (b : bool) : Z := if b then 1 else 0.

Definition py_eq (a b : Value) : bool :=
  match a, b with
  | VNone, VNone => true
  | VBool x, VBool y => Bool.eqb x y
  | VBool x, VInt y => int_of_bool x =? y
  | VInt x, VBool y => x =? int_of_bool y
  | VInt x, VInt y => x =? y
  | VStr x, VStr y => bool_decide (x = y)
  | _, _ => false
  end.

(** Python [a != b]. *)
Definition py_ne (a b : Value) : bool := negb (py_eq a b).

Abbreviation Dict := (gmap string Value).

(** ** Exceptions

    Every exception modelled derives from [Exception], so an
    [except Exception] clause catches each of them.  Cancellation of an
    asyncio task is not an [exn]: it is the [cancel_requested] flag of
    the task handle. *)

Inductive exn :=
| ValueError (msg : string)
| KeyError (key : string)
| Exception (msg : string)
| GraphRecursionError
| AttributeError (type_name attribute : string).

(** [str(e)] *)
Definition str_exn (e : exn) : string :=
  match e with
  | ValueError m => m
  | KeyError k => k
  | Exception m => m
  | GraphRecursionError => "Recursion limit reached"
  | AttributeError t a => "'" +:+ t +:+ "' object has no attribute '" +:+ a +:+ "'"
  end.

(** ** Process environment: wall clock and logger sink *)

Inductive Level := INFO | WARNING | ERROR.

Record LogRecord := mkLog { log_level : Level; log_event : string; log_subject : string }.

Record Env := mkEnv {
  clock : Z;                 (* what [datetime.now()] returns *)
  logs : list LogRecord      (* records emitted so far, oldest first *)
}.

Definition emit (lv : Level) (ev subj : string) (e : Env) : Env :=
  mkEnv (clock e) (logs e ++ [mkLog lv ev subj]).

(** Time passing between two atomic operations. *)
Definition advance (d : nat) (e : Env) : Env := mkEnv (clock e + Z.of_nat d) (logs e).

(** ** base_agent.py *)

Module AgentStatus.
Inductive t := IDLE | RUNNING | COMPLETED | FAILED | PAUSED.
End AgentStatus.

Inductive AgentCapability :=
| PERCEPTION | PLANNING | TOOL_USE | KNOWLEDGE | MEMORY | COMMUNICATION.

Record AgentTask := mkAgentTask {
  task_id : string;
  task_type : string;
  priority : Z;
  payload : Dict;
  task_created_at : Z;
  deadline : option Z;
  dependencies : list string;
  task_status : AgentStatus.t;
  task_result : option Dict;
  task_error : option string
}.

(** [AgentTask(id=..., type=..., payload=...)] with every other field at
    its declared default. *)
Definition new_task (now : Z) (id type : string) (p : Dict) : AgentTask :=
  mkAgentTask id type 1 p now None [] AgentStatus.IDLE None None.

Definition task_set_status (s : AgentStatus.t) (t : AgentTask) : AgentTask :=
  mkAgentTask (task_id t) (task_type t) (priority t) (payload t) (task_created_at t)
    (deadline t) (dependencies t) s (task_result t) (task_error t).

Definition task_set_result (r : Dict) (t : AgentTask) : AgentTask :=
  mkAgentTask (task_id t) (task_type t) (priority t) (payload t) (task_created_at t)
    (deadline t) (dependencies t) (task_status t) (Some r) (task_error t).

Definition task_set_error (m : string) (t : AgentTask) : AgentTask :=
  mkAgentTask (task_id t) (task_type t) (priority t) (payload t) (task_created_at t)
    (deadline t) (dependencies t) (task_status t) (task_result t) (Some m).

Record BaseMessage := mkMessage { msg_type : string; content : string }.

Record AgentMemory := mkMemory {
  short_term : list BaseMessage;
  long_term : Dict;
  episodic : list (Z * Dict);
  semantic : Dict
}.

(** The [metrics] dict always holds exactly these five keys. *)
Record Metrics := mkMetrics {
  tasks_completed : Z;
  tasks_failed : Z;
  total_execution_time : Qc;
  average_execution_time : Qc;
  success_rate : Qc
}.

Record AgentState := mkAgentState {
  agent_id : string;
  agent_name : string;
  agent_status : AgentStatus.t;
  capabilities : list AgentCapability;
  current_task : option AgentTask;
  task_queue : list AgentTask;
  memory : AgentMemory;
  agent_context : Dict;
  metrics : Metrics;
  agent_created_at : Z;
  last_active : Z
}.

(** What a concrete subclass of [BaseAgent] supplies.  A raise is [Some]
    of the exception for [initialize] and [cleanup]; [process_task] is
    given the task objects this instance has handled before, so that its
    outcome may differ from one call to the next. *)
Record AgentClass := mkAgentClass {
  initialize : option exn;
  process_task : list AgentTask -> AgentTask -> Dict + exn;
  cleanup : option exn
}.

Record BaseAgent := mkBaseAgent {
  cls : AgentClass;
  state : AgentState;
  config : Dict;
  _is_running : bool;
  (* ghost: the task objects handed to [process_task] so far, in call
     order, each as its caller left it *)
  handled : list AgentTask
}.

Definition set_state (s : AgentState) (a : BaseAgent) : BaseAgent :=
  mkBaseAgent (cls a) s (config a) (_is_running a) (handled a).

Definition set_is_running (b : bool) (a : BaseAgent) : BaseAgent :=
  mkBaseAgent (cls a) (state a) (config a) b (handled a).

Definition add_handled (t : AgentTask) (a : BaseAgent) : BaseAgent :=
  mkBaseAgent (cls a) (state a) (config a) (_is_running a) (handled a ++ [t]).

Definition st_set_status (s : AgentStatus.t) (st : AgentState) : AgentState :=
  mkAgentState (agent_id st) (agent_name st) s (capabilities st) (current_task st)
    (task_queue st) (memory st) (agent_context st) (metrics st) (agent_created_at st)
    (last_active st).

Definition st_set_current_task (c : option AgentTask) (st : AgentState) : AgentState :=
  mkAgentState (agent_id st) (agent_name st) (agent_status st) (capabilities st) c
    (task_queue st) (memory st) (agent_context st) (metrics st) (agent_created_at st)
    (last_active st).

Definition st_set_task_queue (q : list AgentTask) (st : AgentState) : AgentState :=
  mkAgentState (agent_id st) (agent_name st) (agent_status st) (capabilities st)
    (current_task st) q (memory st) (agent_context st) (metrics st) (agent_created_at st)
    (last_active st).

Definition st_set_memory (m : AgentMemory) (st : AgentState) : AgentState :=
  mkAgentState (agent_id st) (agent_name st) (agent_status st) (capabilities st)
    (current_task st) (task_queue st) m (agent_context st) (metrics st)
    (agent_created_at st) (last_active st).

Definition st_set_metrics (m : Metrics) (st : AgentState) : AgentState :=
  mkAgentState (agent_id st) (agent_name st) (agent_status st) (capabilities st)
    (current_task st) (task_queue st) (memory st) (agent_context st) m
    (agent_created_at st) (last_active st).

Definition st_set_last_active (t : Z) (st : AgentState) : AgentState :=
  mkAgentState (agent_id st) (agent_name st) (agent_status st) (capabilities st)
    (current_task st) (task_queue st) (memory st) (agent_context st) (metrics st)
    (agent_created_at st) t.

Definition initial_metrics : Metrics := mkMetrics 0 0 0%Qc 0%Qc 0%Qc.

Definition empty_memory : AgentMemory := mkMemory [] ∅ [] ∅.

(** [BaseAgent.__init__] *)
Definition BaseAgent_init (e : Env) (c : AgentClass) (id name : string)
    (caps : list AgentCapability) (cfg : option Dict) : Env * BaseAgent :=
  let st := mkAgentState id name AgentStatus.IDLE caps None [] empty_memory ∅
              initial_metrics (clock e) (clock e) in
  (emit INFO "agent initialized" id e,
   mkBaseAgent c st (default ∅ cfg) false []).

(** [BaseAgent.start].  The worker loop it spawns is [worker_iteration]
    below, run by the scheduler for as long as [_is_running] holds. *)
Definition start (e : Env) (a : BaseAgent) : Env * BaseAgent * (unit + exn) :=
  if _is_running a then
    (emit WARNING "agent already running" (agent_id (state a)) e, a, inl ())
  else
    match initialize (cls a) with
    | None =>
        let a1 := set_is_running true a in
        let a2 := set_state (st_set_status AgentStatus.RUNNING (state a1)) a1 in
        let a3 := set_state (st_set_last_active (clock e) (state a2)) a2 in
        (emit INFO "agent started" (agent_id (state a)) e, a3, inl ())
    | Some ex =>
        let a1 := set_state (st_set_status AgentStatus.FAILED (state a)) a in
        (emit ERROR "agent start failed" (agent_id (state a)) e, a1, inr ex)
    end.

(** [BaseAgent.stop] *)
Definition stop (e : Env) (a : BaseAgent) : Env * BaseAgent * (unit + exn) :=
  if negb (_is_running a) then
    (emit WARNING "agent not running" (agent_id (state a)) e, a, inl ())
  else
    let a1 := set_is_running false a in
    let a2 := set_state (st_set_status AgentStatus.IDLE (state a1)) a1 in
    match cleanup (cls a) with
    | None => (emit INFO "agent stopped" (agent_id (state a)) e, a2, inl ())
    | Some ex =>
        let a3 := set_state (st_set_status AgentStatus.FAILED (state a2)) a2 in
        (emit ERROR "agent stop failed" (agent_id (state a)) e, a3, inr ex)
    end.

(** [list.sort(key=lambda t: t.priority, reverse=True)]: the stable sort
    by descending priority.  [insert_task t q] puts [t] in front of the
    first task whose priority is not above its own, so that folding it
    from the right keeps tasks of equal priority in their given order. *)
Fixpoint insert_task (t : AgentTask) (q : list AgentTask) : list AgentTask :=
  match q with
  | [] => [t]
  | u :: q' => if priority t <? priority u then u :: insert_task t q' else t :: u :: q'
  end.

Definition sort_by_priority (q : list AgentTask) : list AgentTask :=
  foldr insert_task [] q.

(** [BaseAgent.add_task] *)
Definition add_task (e : Env) (a : BaseAgent) (t : AgentTask) : Env * BaseAgent :=
  let q1 := task_queue (state a) ++ [t] in
  let q2 := sort_by_priority q1 in
  (emit INFO "task queued" (task_id t) e,
   set_state (st_set_task_queue q2 (state a)) a).

(** [BaseAgent._update_metrics] *)
Definition _update_metrics (success : bool) (execution_time : Qc) (m : Metrics) : Metrics :=
  let c := if success then tasks_completed m + 1 else tasks_completed m in
  let f := if success then tasks_failed m else tasks_failed m + 1 in
  let total := (total_execution_time m + execution_time)%Qc in
  let total_tasks := c + f in
  if 0 <? total_tasks then
    mkMetrics c f total
      (total / Q2Qc (inject_Z total_tasks))%Qc
      (Q2Qc (inject_Z c) / Q2Qc (inject_Z total_tasks))%Qc
  else
    mkMetrics c f total (average_execution_time m) (success_rate m).

(** One turn of the [while self._is_running] loop of
    [BaseAgent._process_task_queue]; [d] is the time [process_task]
    takes.  With an empty queue the turn only sleeps. *)
Definition worker_iteration (d : nat) (e : Env) (a : BaseAgent) : Env * BaseAgent :=
  if negb (_is_running a) then (e, a)
  else
    match task_queue (state a) with
    | [] => (advance 1 e, a)
    | t :: q =>
        let a1 := set_state (st_set_task_queue q (state a)) a in
        let a2 := set_state (st_set_current_task (Some t) (state a1)) a1 in
        let t1 := task_set_status AgentStatus.RUNNING t in
        let start_time := clock e in
        let e1 := emit INFO "task started" (task_id t) e in
        let outcome := process_task (cls a2) (handled a2) t1 in
        let e2 := advance d e1 in
        let execution_time := Q2Qc (inject_Z (clock e2 - start_time)) in
        let '(e3, t2, m) :=
          match outcome with
          | inl r =>
              (emit INFO "task completed" (task_id t) e2,
               task_set_result r (task_set_status AgentStatus.COMPLETED t1),
               _update_metrics true execution_time (metrics (state a2)))
          | inr ex =>
              (emit ERROR "task failed" (task_id t) e2,
               task_set_error (str_exn ex) (task_set_status AgentStatus.FAILED t1),
               _update_metrics false execution_time (metrics (state a2)))
          end in
        let a3 := add_handled t2 (set_state (st_set_metrics m (state a2)) a2) in
        let a4 := set_state (st_set_current_task None (state a3)) a3 in
        (e3, set_state (st_set_last_active (clock e3) (state a4)) a4)
    end.

(** [xs[-n:]] for [n > 0] *)
Definition last_n {A} (n : nat) (xs : list A) : list A := drop (length xs - n) xs.

(** [BaseAgent.update_memory] *)
Definition update_memory (e : Env) (a : BaseAgent)
    (short_term' : option (list BaseMessage)) (long_term' : option Dict)
    (episodic' : option Dict) (semantic' : option Dict) : BaseAgent :=
  let m := memory (state a) in
  let st1 :=
    match short_term' with
    | Some msgs =>
        let ext := short_term m ++ msgs in
        if (100 <? length ext)%nat then last_n 50 ext else ext
    | None => short_term m
    end in
  let lt1 :=
    match long_term' with
    | Some d => d ∪ long_term m
    | None => long_term m
    end in
  let ep1 :=
    match episodic' with
    | Some d => episodic m ++ [(clock e, d)]
    | None => episodic m
    end in
  let se1 :=
    match semantic' with
    | Some d => d ∪ semantic m
    | None => semantic m
    end in
  set_state (st_set_memory (mkMemory st1 lt1 ep1 se1) (state a)) a.

(** ** agent_orchestrator.py *)

Module WorkflowStatus.
Inductive t := PENDING | RUNNING | COMPLETED | FAILED | PAUSED | CANCELLED.
End WorkflowStatus.

Record WorkflowStep := mkStep {
  step_id : string;
  step_name : string;
  agent_type : string;
  input_mapping : list (string * string);
  output_mapping : list (string * string);
  conditions : list (string * Value);
  retry_count : Z;
  max_retries : Z;
  timeout_seconds : Z
}.

Definition set_retry_count (n : Z) (s : WorkflowStep) : WorkflowStep :=
  mkStep (step_id s) (step_name s) (agent_type s) (input_mapping s) (output_mapping s)
    (conditions s) n (max_retries s) (timeout_seconds s).

Record WorkflowState := mkWorkflowState {
  workflow_id : string;
  name : string;
  status : WorkflowStatus.t;
  current_step : option string;
  completed_steps : list string;
  failed_steps : list string;
  context : Dict;
  results : gmap string Dict;
  created_at : Z;
  started_at : option Z;
  completed_at : option Z;
  error : option string
}.

(** [WorkflowState(workflow_id=..., name=...)] *)
Definition new_workflow_state (now : Z) (wid nm : string) : WorkflowState :=
  mkWorkflowState wid nm WorkflowStatus.PENDING None [] [] ∅ ∅ now None None None.

Definition ws_set_status (x : WorkflowStatus.t) (s : WorkflowState) : WorkflowState :=
  mkWorkflowState (workflow_id s) (name s) x (current_step s) (completed_steps s)
    (failed_steps s) (context s) (results s) (created_at s) (started_at s)
    (completed_at s) (error s).

Definition ws_set_current_step (x : option string) (s : WorkflowState) : WorkflowState :=
  mkWorkflowState (workflow_id s) (name s) (status s) x (completed_steps s)
    (failed_steps s) (context s) (results s) (created_at s) (started_at s)
    (completed_at s) (error s).

Definition ws_set_completed_steps (x : list string) (s : WorkflowState) : WorkflowState :=
  mkWorkflowState (workflow_id s) (name s) (status s) (current_step s) x
    (failed_steps s) (context s) (results s) (created_at s) (started_at s)
    (completed_at s) (error s).

Definition ws_set_failed_steps (x : list string) (s : WorkflowState) : WorkflowState :=
  mkWorkflowState (workflow_id s) (name s) (status s) (current_step s) (completed_steps s)
    x (context s) (results s) (created_at s) (started_at s) (completed_at s) (error s).

Definition ws_set_context (x : Dict) (s : WorkflowState) : WorkflowState :=
  mkWorkflowState (workflow_id s) (name s) (status s) (current_step s) (completed_steps s)
    (failed_steps s) x (results s) (created_at s) (started_at s) (completed_at s) (error s).

Definition ws_set_results (x : gmap string Dict) (s : WorkflowState) : WorkflowState :=
  mkWorkflowState (workflow_id s) (name s) (status s) (current_step s) (completed_steps s)
    (failed_steps s) (context s) x (created_at s) (started_at s) (completed_at s) (error s).

Definition ws_set_started_at (x : option Z) (s : WorkflowState) : WorkflowState :=
  mkWorkflowState (workflow_id s) (name s) (status s) (current_step s) (completed_steps s)
    (failed_steps s) (context s) (results s) (created_at s) x (completed_at s) (error s).

Definition ws_set_completed_at (x : option Z) (s : WorkflowState) : WorkflowState :=
  mkWorkflowState (workflow_id s) (name s) (status s) (current_step s) (completed_steps s)
    (failed_steps s) (context s) (results s) (created_at s) (started_at s) x (error s).

Definition ws_set_error (x : option string) (s : WorkflowState) : WorkflowState :=
  mkWorkflowState (workflow_id s) (name s) (status s) (current_step s) (completed_steps s)
    (failed_steps s) (context s) (results s) (created_at s) (started_at s)
    (completed_at s) x.

(** The compiled graph: each node holds the step object its closure was
    built over (the closure mutates [retry_count] on that object); an
    edge to [None] is an edge to [END]. *)
Record CompiledStateGraph := mkGraph {
  nodes : gmap string WorkflowStep;
  edges : list (string * option string);
  entry_point : option string
}.

Definition set_nodes (n : gmap string WorkflowStep) (g : CompiledStateGraph) :=
  mkGraph n (edges g) (entry_point g).

(** The handle [asyncio.create_task] returns. *)
Record asyncio_Task := mkTask { cancel_requested : bool }.

Record AgentOrchestrator := mkOrchestrator {
  agents : gmap string BaseAgent;
  agent_types : gmap string AgentClass;
  workflows : gmap string CompiledStateGraph;
  workflow_states : gmap string WorkflowState;
  running_workflows : gmap string asyncio_Task
}.

Definition set_agents x (o : AgentOrchestrator) :=
  mkOrchestrator x (agent_types o) (workflows o) (workflow_states o) (running_workflows o).
Definition set_agent_types x (o : AgentOrchestrator) :=
  mkOrchestrator (agents o) x (workflows o) (workflow_states o) (running_workflows o).
Definition set_workflows x (o : AgentOrchestrator) :=
  mkOrchestrator (agents o) (agent_types o) x (workflow_states o) (running_workflows o).
Definition set_workflow_states x (o : AgentOrchestrator) :=
  mkOrchestrator (agents o) (agent_types o) (workflows o) x (running_workflows o).
Definition set_running_workflows x (o : AgentOrchestrator) :=
  mkOrchestrator (agents o) (agent_types o) (workflows o) (workflow_states o) x.

(** [AgentOrchestrator.__init__] *)
Definition AgentOrchestrator_init (e : Env) : Env * AgentOrchestrator :=
  (emit INFO "orchestrator initialized" "" e, mkOrchestrator ∅ ∅ ∅ ∅ ∅).

(** [register_agent_type] *)
Definition register_agent_type (e : Env) (o : AgentOrchestrator) (ty : string)
    (c : AgentClass) : Env * AgentOrchestrator :=
  (emit INFO "agent type registered" ty e, set_agent_types (<[ty := c]> (agent_types o)) o).

(** [create_agent]; the agent object it returns is the one stored under
    [id], so the model returns [id]. *)
Definition create_agent (e : Env) (o : AgentOrchestrator) (id ty nm : string)
    (caps : list AgentCapability) (cfg : option Dict)
    : Env * AgentOrchestrator * (string + exn) :=
  match agent_types o !! ty with
  | None => (e, o, inr (ValueError ("unknown agent type: " +:+ ty)))
  | Some c =>
      match agents o !! id with
      | Some _ => (e, o, inr (ValueError ("agent id exists: " +:+ id)))
      | None =>
          let '(e1, a) := BaseAgent_init e c id nm caps cfg in
          let '(e2, a', r) := start e1 a in
          let o1 := set_agents (<[id := a']> (agents o)) o in
          match r with
          | inr ex => (e2, o1, inr ex)
          | inl _ => (emit INFO "agent created" id e2, o1, inl id)
          end
      end
  end.

(** [get_agent] *)
Definition get_agent (o : AgentOrchestrator) (id : string) : option BaseAgent :=
  agents o !! id.

(** [remove_agent] *)
Definition remove_agent (e : Env) (o : AgentOrchestrator) (id : string)
    : Env * AgentOrchestrator * (unit + exn) :=
  match agents o !! id with
  | None => (emit WARNING "agent does not exist" id e, o, inl ())
  | Some a =>
      let '(e1, a', r) := stop e a in
      let o1 := set_agents (<[id := a']> (agents o)) o in
      match r with
      | inr ex => (e1, o1, inr ex)
      | inl _ => (emit INFO "agent removed" id e1, set_agents (delete id (agents o1)) o1, inl ())
      end
  end.

(** [_check_conditions] *)
Fixpoint conditions_hold (conds : list (string * Value)) (ctx : Dict) : bool :=
  match conds with
  | [] => true
  | (key, expected_value) :: rest =>
      match ctx !! key with
      | None => false
      | Some v => if py_ne v expected_value then false else conditions_hold rest ctx
      end
  end.

Definition _check_conditions (conds : list (string * Value)) (ctx : Dict) : bool :=
  match conds with
  | [] => true
  | _ => conditions_hold conds ctx
  end.

(** [_prepare_input] *)
Definition _prepare_input (mapping : list (string * string)) (ctx : Dict) : Dict :=
  fold_left (fun input_data '(output_key, context_key) =>
               match ctx !! context_key with
               | Some v => <[output_key := v]> input_data
               | None => input_data
               end) mapping ∅.

(** [_process_output] *)
Definition _process_output (mapping : list (string * string)) (result : Dict) : Dict :=
  fold_left (fun output_data '(result_key, context_key) =>
               match result !! result_key with
               | Some v => <[context_key := v]> output_data
               | None => output_data
               end) mapping ∅.

(** [_get_or_create_agent] *)
Definition _get_or_create_agent (e : Env) (o : AgentOrchestrator) (ty sid : string)
    : Env * AgentOrchestrator * (string + exn) :=
  let agent_id := ty +:+ "_" +:+ sid in
  match agents o !! agent_id with
  | Some _ => (e, o, inl agent_id)
  | None => create_agent e o agent_id ty (ty +:+ " for " +:+ sid) [] (Some ∅)
  end.

(** [await agent.process_task(task)] on the agent registered under
    [aid]: a direct call, which goes through neither the agent's queue
    nor its worker loop. *)
Definition call_process_task (o : AgentOrchestrator) (aid : string) (t : AgentTask)
    : AgentOrchestrator * (Dict + exn) :=
  match agents o !! aid with
  | Some a =>
      (set_agents (<[aid := add_handled t a]> (agents o)) o,
       process_task (cls a) (handled a) t)
  | None => (o, inr (KeyError aid))
  end.

(** The [try] body of [step_function] from [_prepare_input] on. *)
Definition run_step_body (e : Env) (o : AgentOrchestrator) (step : WorkflowStep)
    (st : WorkflowState) : Env * AgentOrchestrator * (WorkflowState + exn) :=
  let input_data := _prepare_input (input_mapping step) (context st) in
  let '(e1, o1, r) := _get_or_create_agent e o (agent_type step) (step_id step) in
  match r with
  | inr ex => (e1, o1, inr ex)
  | inl aid =>
      let task := new_task (clock e1) (workflow_id st +:+ "_" +:+ step_id step)
                    (step_name step) input_data in
      let '(o2, out) := call_process_task o1 aid task in
      match out with
      | inr ex => (e1, o2, inr ex)
      | inl result =>
          let output_data := _process_output (output_mapping step) result in
          let st1 := ws_set_context (output_data ∪ context st) st in
          let st2 := ws_set_results (<[step_id step := result]> (results st1)) st1 in
          let st3 := ws_set_completed_steps (completed_steps st2 ++ [step_id step]) st2 in
          (emit INFO "step completed" (step_id step) e1, o2, inl st3)
      end
  end.

(** The closure [step_function] built by [_create_step_function].  Its
    retry is a recursive call; [fuel] bounds the depth of that recursion
    and [step_function] below supplies enough of it. *)
Fixpoint step_function_rec (fuel : nat) (e : Env) (o : AgentOrchestrator)
    (step : WorkflowStep) (st : WorkflowState)
    : option (Env * AgentOrchestrator * WorkflowStep * WorkflowState) :=
  match fuel with
  | O => None
  | S fuel' =>
      let e1 := emit INFO "step started" (step_id step) e in
      let st1 := ws_set_current_step (Some (step_id step)) st in
      if negb (_check_conditions (conditions step) (context st1)) then
        Some (emit INFO "step skipped" (step_id step) e1, o, step,
              ws_set_completed_steps (completed_steps st1 ++ [step_id step]) st1)
      else
        let '(e2, o2, r) := run_step_body e1 o step st1 in
        match r with
        | inl st2 => Some (e2, o2, step, st2)
        | inr ex =>
            let e3 := emit ERROR "step failed" (step_id step) e2 in
            let step' := set_retry_count (retry_count step + 1) step in
            if retry_count step' <=? max_retries step' then
              step_function_rec fuel' (emit INFO "step retry" (step_id step) e3) o2 step' st1
            else
              let st2 := ws_set_failed_steps (failed_steps st1 ++ [step_id step]) st1 in
              let st3 := ws_set_status WorkflowStatus.FAILED st2 in
              Some (e3, o2, step', ws_set_error (Some (str_exn ex)) st3)
        end
  end.

Definition step_function (e : Env) (o : AgentOrchestrator) (step : WorkflowStep)
    (st : WorkflowState) : option (Env * AgentOrchestrator * WorkflowStep * WorkflowState) :=
  step_function_rec (S (Z.to_nat (max_retries step - retry_count step))) e o step st.

(** *** The graph library, as the orchestrator uses it

    [StateGraph], [add_node], [add_edge], [set_entry_point], [compile]
    and [ainvoke] belong to the graph library, which is not part of the
    repository.  They are modelled after its documented behaviour:
    compilation rejects duplicate node names, edges between unknown
    nodes and a graph without entry point; a run executes the entry
    node, then, wave after wave, the nodes that the plain edges of the
    previous wave lead to, until a wave is empty, and gives up with
    [GraphRecursionError] after [recursion_limit] waves.

    The library keeps the values of a run to itself.  The object passed
    to [ainvoke] is only read; every node is called on an object rebuilt
    from the current values, and what it returns becomes the current
    values, so a node sees what the nodes before it wrote but none of
    them writes to the object that was passed in.  [ainvoke] returns the
    final values as a plain [dict], not as a [WorkflowState]. *)

(** The [dict] that [ainvoke] returns: one key for each field of
    [WorkflowState], bound to the field's final value.  It has the
    attributes of a [dict] only. *)
Record StateDict := mkStateDict { state_values : WorkflowState }.

Definition graph_compiles (steps : list WorkflowStep)
    (connections : list (string * list string)) : bool :=
  let ids := step_id <$> steps in
  let known s := bool_decide (s ∈ ids) in
  bool_decide (NoDup ids)
  && negb (bool_decide (steps = []))
  && forallb (fun '(from_step, to_steps) => known from_step && forallb known to_steps)
       connections.

Definition build_edges (connections : list (string * list string))
    : list (string * option string) :=
  connections ≫= (fun '(from_step, to_steps) =>
    match to_steps with
    | [] => [(from_step, None)]
    | _ => (fun to_step => (from_step, Some to_step)) <$> to_steps
    end).

Definition build_graph (steps : list WorkflowStep)
    (connections : list (string * list string)) : CompiledStateGraph :=
  mkGraph (list_to_map ((fun s => (step_id s, s)) <$> steps))
          (build_edges connections)
          (step_id <$> head steps).

Definition successors (g : CompiledStateGraph) (n : string) : list string :=
  omap (fun '(from_step, to_step) =>
          if bool_decide (from_step = n) then to_step else None) (edges g).

Definition recursion_limit : nat := 25.

(** The nodes of one wave, in order, on the current values of the run. *)
Fixpoint run_nodes (wave : list string) (e : Env) (o : AgentOrchestrator)
    (g : CompiledStateGraph) (st : WorkflowState)
    : Env * AgentOrchestrator * CompiledStateGraph * (WorkflowState + exn) :=
  match wave with
  | [] => (e, o, g, inl st)
  | n :: rest =>
      match nodes g !! n with
      | None => (e, o, g, inr (KeyError n))
      | Some step =>
          match step_function e o step st with
          | None => (e, o, g, inr (Exception "maximum recursion depth exceeded"))
          | Some (e1, o1, step1, st1) =>
              run_nodes rest e1 o1 (set_nodes (<[n := step1]> (nodes g)) g) st1
          end
      end
  end.

Fixpoint ainvoke_rec (limit : nat) (wave : list string) (e : Env)
    (o : AgentOrchestrator) (g : CompiledStateGraph) (st : WorkflowState) {struct limit}
    : Env * AgentOrchestrator * CompiledStateGraph * (WorkflowState + exn) :=
  match wave with
  | [] => (e, o, g, inl st)
  | _ =>
      match limit with
      | O => (e, o, g, inr GraphRecursionError)
      | S limit' =>
          let '(e1, o1, g1, r) := run_nodes wave e o g st in
          match r with
          | inr ex => (e1, o1, g1, inr ex)
          | inl st1 =>
              ainvoke_rec limit' (remove_dups (wave ≫= successors g)) e1 o1 g1 st1
          end
      end
  end.

Definition ainvoke (e : Env) (o : AgentOrchestrator) (g : CompiledStateGraph)
    (st : WorkflowState)
    : Env * AgentOrchestrator * CompiledStateGraph * (StateDict + exn) :=
  let '(e1, o1, g1, r) :=
    ainvoke_rec recursion_limit (option_list (entry_point g)) e o g st in
  match r with
  | inl st1 => (e1, o1, g1, inl (mkStateDict st1))
  | inr ex => (e1, o1, g1, inr ex)
  end.

(** [create_workflow] *)
Definition create_workflow (e : Env) (o : AgentOrchestrator) (wid nm : string)
    (steps : list WorkflowStep) (connections : list (string * list string))
    : Env * AgentOrchestrator * (unit + exn) :=
  match workflows o !! wid with
  | Some _ => (e, o, inr (ValueError ("workflow id exists: " +:+ wid)))
  | None =>
      if graph_compiles steps connections then
        let o1 := set_workflows (<[wid := build_graph steps connections]> (workflows o)) o in
        let o2 := set_workflow_states
                    (<[wid := new_workflow_state (clock e) wid nm]> (workflow_states o1)) o1 in
        (emit INFO "workflow created" wid e, o2, inl ())
      else (e, o, inr (ValueError "invalid graph"))
  end.

(** [execute_workflow] up to and including the registration of the
    asyncio task under [running_workflows]: there is no suspension point
    in this part, so it runs as one atomic action. *)
Definition execute_workflow_start (e : Env) (o : AgentOrchestrator) (wid : string)
    (input_data : Dict) : Env * AgentOrchestrator * (unit + exn) :=
  match workflows o !! wid with
  | None => (e, o, inr (ValueError ("workflow does not exist: " +:+ wid)))
  | Some _ =>
      match running_workflows o !! wid with
      | Some _ => (e, o, inr (ValueError ("workflow is running: " +:+ wid)))
      | None =>
          match workflow_states o !! wid with
          | None => (e, o, inr (KeyError wid))
          | Some st =>
              let st1 := ws_set_status WorkflowStatus.RUNNING st in
              let st2 := ws_set_started_at (Some (clock e)) st1 in
              let st3 := ws_set_context input_data st2 in
              let st4 := ws_set_results ∅ st3 in
              let st5 := ws_set_completed_steps [] st4 in
              let st6 := ws_set_failed_steps [] st5 in
              let st7 := ws_set_error None st6 in
              let o1 := set_workflow_states (<[wid := st7]> (workflow_states o)) o in
              let o2 := set_running_workflows
                          (<[wid := mkTask false]> (running_workflows o1)) o1 in
              (emit INFO "workflow started" wid e, o2, inl ())
          end
      end
  end.

(** [_run_workflow] on the graph and the run state of [wid].  The run
    state stored in [workflow_states] is what [ainvoke] reads its
    initial values from, and it is left as it is; the step objects are
    the ones the node closures captured, kept inside the compiled graph,
    so their retry counters stay as the run leaves them.  The result is
    what [ainvoke] returned. *)
Definition _run_workflow (e : Env) (o : AgentOrchestrator) (wid : string)
    : Env * AgentOrchestrator * (StateDict + exn) :=
  match workflows o !! wid, workflow_states o !! wid with
  | Some g, Some st =>
      let '(e1, o1, g1, r) := ainvoke e o g st in
      (e1, set_workflows (<[wid := g1]> (workflows o1)) o1, r)
  | _, _ => (e, o, inr (KeyError wid))
  end.

(** [execute_workflow] from the return of [await task] on, when the
    task was not cancelled: the [try] tail, the [except] clause and the
    [finally] clause.  When the task returned, [final_state] is the
    [dict] of [ainvoke], and the first statement of the [try] tail,
    [final_state.status = WorkflowStatus.COMPLETED], raises
    [AttributeError]; when the task raised, that exception arrives.
    Either way the [except] clause handles it on the stored run state
    [state], which is what the function returns. *)
Definition execute_workflow_finish (e : Env) (o : AgentOrchestrator) (wid : string)
    (r : StateDict + exn) : Env * AgentOrchestrator * (WorkflowState + exn) :=
  match workflow_states o !! wid with
  | None => (e, o, inr (KeyError wid))
  | Some st =>
      let ex :=
        match r with
        | inl final_state => AttributeError "dict" "status"
        | inr ex => ex
        end in
      let st' :=
        ws_set_completed_at (Some (clock e))
          (ws_set_error (Some (str_exn ex))
             (ws_set_status WorkflowStatus.FAILED st)) in
      let o1 := set_workflow_states (<[wid := st']> (workflow_states o)) o in
      (emit ERROR "workflow failed" wid e,
       set_running_workflows (delete wid (running_workflows o1)) o1, inl st')
  end.

(** [execute_workflow] when [await task] is interrupted by the task's
    cancellation: only the [finally] clause runs. *)
Definition execute_workflow_cancelled (o : AgentOrchestrator) (wid : string)
    : AgentOrchestrator :=
  set_running_workflows (delete wid (running_workflows o)) o.

(** [execute_workflow], run without any other coroutine interleaved. *)
Definition execute_workflow (e : Env) (o : AgentOrchestrator) (wid : string)
    (input_data : Dict) : Env * AgentOrchestrator * (WorkflowState + exn) :=
  let '(e1, o1, r) := execute_workflow_start e o wid input_data in
  match r with
  | inr ex => (e1, o1, inr ex)
  | inl _ =>
      let '(e2, o2, r2) := _run_workflow e1 o1 wid in
      execute_workflow_finish e2 o2 wid r2
  end.

(** [get_workflow_status] *)
Definition get_workflow_status (o : AgentOrchestrator) (wid : string)
    : option WorkflowState :=
  workflow_states o !! wid.

(** [cancel_workflow] *)
Definition cancel_workflow (e : Env) (o : AgentOrchestrator) (wid : string)
    : Env * AgentOrchestrator * (unit + exn) :=
  match running_workflows o !! wid with
  | None => (emit WARNING "workflow not running" wid e, o, inl ())
  | Some _ =>
      let o1 := set_running_workflows (<[wid := mkTask true]> (running_workflows o)) o in
      match workflow_states o1 !! wid with
      | None => (e, o1, inr (KeyError wid))
      | Some st =>
          let st1 := ws_set_status WorkflowStatus.CANCELLED st in
          let st2 := ws_set_completed_at (Some (clock e)) st1 in
          (emit INFO "workflow cancelled" wid e,
           set_workflow_states (<[wid := st2]> (workflow_states o1)) o1, inl ())
      end
  end.

(** ** Derived notions used by the statements *)

(** A sequence of [update_memory] calls, each with its own arguments
    and at its own time. *)
Definition MemoryUpdate : Type :=
  Env * option (list BaseMessage) * option Dict * option Dict * option Dict.

Definition memory_updates (a : BaseAgent) (us : list MemoryUpdate) : BaseAgent :=
  fold_left (fun a '(e, s, l, ep, se) => update_memory e a s l ep se) us a.

(** A condition set is unmet by a context when one of its keys is
    missing from the context or bound to a value that [!=] tells apart
    from the expected one. *)
Definition condition_unmet (conds : list (string * Value)) (ctx : Dict) : Prop :=
  exists key expected,
    (key, expected) ∈ conds /\
    (ctx !! key = None \/ exists v, ctx !! key = Some v /\ py_ne v expected = true).

(** The identifier under which a step's agent is registered. *)
Definition step_agent_id (step : WorkflowStep) : string :=
  agent_type step +:+ "_" +:+ step_id step.

(** The task object a step attempt builds from a run state. *)
Definition step_task (now : Z) (step : WorkflowStep) (st : WorkflowState) : AgentTask :=
  new_task now (workflow_id st +:+ "_" +:+ step_id step) (step_name step)
    (_prepare_input (input_mapping step) (context st)).

(** A task object nobody has written a status, a result or an error to. *)
Definition untouched (t : AgentTask) : Prop :=
  task_status t = AgentStatus.IDLE /\ task_result t = None /\ task_error t = None.

(** Step executions one after the other, each on its own step object
    and run state, against the same orchestrator. *)
Fixpoint run_steps (l : list (WorkflowStep * WorkflowState)) (e : Env)
    (o : AgentOrchestrator) : option (Env * AgentOrchestrator) :=
  match l with
  | [] => Some (e, o)
  | (step, st) :: rest =>
      match step_function e o step st with
      | Some (e1, o1, _, _) => run_steps rest e1 o1
      | None => None
      end
  end.

(** Worker-loop turns one after the other. *)
Fixpoint worker_iterations (ds : list nat) (e : Env) (a : BaseAgent) : Env * BaseAgent :=
  match ds with
  | [] => (e, a)
  | d :: rest => let '(e1, a1) := worker_iteration d e a in worker_iterations rest e1 a1
  end.

(** A run is in flight for [wid] while [wid] is a key of
    [running_workflows].  What holds of every in-flight run: its
    workflow was compiled, it has a run state, and that run state was
    stamped with a start time that the clock has reached. *)
Definition in_flight_ok (e : Env) (o : AgentOrchestrator) (wid : string) : bool :=
  match workflows o !! wid, workflow_states o !! wid with
  | Some _, Some st =>
      match started_at st with
      | Some t0 => t0 <=? clock e
      | None => false
      end
  | _, _ => false
  end.

Definition orch_inv (e : Env) (o : AgentOrchestrator) : Prop :=
  map_Forall (fun wid _ => in_flight_ok e o wid = true) (running_workflows o).

(** One node of an in-flight run executing: the progress a run makes
    between two suspension points.  [st] is the current values of the
    run, which the graph library holds: the node works on them, and of
    the orchestrator it changes the agent registry and the step object
    inside the compiled graph, not the stored run state. *)
Definition run_step_in_flight (e : Env) (o : AgentOrchestrator) (wid n : string)
    (st : WorkflowState) : Env * AgentOrchestrator :=
  match workflows o !! wid with
  | Some g =>
      match nodes g !! n with
      | Some step =>
          match step_function e o step st with
          | Some (e1, o1, step1, st1) =>
              let g1 := set_nodes (<[n := step1]> (nodes g)) g in
              (e1, set_workflows (<[wid := g1]> (workflows o1)) o1)
          | None => (e, o)
          end
      | None => (e, o)
      end
  | None => (e, o)
  end.

(** The states the orchestrator can be in: every public operation, the
    phases of [execute_workflow] taken apart so that other coroutines
    may run between them, and time passing. *)
Inductive reachable : Env -> AgentOrchestrator -> Prop :=
| R_init e :
    reachable (AgentOrchestrator_init e).1 (AgentOrchestrator_init e).2
| R_advance e o d :
    reachable e o -> reachable (advance d e) o
| R_register e o ty c :
    reachable e o ->
    reachable (register_agent_type e o ty c).1 (register_agent_type e o ty c).2
| R_create_agent e o id ty nm caps cfg :
    reachable e o ->
    reachable (create_agent e o id ty nm caps cfg).1.1 (create_agent e o id ty nm caps cfg).1.2
| R_remove_agent e o id :
    reachable e o ->
    reachable (remove_agent e o id).1.1 (remove_agent e o id).1.2
| R_create_workflow e o wid nm steps conns :
    reachable e o ->
    reachable (create_workflow e o wid nm steps conns).1.1
              (create_workflow e o wid nm steps conns).1.2
| R_start e o wid input :
    reachable e o ->
    reachable (execute_workflow_start e o wid input).1.1
              (execute_workflow_start e o wid input).1.2
| R_step e o wid n st :
    reachable e o ->
    is_Some (running_workflows o !! wid) ->
    reachable (run_step_in_flight e o wid n st).1 (run_step_in_flight e o wid n st).2
| R_finish e o wid r :
    reachable e o ->
    is_Some (running_workflows o !! wid) ->
    reachable (execute_workflow_finish e o wid r).1.1
              (execute_workflow_finish e o wid r).1.2
| R_cancelled e o wid :
    reachable e o ->
    reachable e (execute_workflow_cancelled o wid)
| R_cancel e o wid :
    reachable e o ->
    reachable (cancel_workflow e o wid).1.1 (cancel_workflow e o wid).1.2.

(** How a step execution may change the agent registered under one
    identifier: an agent that was there keeps its class and its whole
    [state] and was handed some more task objects, all of them
    [untouched]; an agent that was not there is absent still or is a
    new one with an empty queue, no current task and the initial
    metrics. *)
Definition agent_step_rel (before after : option BaseAgent) : Prop :=
  match before, after with
  | Some a, Some a' =>
      cls a' = cls a /\
      state a' = state a /\
      exists more, handled a' = handled a ++ more /\ Forall untouched more
  | None, Some a' =>
      task_queue (state a') = [] /\
      current_task (state a') = None /\
      metrics (state a') = initial_metrics /\
      Forall untouched (handled a')
  | None, None => True
  | Some _, None => False
  end.

(** What a step execution may change outside the run state: it reads
    the clock without moving it, writes log records, and touches the
    orchestrator in its agent registry only, as [agent_step_rel] says. *)
Definition orch_step_rel (e e' : Env) (o o' : AgentOrchestrator) : Prop :=
  clock e' = clock e /\
  agent_types o' = agent_types o /\
  workflows o' = workflows o /\
  workflow_states o' = workflow_states o /\
  running_workflows o' = running_workflows o /\
  forall aid, agent_step_rel (agents o !! aid) (agents o' !! aid).

(** What a step execution never changes in the run state. *)
Definition run_state_frame (st st' : WorkflowState) : Prop :=
  workflow_id st' = workflow_id st /\ name st' = name st /\
  created_at st' = created_at st /\ started_at st' = started_at st /\
  completed_at st' = completed_at st.

(** The agent [a] after further calls of its capability. *)
Definition with_handled (h : list AgentTask) (a : BaseAgent) : BaseAgent :=
  mkBaseAgent (cls a) (state a) (config a) (_is_running a) h.

(** The agent [create_agent] builds and starts for a class whose
    [initialize] succeeds. *)
Definition started_agent (now : Z) (c : AgentClass) (id nm : string) : BaseAgent :=
  mkBaseAgent c
    (mkAgentState id nm AgentStatus.RUNNING [] None [] empty_memory ∅ initial_metrics now now)
    ∅ true [].

(** The agent a step resolves to: the one registered under the step's
    agent identifier or, when there is none, the one [create_agent]
    builds from the registered class of the step's agent type, provided
    its [initialize] succeeds. *)
Definition resolves_to (e : Env) (o : AgentOrchestrator) (step : WorkflowStep)
    (a : BaseAgent) : Prop :=
  agents o !! step_agent_id step = Some a \/
  (agents o !! step_agent_id step = None /\
   exists c, agent_types o !! agent_type step = Some c /\ initialize c = None /\
     a = started_agent (clock e) c (step_agent_id step)
           (agent_type step +:+ " for " +:+ step_id step)).

(** The run state a step leaves behind when it gives up with [ex]. *)
Definition gave_up (ex : exn) (step : WorkflowStep) (st : WorkflowState) : WorkflowState :=
  ws_set_error (Some (str_exn ex))
    (ws_set_status WorkflowStatus.FAILED
       (ws_set_failed_steps (failed_steps st ++ [step_id step])
          (ws_set_current_step (Some (step_id step)) st))).

(** The run state a step leaves behind when its capability returned
    [result]. *)
Definition went_through (result : Dict) (step : WorkflowStep) (st : WorkflowState)
    : WorkflowState :=
  ws_set_completed_steps (completed_steps st ++ [step_id step])
    (ws_set_results (<[step_id step := result]> (results st))
       (ws_set_context (_process_output (output_mapping step) result ∪ context st)
          (ws_set_current_step (Some (step_id step)) st))).

(** [u] may stand before [t] in a queue sorted by descending priority. *)
Definition before_ok (u t : AgentTask) : Prop := priority t <= priority u.

(** Tasks of one priority, in the order the list has them. *)
Definition of_priority (p : Z) (q : list AgentTask) : list AgentTask :=
  filter (fun t => priority t = p) q.

(** The task object a worker-loop turn leaves behind for [t], on an
    agent of class [c] that has handled [h]. *)
Definition finished (c : AgentClass) (h : list AgentTask) (t : AgentTask) : AgentTask :=
  let t1 := task_set_status AgentStatus.RUNNING t in
  match process_task c h t1 with
  | inl r => task_set_result r (task_set_status AgentStatus.COMPLETED t1)
  | inr ex => task_set_error (str_exn ex) (task_set_status AgentStatus.FAILED t1)
  end.

(** The attempt count of a step whose capability always fails, stated
    for every step whatever retry counter it starts with. *)
Definition budget_ignores_counter : Prop :=
  forall e o step st a,
    resolves_to e o step a ->
    _check_conditions (conditions step) (context st) = true ->
    (forall h t, exists ex, process_task (cls a) h t = inr ex) ->
    exists e' o' step' st' a',
      step_function e o step st = Some (e', o', step', st') /\
      agents o' !! step_agent_id step = Some a' /\
      length (handled a') = (length (handled a) + Z.to_nat (max_retries step + 1))%nat.

(** [orch_inv] is decidable: it is a finite conjunction of boolean tests. *)
#[global] Instance orch_inv_dec e o : Decision (orch_inv e o).
Proof. unfold orch_inv. apply _. Defined.

(** ** base_agent.py: the status report *)

(** [AgentStatus.value] *)
Definition AgentStatus_value (s : AgentStatus.t) : string :=
  match s with
  | AgentStatus.IDLE => "idle"
  | AgentStatus.RUNNING => "running"
  | AgentStatus.COMPLETED => "completed"
  | AgentStatus.FAILED => "failed"
  | AgentStatus.PAUSED => "paused"
  end.

(** [AgentCapability.value] *)
Definition AgentCapability_value (c : AgentCapability) : string :=
  match c with
  | PERCEPTION => "perception"
  | PLANNING => "planning"
  | TOOL_USE => "tool_use"
  | KNOWLEDGE => "knowledge"
  | MEMORY => "memory"
  | COMMUNICATION => "communication"
  end.

(** The dict [BaseAgent.get_status] returns. *)
Record StatusReport := mkStatusReport {
  rep_agent_id : string;
  rep_name : string;
  rep_status : string;
  rep_capabilities : list string;
  rep_is_running : bool;
  rep_current_task : option AgentTask;
  rep_queue_size : nat;
  rep_metrics : Metrics;
  rep_created_at : Z;
  rep_last_active : Z
}.

(** [BaseAgent.get_status] *)
Definition get_status (a : BaseAgent) : StatusReport :=
  mkStatusReport (agent_id (state a)) (agent_name (state a))
    (AgentStatus_value (agent_status (state a)))
    (AgentCapability_value <$> capabilities (state a))
    (_is_running a) (current_task (state a)) (length (task_queue (state a)))
    (metrics (state a)) (agent_created_at (state a)) (last_active (state a)).

(** ** agent_orchestrator.py: summaries and shutdown *)

(** [WorkflowStatus.value] *)
Definition WorkflowStatus_value (s : WorkflowStatus.t) : string :=
  match s with
  | WorkflowStatus.PENDING => "pending"
  | WorkflowStatus.RUNNING => "running"
  | WorkflowStatus.COMPLETED => "completed"
  | WorkflowStatus.FAILED => "failed"
  | WorkflowStatus.PAUSED => "paused"
  | WorkflowStatus.CANCELLED => "cancelled"
  end.

(** The dict [get_agent_status_summary] returns. *)
Record AgentSummary := mkAgentSummary {
  total_agents : nat;
  running_agents : nat;
  idle_agents : nat;
  failed_agents : nat;
  agent_details : list StatusReport
}.

(** One pass of the loop of [get_agent_status_summary]. *)
Definition summary_add (s : AgentSummary) (a : BaseAgent) : AgentSummary :=
  let status := get_status a in
  let details := agent_details s ++ [status] in
  if bool_decide (rep_status status = "running") then
    mkAgentSummary (total_agents s) (S (running_agents s)) (idle_agents s)
      (failed_agents s) details
  else if bool_decide (rep_status status = "idle") then
    mkAgentSummary (total_agents s) (running_agents s) (S (idle_agents s))
      (failed_agents s) details
  else if bool_decide (rep_status status = "failed") then
    mkAgentSummary (total_agents s) (running_agents s) (idle_agents s)
      (S (failed_agents s)) details
  else
    mkAgentSummary (total_agents s) (running_agents s) (idle_agents s)
      (failed_agents s) details.

(** [get_agent_status_summary], the agents walked in the order of
    [map_to_list]. *)
Definition get_agent_status_summary (o : AgentOrchestrator) : AgentSummary :=
  fold_left summary_add (map_to_list (agents o)).*2
    (mkAgentSummary (size (agents o)) 0 0 0 []).

(** One entry of [workflow_details]. *)
Record WorkflowDetail := mkWorkflowDetail {
  det_workflow_id : string;
  det_name : string;
  det_status : string;
  det_current_step : option string;
  det_completed_steps : nat;
  det_failed_steps : nat;
  det_created_at : Z;
  det_started_at : option Z;
  det_completed_at : option Z
}.

Record WorkflowSummary := mkWorkflowSummary {
  total_workflows : nat;
  running_workflows_count : nat;
  workflow_details : list WorkflowDetail
}.

(** [get_workflow_summary], the run states walked in the order of
    [map_to_list]. *)
Definition get_workflow_summary (o : AgentOrchestrator) : WorkflowSummary :=
  mkWorkflowSummary (size (workflows o)) (size (running_workflows o))
    ((fun '(wid, st) =>
        mkWorkflowDetail wid (name st) (WorkflowStatus_value (status st)) (current_step st)
          (length (completed_steps st)) (length (failed_steps st))
          (created_at st) (started_at st) (completed_at st))
       <$> map_to_list (workflow_states o)).

(** [shutdown].  Python walks a dict in insertion order, which the maps
    of the model do not record: [shutdown_in] takes the two orders in
    which the keys are walked, and [shutdown] walks them in the order of
    [map_to_list]. *)
Fixpoint cancel_each (wids : list string) (e : Env) (o : AgentOrchestrator)
    : Env * AgentOrchestrator * (unit + exn) :=
  match wids with
  | [] => (e, o, inl ())
  | workflow_id :: rest =>
      let '(e1, o1, r) := cancel_workflow e o workflow_id in
      match r with
      | inr ex => (e1, o1, inr ex)
      | inl _ => cancel_each rest e1 o1
      end
  end.

Fixpoint remove_each (aids : list string) (e : Env) (o : AgentOrchestrator)
    : Env * AgentOrchestrator * (unit + exn) :=
  match aids with
  | [] => (e, o, inl ())
  | agent_id :: rest =>
      let '(e1, o1, r) := remove_agent e o agent_id in
      match r with
      | inr ex => (e1, o1, inr ex)
      | inl _ => remove_each rest e1 o1
      end
  end.

Definition shutdown_in (wids aids : list string) (e : Env) (o : AgentOrchestrator)
    : Env * AgentOrchestrator * (unit + exn) :=
  let e0 := emit INFO "orchestrator shutting down" "" e in
  let '(e1, o1, r) := cancel_each wids e0 o in
  match r with
  | inr ex => (e1, o1, inr ex)
  | inl _ =>
      let '(e2, o2, r2) := remove_each aids e1 o1 in
      match r2 with
      | inr ex => (e2, o2, inr ex)
      | inl _ => (emit INFO "orchestrator shut down" "" e2, o2, inl ())
      end
  end.

Definition shutdown (e : Env) (o : AgentOrchestrator) :=
  shutdown_in (map_to_list (running_workflows o)).*1 (map_to_list (agents o)).*1 e o.

(** ** api/v1/agents.py: the agent endpoints

    An [HTTPException] raised by an endpoint is the [inr] of its result. *)

(** [AgentCapability(cap_str)]: the member with that value, or a
    [ValueError]. *)
Definition AgentCapability_of_string (s : string) : AgentCapability + exn :=
  if bool_decide (s = "perception") then inl PERCEPTION
  else if bool_decide (s = "planning") then inl PLANNING
  else if bool_decide (s = "tool_use") then inl TOOL_USE
  else if bool_decide (s = "knowledge") then inl KNOWLEDGE
  else if bool_decide (s = "memory") then inl MEMORY
  else if bool_decide (s = "communication") then inl COMMUNICATION
  else inr (ValueError ("'" +:+ s +:+ "' is not a valid AgentCapability")).

(** The values of the members of [AgentCapability], in declaration order. *)
Definition capability_values : list string :=
  AgentCapability_value <$>
    [PERCEPTION; PLANNING; TOOL_USE; KNOWLEDGE; MEMORY; COMMUNICATION].

(** The conversion loop at the head of the [create_agent] endpoint. *)
Fixpoint convert_capabilities (cap_strs : list string) (e : Env)
    (capabilities : list AgentCapability) : Env * list AgentCapability :=
  match cap_strs with
  | [] => (e, capabilities)
  | cap_str :: rest =>
      match AgentCapability_of_string cap_str with
      | inl c => convert_capabilities rest e (capabilities ++ [c])
      | inr _ =>
          convert_capabilities rest (emit WARNING "unknown agent capability" cap_str e)
            capabilities
      end
  end.

Record HTTPException := mkHTTPException { status_code : Z; detail : string }.

Record CreateAgentRequest := mkCreateAgentRequest {
  req_agent_type : string;
  req_name : string;
  req_capabilities : list string;
  req_config : option Dict
}.

Record ExecuteTaskRequest := mkExecuteTaskRequest {
  req_task_type : string;
  req_payload : Dict;
  req_priority : Z
}.

(** The dict an endpoint returns: [success], the [agent_id] or
    [task_id] when there is one, and [message]. *)
Record ApiResponse := mkApiResponse {
  resp_success : bool;
  resp_id : option string;
  resp_message : string
}.

(** [POST /create] *)
Definition api_create_agent (e : Env) (o : AgentOrchestrator) (request : CreateAgentRequest)
    : Env * AgentOrchestrator * (ApiResponse + HTTPException) :=
  let '(e1, capabilities) := convert_capabilities (req_capabilities request) e [] in
  let agent_id := req_agent_type request +:+ "_" +:+ pretty (size (agents o) + 1)%nat in
  let '(e2, o2, r) :=
    create_agent e1 o agent_id (req_agent_type request) (req_name request)
      capabilities (req_config request) in
  match r with
  | inl _ =>
      (e2, o2, inl (mkApiResponse true (Some agent_id)
                      ("agent created: " +:+ req_name request)))
  | inr ex =>
      (emit ERROR "create agent failed" (str_exn ex) e2, o2,
       inr (mkHTTPException 500 (str_exn ex)))
  end.

(** [POST /{agent_id}/execute] *)
Definition api_execute_agent_task (e : Env) (o : AgentOrchestrator) (agent_id : string)
    (request : ExecuteTaskRequest)
    : Env * AgentOrchestrator * (ApiResponse + HTTPException) :=
  match get_agent o agent_id with
  | None => (e, o, inr (mkHTTPException 404 ("agent does not exist: " +:+ agent_id)))
  | Some agent =>
      let task :=
        mkAgentTask
          (agent_id +:+ "_" +:+ req_task_type request +:+ "_" +:+
           pretty (length (task_queue (state agent)) + 1)%nat)
          (req_task_type request) (req_priority request) (req_payload request)
          (clock e) None [] AgentStatus.IDLE None None in
      let '(e1, agent1) := add_task e agent task in
      (e1, set_agents (<[agent_id := agent1]> (agents o)) o,
       inl (mkApiResponse true (Some (task_id task)) ("task queued for " +:+ agent_id)))
  end.

(** [DELETE /{agent_id}] *)
Definition api_remove_agent (e : Env) (o : AgentOrchestrator) (agent_id : string)
    : Env * AgentOrchestrator * (ApiResponse + HTTPException) :=
  match get_agent o agent_id with
  | None => (e, o, inr (mkHTTPException 404 ("agent does not exist: " +:+ agent_id)))
  | Some _ =>
      let '(e1, o1, r) := remove_agent e o agent_id in
      match r with
      | inl _ => (e1, o1, inl (mkApiResponse true None ("agent removed: " +:+ agent_id)))
      | inr ex =>
          (emit ERROR "remove agent failed" (str_exn ex) e1, o1,
           inr (mkHTTPException 500 (str_exn ex)))
      end
  end.

(** ** Further notions used by the statements *)

(** How one step execution leaves the run state and the step object. *)
Definition recorded_once (step step' : WorkflowStep) (st st' : WorkflowState) : Prop :=
  current_step st' = Some (step_id step) /\
  step' = set_retry_count (retry_count step') step /\
  retry_count step <= retry_count step' /\
  ((completed_steps st' = completed_steps st ++ [step_id step] /\
    failed_steps st' = failed_steps st /\
    status st' = status st /\
    error st' = error st)
   \/
   (failed_steps st' = failed_steps st ++ [step_id step] /\
    completed_steps st' = completed_steps st /\
    status st' = WorkflowStatus.FAILED /\
    is_Some (error st') /\
    context st' = context st /\
    results st' = results st /\
    max_retries step < retry_count step')).

(** The agent [create_agent] leaves in the registry when the
    [initialize] of its class raises. *)
Definition stillborn_agent (now : Z) (c : AgentClass) (id nm : string)
    (caps : list AgentCapability) (cfg : option Dict) : BaseAgent :=
  mkBaseAgent c
    (mkAgentState id nm AgentStatus.FAILED caps None [] empty_memory ∅ initial_metrics now now)
    (default ∅ cfg) false [].

(** The agent [create_agent] registers when [initialize] succeeds. *)
Definition created_agent (now : Z) (c : AgentClass) (id nm : string)
    (caps : list AgentCapability) (cfg : option Dict) : BaseAgent :=
  mkBaseAgent c
    (mkAgentState id nm AgentStatus.RUNNING caps None [] empty_memory ∅ initial_metrics now now)
    (default ∅ cfg) true [].

(** What callers and the worker loop do to one agent's queue. *)
Inductive QueueOp :=
| Submit (t : AgentTask)     (* [add_task(t)] *)
| Turn (d : nat).            (* one turn of the worker loop *)

Fixpoint run_ops (ops : list QueueOp) (e : Env) (a : BaseAgent) : Env * BaseAgent :=
  match ops with
  | [] => (e, a)
  | Submit t :: rest => let '(e1, a1) := add_task e a t in run_ops rest e1 a1
  | Turn d :: rest => let '(e1, a1) := worker_iteration d e a in run_ops rest e1 a1
  end.

Definition submitted (ops : list QueueOp) : list AgentTask :=
  omap (fun op => match op with Submit t => Some t | Turn _ => None end) ops.

(** Outcomes recorded one after the other by [_update_metrics]. *)
Definition record_outcomes (l : list (bool * Qc)) (m : Metrics) : Metrics :=
  fold_left (fun m '(success, execution_time) => _update_metrics success execution_time m) l m.

Definition count_of (b : bool) (l : list (bool * Qc)) : Z :=
  Z.of_nat (length (filter (fun x => x.1 = b) l)).

Definition total_time (l : list (bool * Qc)) : Qc :=
  fold_left (fun acc x => (acc + x.2)%Qc) l 0%Qc.

(** [update_memory(long_term=d)] for each [(e, d)] of [updates], in order. *)
Definition remember_all (updates : list (Env * Dict)) (a : BaseAgent) : BaseAgent :=
  fold_left (fun a ed => update_memory ed.1 a None (Some ed.2) None None) updates a.

(** One turn of the worker loop of the agent registered under [aid]. *)
Definition registry_worker_turn (d : nat) (e : Env) (o : AgentOrchestrator) (aid : string)
    : Env * AgentOrchestrator :=
  match agents o !! aid with
  | Some a =>
      let '(e1, a1) := worker_iteration d e a in
      (e1, set_agents (<[aid := a1]> (agents o)) o)
  | None => (e, o)
  end.

(** The run state as [execute_workflow] resets it before the graph
    runs, at time [now] and for the input [input_data]. *)
Definition run_state_at_start (now : Z) (input_data : Dict) (st : WorkflowState)
    : WorkflowState :=
  ws_set_error None
    (ws_set_failed_steps []
       (ws_set_completed_steps []
          (ws_set_results ∅
             (ws_set_context input_data
                (ws_set_started_at (Some now)
                   (ws_set_status WorkflowStatus.RUNNING st)))))).

(** The run state [cancel_workflow] leaves at time [now]. *)
Definition cancelled_at (now : Z) (st : WorkflowState) : WorkflowState :=
  ws_set_completed_at (Some now) (ws_set_status WorkflowStatus.CANCELLED st).

(** Every node of a compiled graph is stored under the id of its step. *)
Definition graph_keyed (g : CompiledStateGraph) : Prop :=
  map_Forall (fun n step => step_id step = n) (nodes g).

(** A registered agent carries the id it is registered under, and its
    status tells whether its worker loop is on: RUNNING when it is,
    IDLE or FAILED when it is not. *)
Definition agent_ok (id : string) (a : BaseAgent) : Prop :=
  agent_id (state a) = id /\
  (if _is_running a then agent_status (state a) = AgentStatus.RUNNING
   else agent_status (state a) = AgentStatus.IDLE \/
        agent_status (state a) = AgentStatus.FAILED).

(** Well-formedness of the orchestrator's tables. *)
Definition orch_wf (o : AgentOrchestrator) : Prop :=
  dom (workflow_states o) = dom (workflows o) /\
  dom (running_workflows o) ⊆ dom (workflows o) /\
  map_Forall (fun _ g => graph_keyed g) (workflows o) /\
  map_Forall (fun wid st => workflow_id st = wid) (workflow_states o) /\
  map_Forall agent_ok (agents o).

(** What the run of a graph may have done to the values of the run. *)
Definition run_rel (g : CompiledStateGraph) (st st1 : WorkflowState) : Prop :=
  run_state_frame st st1 /\
  (forall x, x ∈ completed_steps st1 -> x ∈ completed_steps st \/ is_Some (nodes g !! x)) /\
  (forall x, x ∈ failed_steps st1 -> x ∈ failed_steps st \/ is_Some (nodes g !! x)).

(** What the run of a graph may have done to the graph: retry counters. *)
Definition graph_rel (g g1 : CompiledStateGraph) : Prop :=
  edges g1 = edges g /\ entry_point g1 = entry_point g /\
  dom (nodes g1) = dom (nodes g) /\ (graph_keyed g -> graph_keyed g1).

#[global] Instance AgentStatus_eq_dec : EqDecision AgentStatus.t.
Proof. solve_decision. Defined.

#[global] Instance agent_ok_dec id a : Decision (agent_ok id a).
Proof. unfold agent_ok. destruct (_is_running a); apply _. Defined.

#[global] Instance orch_wf_dec o : Decision (orch_wf o).
Proof. unfold orch_wf, graph_keyed. apply _. Defined.

Ltac wf_simpl :=
  unfold orch_wf;
  cbn [fst snd workflows workflow_states running_workflows agents agent_types
       set_workflows set_workflow_states set_running_workflows set_agents].

(** ** Sample objects *)

Module Sample.

Definition failing : AgentClass :=
  mkAgentClass None (fun _ _ => inr (Exception "boom")) None.

Definition returning : AgentClass :=
  mkAgentClass None (fun _ _ => inl {[ "out" := VInt 5 ]}) None.

Definition stepA : WorkflowStep :=
  mkStep "A" "compute" "bad" [("in", "x")] [("out", "y")] [] 0 2 300.

Definition stepB : WorkflowStep :=
  mkStep "B" "report" "good" [] [] [] 0 3 300.

(** [stepA] with one retry already counted. *)
Definition stepA_used : WorkflowStep := set_retry_count 1 stepA.

(** A step that requires [y == 5]. *)
Definition stepC : WorkflowStep :=
  mkStep "C" "check" "good" [] [] [("y", VInt 5)] 0 3 300.

Definition e0 : Env := mkEnv 0 [].

Definition with_types : AgentOrchestrator :=
  (register_agent_type e0
     (register_agent_type e0 (AgentOrchestrator_init e0).2 "bad" failing).2
     "good" returning).2.

(** Workflow [w]: [A -> B -> END]. *)
Definition compiled : AgentOrchestrator :=
  (create_workflow e0 with_types "w" "sample" [stepA; stepB]
     [("A", ["B"]); ("B", [])]).1.2.

Definition input : Dict := {[ "x" := VInt 3 ]}.

Definition st0 : WorkflowState :=
  ws_set_context input (new_workflow_state 0 "w" "sample").

(** [w] with a run in flight, ten ticks after the run started. *)
Definition in_flight : AgentOrchestrator :=
  (execute_workflow_start e0 compiled "w" input).1.2.

Definition e10 : Env := advance 10 e0.

Definition agent0 : BaseAgent :=
  (start e0 (BaseAgent_init e0 returning "a0" "worker" [] None).2).1.2.

Definition low : AgentTask :=
  mkAgentTask "t-low" "job" 2 ∅ 0 None [] AgentStatus.IDLE None None.

Definition high : AgentTask :=
  mkAgentTask "t-high" "job" 7 ∅ 0 None [] AgentStatus.IDLE None None.

Definition msg (n : nat) : BaseMessage := mkMessage "human" (pretty n).

Definition burst : list BaseMessage := msg <$> seq 0 120.

End Sample.

(** ** Properties *)

(** *** Agent registry *)

(** C7.  Removing an agent id that is not in the registry raises
    nothing and leaves the orchestrator -- the registry and every
    registered agent with it -- exactly as it was; the only effect is
    one WARNING record in the log. *)
Theorem remove_agent_missing_noop (e : Env) (o : AgentOrchestrator) (id : string) :
  agents o !! id = None ->
  remove_agent e o id = (emit WARNING "agent does not exist" id e, o, inl ()).
Proof.
  intros Hnone. unfold remove_agent. by rewrite Hnone.
Qed.

Lemma remove_agent_missing_noop_witness :
  agents Sample.compiled !! "ghost" = None /\
  remove_agent Sample.e0 Sample.compiled "ghost"
  = (emit WARNING "agent does not exist" "ghost" Sample.e0, Sample.compiled, inl ()).
Proof.
  split; [reflexivity | apply remove_agent_missing_noop; reflexivity].
Defined.

(** *** Cancellation without a run in flight *)

(** C10.  Cancelling a workflow id that has no run in flight, known or
    unknown, raises nothing and leaves the orchestrator, and so every
    run state, exactly as it was; the only effect is one WARNING record
    in the log. *)
Theorem cancel_not_running_noop (e : Env) (o : AgentOrchestrator) (wid : string) :
  running_workflows o !! wid = None ->
  cancel_workflow e o wid = (emit WARNING "workflow not running" wid e, o, inl ()).
Proof.
  intros Hnone. unfold cancel_workflow. by rewrite Hnone.
Qed.

Lemma cancel_not_running_noop_witness :
  running_workflows Sample.compiled !! "w" = None /\
  running_workflows Sample.compiled !! "nope" = None /\
  cancel_workflow Sample.e0 Sample.compiled "w"
  = (emit WARNING "workflow not running" "w" Sample.e0, Sample.compiled, inl ()).
Proof.
  split; [reflexivity |]. split; [reflexivity |].
  apply cancel_not_running_noop; reflexivity.
Defined.

(** *** Short-term memory *)

Lemma last_n_length {A} (n : nat) (xs : list A) :
  (n <= length xs)%nat -> length (last_n n xs) = n.
Proof. intros H. unfold last_n. rewrite length_drop. lia. Qed.

Lemma last_n_suffix {A} (n : nat) (xs : list A) :
  xs = take (length xs - n) xs ++ last_n n xs.
Proof. unfold last_n. by rewrite take_drop. Qed.

Lemma update_memory_short_term e a msgs l ep se :
  short_term (memory (state (update_memory e a (Some msgs) l ep se)))
  = (let ext := short_term (memory (state a)) ++ msgs in
     if (100 <? length ext)%nat then last_n 50 ext else ext).
Proof. reflexivity. Qed.

Lemma update_memory_short_term_none e a l ep se :
  short_term (memory (state (update_memory e a None l ep se)))
  = short_term (memory (state a)).
Proof. reflexivity. Qed.

Lemma update_memory_bound e a s l ep se :
  (length (short_term (memory (state a))) <= 100)%nat ->
  (length (short_term (memory (state (update_memory e a s l ep se)))) <= 100)%nat.
Proof.
  intros Hle. destruct s as [msgs|].
  - rewrite update_memory_short_term. cbv zeta.
    destruct (Nat.ltb_spec 100 (length (short_term (memory (state a)) ++ msgs))) as [Hgt|Hok].
    + rewrite last_n_length; lia.
    + exact Hok.
  - by rewrite update_memory_short_term_none.
Qed.

Lemma memory_updates_bound us : forall a,
  (length (short_term (memory (state a))) <= 100)%nat ->
  (length (short_term (memory (state (memory_updates a us)))) <= 100)%nat.
Proof.
  induction us as [|[[[[e s] l] ep] se] us IH]; intros a Hle; [exact Hle|].
  cbn [memory_updates fold_left]. apply IH. by apply update_memory_bound.
Qed.

(** C8.  After an [update_memory] call that appends messages, the
    short-term buffer holds at most 100 entries: when the extended
    buffer is longer than 100 it is cut down to exactly its 50 most
    recent entries, otherwise it is kept whole.  Hence from a newly
    built agent no sequence of memory updates ever leaves more than 100
    entries in the buffer. *)
Theorem short_term_capped :
  (forall e a msgs l ep se,
     let ext := short_term (memory (state a)) ++ msgs in
     let buf := short_term (memory (state (update_memory e a (Some msgs) l ep se))) in
     (length buf <= 100)%nat /\
     ((100 < length ext)%nat ->
        length buf = 50%nat /\ exists older, ext = older ++ buf) /\
     ((length ext <= 100)%nat -> buf = ext)) /\
  (forall e c id nm caps cfg us,
     (length (short_term (memory (state
        (memory_updates (BaseAgent_init e c id nm caps cfg).2 us)))) <= 100)%nat).
Proof.
  split.
  - intros e a msgs l ep se ext buf. subst buf. rewrite update_memory_short_term.
    fold ext. cbv zeta.
    destruct (Nat.ltb_spec 100 (length ext)) as [Hgt|Hok].
    + split; [rewrite last_n_length; lia|]. split; [|lia].
      intros _. split; [apply last_n_length; lia|].
      eexists. apply last_n_suffix.
    + split; [exact Hok|]. split; [lia | done].
  - intros. apply memory_updates_bound. cbn. lia.
Qed.

Lemma short_term_capped_witness :
  let a := (update_memory Sample.e0 Sample.agent0 (Some Sample.burst) None None None) in
  length (short_term (memory (state a))) = 50%nat /\
  short_term (memory (state a)) = Sample.msg <$> seq 70 50.
Proof.
  cbv zeta. 
  destruct short_term_capped as [H _].
  specialize (H Sample.e0 Sample.agent0 Sample.burst None None None).
  cbv zeta in H. destruct H as (_ & H & _).
  split.
  - apply H. vm_compute. lia.
  - vm_compute. reflexivity.
Defined.

(** *** The task queue *)

Lemma insert_task_perm t q : insert_task t q ≡ₚ t :: q.
Proof.
  induction q as [|u q IH]; [done|]. cbn.
  destruct (priority t <? priority u); [|done].
  rewrite IH. apply Permutation_swap.
Qed.

Lemma sort_by_priority_perm q : sort_by_priority q ≡ₚ q.
Proof.
  induction q as [|t q IH]; [done|]. cbn.
  by rewrite insert_task_perm, IH.
Qed.

Lemma insert_task_sorted t q :
  StronglySorted before_ok q -> StronglySorted before_ok (insert_task t q).
Proof.
  induction 1 as [|u q Hs IH Hall]; cbn; [repeat constructor|].
  destruct (Z.ltb_spec (priority t) (priority u)) as [Hlt|Hge].
  - constructor; [done|]. rewrite insert_task_perm. constructor; [|done].
    unfold before_ok. lia.
  - constructor; [by constructor|]. constructor; [done|].
    eapply Forall_impl; [exact Hall|]. unfold before_ok. intros; lia.
Qed.

Lemma sort_by_priority_sorted q : StronglySorted before_ok (sort_by_priority q).
Proof.
  induction q as [|t q IH]; cbn; [constructor | by apply insert_task_sorted].
Qed.

Lemma insert_task_stable p t q :
  of_priority p (insert_task t q) = of_priority p (t :: q).
Proof.
  unfold of_priority. induction q as [|u q IH]; [done|]. cbn [insert_task].
  destruct (Z.ltb_spec (priority t) (priority u)) as [Hlt|Hge]; [|done].
  rewrite filter_cons, IH, !filter_cons.
  destruct (decide (priority u = p)), (decide (priority t = p)); try done. lia.
Qed.

Lemma sort_by_priority_stable p q :
  of_priority p (sort_by_priority q) = of_priority p q.
Proof.
  induction q as [|t q IH]; [done|]. cbn [sort_by_priority foldr].
  rewrite insert_task_stable. unfold of_priority in *.
  rewrite !filter_cons. change (foldr insert_task [] q) with (sort_by_priority q).
  by rewrite IH.
Qed.

(** Sorting an already sorted queue with one task appended puts the
    task behind every task of its priority or above. *)
Lemma sort_by_priority_sorted_id q :
  StronglySorted before_ok q -> sort_by_priority q = q.
Proof.
  induction 1 as [|u q Hs IH Hall]; [done|]. cbn [sort_by_priority foldr].
  change (foldr insert_task [] q) with (sort_by_priority q). rewrite IH.
  destruct q as [|v q]; [done|]. cbn.
  apply Forall_cons in Hall as [Hv _]. unfold before_ok in Hv.
  destruct (Z.ltb_spec (priority u) (priority v)); [lia | done].
Qed.

Lemma add_task_queue e a t :
  task_queue (state (add_task e a t).2) = sort_by_priority (task_queue (state a) ++ [t]).
Proof. reflexivity. Qed.

Lemma worker_iteration_pop d e a t q :
  _is_running a = true ->
  task_queue (state a) = t :: q ->
  let a' := (worker_iteration d e a).2 in
  _is_running a' = true /\ cls a' = cls a /\
  task_queue (state a') = q /\
  current_task (state a') = None /\
  handled a' = handled a ++ [finished (cls a) (handled a) t].
Proof.
  intros Hrun Hq. unfold worker_iteration, finished. rewrite Hrun, Hq. cbn [negb].
  cbn [cls handled set_state state metrics st_set_current_task st_set_task_queue].
  by destruct (process_task _ _ _).
Qed.

Lemma worker_two_turns d1 d2 e a t1 t2 :
  _is_running a = true ->
  task_queue (state a) = [t1; t2] ->
  let a' := (worker_iterations [d1; d2] e a).2 in
  task_queue (state a') = [] /\
  handled a' = handled a ++ [finished (cls a) (handled a) t1;
                             finished (cls a) (handled a ++ [finished (cls a) (handled a) t1]) t2].
Proof.
  intros Hrun Hq. cbn [worker_iterations].
  destruct (worker_iteration d1 e a) as [e1 a1] eqn:H1.
  pose proof (worker_iteration_pop d1 e a t1 [t2] Hrun Hq) as Hp. rewrite H1 in Hp.
  cbn [snd] in Hp. destruct Hp as (Hrun1 & Hc1 & Hq1 & _ & Hh1).
  destruct (worker_iteration d2 e1 a1) as [e2 a2] eqn:H2.
  pose proof (worker_iteration_pop d2 e1 a1 t2 [] Hrun1 Hq1) as Hp. rewrite H2 in Hp.
  cbn [snd] in Hp. destruct Hp as (_ & _ & Hq2 & _ & Hh2).
  cbn. split; [done|]. rewrite Hh2, Hh1, Hc1, <- app_assoc. reflexivity.
Qed.

(** C4.  Two tasks submitted to an agent that is running with an empty
    queue and no current task: when the first has the higher priority,
    the queue holds it in front whichever of the two was submitted
    first, and the worker loop hands it to the capability first; when
    the priorities are equal, the queue and the worker loop keep the
    order of arrival.  On any queue, [add_task] yields the queue with
    the task added, sorted by descending priority, with the tasks of
    each priority in their order of arrival. *)
Theorem higher_priority_runs_first (e1 e2 e3 : Env) (a : BaseAgent)
    (t1 t2 : AgentTask) (d1 d2 : nat) :
  _is_running a = true ->
  task_queue (state a) = [] ->
  current_task (state a) = None ->
  let first_then_second := (add_task e2 (add_task e1 a t1).2 t2).2 in
  let second_then_first := (add_task e2 (add_task e1 a t2).2 t1).2 in
  let in_order :=
    handled a ++ [finished (cls a) (handled a) t1;
                  finished (cls a) (handled a ++ [finished (cls a) (handled a) t1]) t2] in
  (priority t2 < priority t1 ->
     task_queue (state first_then_second) = [t1; t2] /\
     task_queue (state second_then_first) = [t1; t2] /\
     handled (worker_iterations [d1; d2] e3 first_then_second).2 = in_order /\
     handled (worker_iterations [d1; d2] e3 second_then_first).2 = in_order) /\
  (priority t1 = priority t2 ->
     task_queue (state first_then_second) = [t1; t2] /\
     handled (worker_iterations [d1; d2] e3 first_then_second).2 = in_order) /\
  (forall e b t,
     let q := task_queue (state (add_task e b t).2) in
     q ≡ₚ task_queue (state b) ++ [t] /\
     StronglySorted before_ok q /\
     forall p, of_priority p q = of_priority p (task_queue (state b) ++ [t])).
Proof.
  intros Hrun Hq Hcur first_then_second second_then_first in_order.
  assert (Hq12 : priority t2 <= priority t1 ->
            task_queue (state first_then_second) = [t1; t2]).
  { intros Hle. subst first_then_second. rewrite !add_task_queue, Hq. cbn.
    destruct (Z.ltb_spec (priority t1) (priority t2)); [lia | done]. }
  assert (Hq21 : priority t2 < priority t1 ->
            task_queue (state second_then_first) = [t1; t2]).
  { intros Hlt. subst second_then_first. rewrite !add_task_queue, Hq. cbn.
    destruct (Z.ltb_spec (priority t2) (priority t1)); [done | lia]. }
  assert (Hw : forall b, _is_running b = true -> cls b = cls a -> handled b = handled a ->
            task_queue (state b) = [t1; t2] ->
            handled (worker_iterations [d1; d2] e3 b).2 = in_order).
  { intros b Hb Hc Hh Hqb.
    destruct (worker_two_turns d1 d2 e3 b t1 t2 Hb Hqb) as [_ Hres].
    rewrite Hres, Hc, Hh. reflexivity. }
  split.
  - intros Hlt. split; [apply Hq12; lia|]. split; [by apply Hq21|].
    split; apply Hw; try done; [apply Hq12; lia | by apply Hq21].
  - split.
    + intros Heq. split; [apply Hq12; lia|]. apply Hw; try done. apply Hq12; lia.
    + intros e b t q. subst q. rewrite add_task_queue.
      split; [apply sort_by_priority_perm|].
      split; [apply sort_by_priority_sorted | intros p; apply sort_by_priority_stable].
Qed.

Lemma higher_priority_runs_first_witness :
  task_queue (state (add_task Sample.e0 (add_task Sample.e0 Sample.agent0 Sample.low).2
                       Sample.high).2) = [Sample.high; Sample.low] /\
  task_id <$> handled (worker_iterations [1%nat; 1%nat] Sample.e0
                (add_task Sample.e0 (add_task Sample.e0 Sample.agent0 Sample.low).2
                   Sample.high).2).2 = ["t-high"; "t-low"].
Proof.
  destruct (higher_priority_runs_first Sample.e0 Sample.e0 Sample.e0 Sample.agent0
              Sample.high Sample.low 1 1 eq_refl eq_refl eq_refl) as [Hhi _].
  destruct (Hhi ltac:(cbn; lia)) as (_ & Hq & _ & Hrun).
  split; [exact Hq|]. rewrite Hrun. reflexivity.
Defined.

(** The order is decided among the tasks that are queued when the
    worker loop dequeues: a turn of the loop taken between the two
    submissions runs the task that is there. *)
Example turn_between_submissions :
  let a1 := (add_task Sample.e0 Sample.agent0 Sample.low).2 in
  let a2 := (worker_iteration 1 Sample.e0 a1).2 in
  let a3 := (add_task Sample.e0 a2 Sample.high).2 in
  task_id <$> handled (worker_iteration 1 Sample.e0 a3).2 = ["t-low"; "t-high"].
Proof. reflexivity. Qed.

(** *** Step execution: auxiliary facts *)

Lemma agent_step_rel_refl (x : option BaseAgent) : agent_step_rel x x.
Proof.
  destruct x as [a|]; cbn; [|done].
  repeat split; try done. exists []. by rewrite app_nil_r.
Qed.

Lemma agent_step_rel_trans (x y z : option BaseAgent) :
  agent_step_rel x y -> agent_step_rel y z -> agent_step_rel x z.
Proof.
  destruct x as [a|], y as [b|], z as [c|]; cbn; try done.
  - intros (Hc & Hs & more & Hh & Hu) (Hc' & Hs' & more' & Hh' & Hu').
    repeat split; try congruence.
    exists (more ++ more'). split; [rewrite Hh', Hh; by rewrite app_assoc|].
    by apply Forall_app.
  - intros (Hq & Hcur & Hm & Hu) (Hc' & Hs' & more' & Hh' & Hu').
    rewrite Hs'. repeat split; try done. rewrite Hh'. by apply Forall_app.
Qed.

Lemma orch_step_rel_refl e o : orch_step_rel e e o o.
Proof. repeat split. intros aid. apply agent_step_rel_refl. Qed.

Lemma orch_step_rel_trans e1 e2 e3 o1 o2 o3 :
  orch_step_rel e1 e2 o1 o2 -> orch_step_rel e2 e3 o2 o3 -> orch_step_rel e1 e3 o1 o3.
Proof.
  intros (H1 & H2 & H3 & H4 & H5 & H6) (G1 & G2 & G3 & G4 & G5 & G6).
  repeat split; try congruence.
  intros aid. eapply agent_step_rel_trans; [apply H6 | apply G6].
Qed.

Lemma orch_step_rel_emit_r e e' o o' lv ev subj :
  orch_step_rel e e' o o' -> orch_step_rel e (emit lv ev subj e') o o'.
Proof. intros (H1 & H). by repeat split; try apply H. Qed.

Lemma orch_step_rel_emit_l e e' o o' lv ev subj :
  orch_step_rel (emit lv ev subj e) e' o o' -> orch_step_rel e e' o o'.
Proof. intros (H1 & H). by repeat split; try apply H. Qed.

Lemma create_agent_rel e o id ty nm caps cfg e1 o1 r :
  create_agent e o id ty nm caps cfg = (e1, o1, r) ->
  orch_step_rel e e1 o o1 /\
  (forall x, r = inl x -> x = id /\ is_Some (agents o1 !! id)).
Proof.
  unfold create_agent. intros H.
  destruct (agent_types o !! ty) as [c|]; [|inversion H; subst; split; [apply orch_step_rel_refl | done]].
  destruct (agents o !! id) as [old|] eqn:Hid;
    [inversion H; subst; split; [apply orch_step_rel_refl | done]|].
  unfold BaseAgent_init, start in H. cbn in H.
  destruct (initialize c) as [ex|]; inversion H; subst; clear H.
  - split; [|done]. repeat split. intros aid. cbn.
    destruct (decide (aid = id)) as [->|Hne].
    + rewrite lookup_insert_eq, Hid. cbn. repeat split; constructor.
    + rewrite lookup_insert_ne by done. apply agent_step_rel_refl.
  - split.
    + repeat split. intros aid. cbn.
      destruct (decide (aid = id)) as [->|Hne].
      * rewrite lookup_insert_eq, Hid. cbn. repeat split; constructor.
      * rewrite lookup_insert_ne by done. apply agent_step_rel_refl.
    + intros x [= <-]. split; [done|]. cbn. rewrite lookup_insert_eq. by eexists.
Qed.

Lemma get_or_create_agent_rel e o step e1 o1 r :
  _get_or_create_agent e o (agent_type step) (step_id step) = (e1, o1, r) ->
  orch_step_rel e e1 o o1 /\
  (forall x, r = inl x -> x = step_agent_id step /\ is_Some (agents o1 !! step_agent_id step)).
Proof.
  unfold _get_or_create_agent. fold (step_agent_id step). intros H.
  destruct (agents o !! step_agent_id step) as [a|] eqn:Ha.
  - inversion H; subst. split; [apply orch_step_rel_refl|].
    intros x [= <-]. split; [done|]. by eexists.
  - by apply create_agent_rel in H.
Qed.

Lemma call_process_task_rel e o aid t o1 out :
  untouched t ->
  call_process_task o aid t = (o1, out) ->
  orch_step_rel e e o o1.
Proof.
  unfold call_process_task. intros Hu H.
  destruct (agents o !! aid) as [a|] eqn:Ha; inversion H; subst; clear H;
    [|apply orch_step_rel_refl].
  repeat split. intros x. cbn.
  destruct (decide (x = aid)) as [->|Hne].
  - rewrite lookup_insert_eq, Ha. cbn. repeat split.
    exists [t]. split; [done|]. by constructor.
  - rewrite lookup_insert_ne by done. apply agent_step_rel_refl.
Qed.

Lemma new_task_untouched now id ty p : untouched (new_task now id ty p).
Proof. by repeat split. Qed.

Lemma run_step_body_rel e o step st e1 o1 r :
  run_step_body e o step st = (e1, o1, r) ->
  orch_step_rel e e1 o o1.
Proof.
  unfold run_step_body. intros H.
  destruct (_get_or_create_agent e o (agent_type step) (step_id step)) as [[e' o'] r'] eqn:Hg.
  apply get_or_create_agent_rel in Hg as [Hrel _].
  destruct r' as [aid|ex]; [|by inversion H; subst].
  destruct (call_process_task o' aid _) as [o2 out] eqn:Hc.
  apply (call_process_task_rel e') in Hc; [|apply new_task_untouched].
  pose proof (orch_step_rel_trans _ _ _ _ _ _ Hrel Hc) as Hrel2.
  destruct out as [res|ex]; inversion H; subst; [|done].
  by apply orch_step_rel_emit_r.
Qed.

Lemma run_step_body_state e o step st e1 o1 st1 :
  run_step_body e o step st = (e1, o1, inl st1) -> run_state_frame st st1.
Proof.
  unfold run_step_body. intros H.
  destruct (_get_or_create_agent e o (agent_type step) (step_id step)) as [[e' o'] [aid|ex]];
    [|done].
  destruct (call_process_task o' aid _) as [o2 [res|ex]]; [|done].
  by inversion H; subst.
Qed.

Lemma step_function_rec_rel fuel : forall e o step st e' o' step' st',
  step_function_rec fuel e o step st = Some (e', o', step', st') ->
  orch_step_rel e e' o o' /\ run_state_frame st st'.
Proof.
  induction fuel as [|fuel IH]; intros e o step st e' o' step' st' H; [done|].
  cbn [step_function_rec] in H.
  destruct (negb (_check_conditions _ _)).
  { inversion H; subst. split; [|done].
    do 2 apply orch_step_rel_emit_r. apply orch_step_rel_refl. }
  destruct (run_step_body _ o step _) as [[e2 o2] r] eqn:Hb.
  pose proof (run_step_body_rel _ _ _ _ _ _ _ Hb) as Hrel.
  apply orch_step_rel_emit_l in Hrel.
  destruct r as [st2|ex].
  { apply run_step_body_state in Hb. inversion H; subst. split; [done|].
    destruct Hb as (?&?&?&?&?). by repeat split. }
  destruct (_ <=? _).
  - apply IH in H as [Hrel' Hst]. split.
    + eapply orch_step_rel_trans; [|apply Hrel'].
      by do 2 apply orch_step_rel_emit_r.
    + destruct Hst as (?&?&?&?&?). by repeat split.
  - inversion H; subst. split; [by apply orch_step_rel_emit_r | done].
Qed.

Lemma step_function_rec_total fuel : forall e o step st,
  (Z.to_nat (max_retries step - retry_count step) < fuel)%nat ->
  is_Some (step_function_rec fuel e o step st).
Proof.
  induction fuel as [|fuel IH]; intros e o step st Hf; [lia|].
  cbn [step_function_rec].
  destruct (negb (_check_conditions _ _)); [by eexists|].
  destruct (run_step_body _ o step _) as [[e2 o2] [st2|ex]]; [by eexists|].
  destruct (Z.leb_spec (retry_count (set_retry_count (retry_count step + 1) step))
              (max_retries (set_retry_count (retry_count step + 1) step))) as [Hle|Hgt];
    [|by eexists].
  apply IH. cbn in *. lia.
Qed.

Lemma step_function_total e o step st : is_Some (step_function e o step st).
Proof. apply step_function_rec_total. lia. Qed.

(** *** Retries *)

(** One pass through the [try] body on a step whose agent resolves. *)
Lemma run_step_body_resolved e o step st a :
  resolves_to e o step a ->
  exists e1, clock e1 = clock e /\
  run_step_body e o step st
  = let task := step_task (clock e) step st in
    let o2 := set_agents (<[step_agent_id step := with_handled (handled a ++ [task]) a]>
                            (agents o)) o in
    match process_task (cls a) (handled a) task with
    | inr ex => (e1, o2, inr ex)
    | inl result =>
        (emit INFO "step completed" (step_id step) e1, o2,
         inl (ws_set_completed_steps (completed_steps st ++ [step_id step])
                (ws_set_results (<[step_id step := result]> (results st))
                   (ws_set_context (_process_output (output_mapping step) result ∪ context st)
                      st))))
    end.
Proof.
  intros [Ha | (Hnone & c & Hty & Hinit & ->)].
  - exists e. split; [done|].
    unfold run_step_body, _get_or_create_agent.
    fold (step_agent_id step). rewrite Ha.
    unfold call_process_task. rewrite Ha. fold (step_task (clock e) step st).
    cbv zeta. by destruct (process_task _ _ _).
  - exists (emit INFO "agent created" (step_agent_id step)
              (emit INFO "agent started" (step_agent_id step)
                 (emit INFO "agent initialized" (step_agent_id step) e))).
    split; [done|].
    unfold run_step_body, _get_or_create_agent. cbv zeta.
    fold (step_agent_id step). rewrite Hnone.
    unfold create_agent. rewrite Hty, Hnone.
    unfold BaseAgent_init, start. cbn [_is_running negb cls]. rewrite Hinit.
    unfold call_process_task. cbn [agents set_agents].
    rewrite lookup_insert_eq. cbn [clock emit].
    fold (step_task (clock e) step st).
    unfold set_agents. cbn. rewrite insert_insert_eq.
    destruct (process_task _ _ _); reflexivity.
Qed.

Lemma resolves_to_emit lv ev subj e o step a :
  resolves_to e o step a -> resolves_to (emit lv ev subj e) o step a.
Proof. done. Qed.

Lemma attempts_nat (mx rc : Z) :
  rc + 1 <= mx ->
  Z.to_nat (mx - rc) = S (Z.to_nat (mx - (rc + 1))).
Proof. lia. Qed.

Lemma set_retry_count_add_0 step : set_retry_count (retry_count step + Z.of_nat 0) step = step.
Proof. destruct step. unfold set_retry_count. cbn. f_equal. lia. Qed.

(** A step whose capability fails on each of its [k] attempts. *)
Lemma step_gives_up fuel : forall e o step st a,
  let task := step_task (clock e) step st in
  let k := S (Z.to_nat (max_retries step - retry_count step)) in
  resolves_to e o step a ->
  _check_conditions (conditions step) (context st) = true ->
  (k <= fuel)%nat ->
  (forall i, (i < k)%nat ->
     exists ex, process_task (cls a) (handled a ++ replicate i task) task = inr ex) ->
  exists e' ex,
    step_function_rec fuel e o step st
    = Some (e',
            set_agents (<[step_agent_id step := with_handled (handled a ++ replicate k task) a]>
                          (agents o)) o,
            set_retry_count (retry_count step + Z.of_nat k) step,
            gave_up ex step st) /\
    process_task (cls a) (handled a ++ replicate (k - 1) task) task = inr ex /\
    clock e' = clock e.
Proof.
  induction fuel as [|fuel IH]; intros e o step st a task k Ha Hc Hk Hfail; [lia|].
  cbn [step_function_rec]. cbn [context ws_set_current_step]. rewrite Hc. cbn [negb].
  destruct (run_step_body_resolved (emit INFO "step started" (step_id step) e) o step
              (ws_set_current_step (Some (step_id step)) st) a
              (resolves_to_emit _ _ _ _ _ _ _ Ha)) as (e1 & Hclk1 & ->).
  cbv zeta. cbn [clock emit] in Hclk1 |- *.
  change (step_task _ step (ws_set_current_step _ st)) with task.
  destruct (Hfail 0%nat ltac:(lia)) as [ex0 Hex0].
  cbn [replicate] in Hex0. rewrite app_nil_r in Hex0. rewrite Hex0.
  destruct (Z.leb_spec (retry_count (set_retry_count (retry_count step + 1) step))
              (max_retries (set_retry_count (retry_count step + 1) step))) as [Hle|Hgt];
    cbn [retry_count max_retries set_retry_count] in *.
  - set (a2 := with_handled (handled a ++ [task]) a).
    set (o2 := set_agents (<[step_agent_id step := a2]> (agents o)) o).
    set (step2 := set_retry_count (retry_count step + 1) step).
    set (st1 := ws_set_current_step (Some (step_id step)) st).
    set (e2 := emit INFO "step retry" _ _).
    assert (Hclk2 : clock e2 = clock e) by (subst e2; cbn; exact Hclk1).
    assert (Htask : step_task (clock e2) step2 st1 = task) by (by rewrite Hclk2).
    destruct (IH e2 o2 step2 st1 a2) as (e' & ex & Heq & Hlast & Hclk).
    + left. subst o2. cbn. apply lookup_insert_eq.
    + exact Hc.
    + cbn [retry_count max_retries step2 set_retry_count]. lia.
    + intros i Hi. cbn [retry_count max_retries step2 set_retry_count] in Hi.
      destruct (Hfail (S i) ltac:(lia)) as [ex Hex]. exists ex.
      rewrite Htask. cbn [handled a2 with_handled]. rewrite <- app_assoc. exact Hex.
    + exists e', ex. rewrite Htask in Heq, Hlast. split; [|split].
      * rewrite Heq.
        change (gave_up ex step2 st1) with (gave_up ex step st).
        change (step_agent_id step2) with (step_agent_id step).
        assert (Ho : set_agents
                       (<[step_agent_id step :=
                            with_handled (handled a2 ++ replicate
                              (S (Z.to_nat (max_retries step2 - retry_count step2))) task) a2]>
                          (agents o2)) o2
                     = set_agents
                         (<[step_agent_id step :=
                              with_handled (handled a ++ replicate k task) a]> (agents o)) o).
        { subst o2 a2. unfold set_agents, with_handled. cbn.
          rewrite insert_insert_eq, <- app_assoc.
          subst k. rewrite (attempts_nat _ _ Hle). reflexivity. }
        assert (Hs : set_retry_count
                       (retry_count step2 +
                        Z.of_nat (S (Z.to_nat (max_retries step2 - retry_count step2)))) step2
                     = set_retry_count (retry_count step + Z.of_nat k) step).
        { unfold step2, set_retry_count. cbn. f_equal. subst k. lia. }
        by rewrite Ho, Hs.
      * cbn [retry_count max_retries step2 set_retry_count handled a2 with_handled] in Hlast.
        rewrite <- app_assoc in Hlast. subst k. rewrite (attempts_nat _ _ Hle).
        replace (S (S (Z.to_nat (max_retries step - (retry_count step + 1)))) - 1)%nat
          with (S (Z.to_nat (max_retries step - (retry_count step + 1)))) by lia.
        replace (S (Z.to_nat (max_retries step - (retry_count step + 1))) - 1)%nat
          with (Z.to_nat (max_retries step - (retry_count step + 1))) in Hlast by lia.
        exact Hlast.
      * by rewrite Hclk.
  - assert (Hk1 : k = 1%nat) by (subst k; lia).
    exists (emit ERROR "step failed" (step_id step) e1), ex0.
    split; [|split].
    + rewrite Hk1. reflexivity.
    + rewrite Hk1. cbn. by rewrite app_nil_r.
    + exact Hclk1.
Qed.

(** A step whose capability fails [j] times, with [j] within the
    budget, and then returns. *)
Lemma step_goes_through fuel : forall e o step st a j result,
  let task := step_task (clock e) step st in
  resolves_to e o step a ->
  _check_conditions (conditions step) (context st) = true ->
  (j <= Z.to_nat (max_retries step - retry_count step))%nat ->
  (j < fuel)%nat ->
  (forall i, (i < j)%nat ->
     exists ex, process_task (cls a) (handled a ++ replicate i task) task = inr ex) ->
  process_task (cls a) (handled a ++ replicate j task) task = inl result ->
  exists e',
    step_function_rec fuel e o step st
    = Some (e',
            set_agents (<[step_agent_id step :=
                            with_handled (handled a ++ replicate (S j) task) a]>
                          (agents o)) o,
            set_retry_count (retry_count step + Z.of_nat j) step,
            went_through result step st) /\
    clock e' = clock e.
Proof.
  induction fuel as [|fuel IH]; intros e o step st a j result task Ha Hc Hj Hf Hfail Hok; [lia|].
  cbn [step_function_rec]. cbn [context ws_set_current_step]. rewrite Hc. cbn [negb].
  destruct (run_step_body_resolved (emit INFO "step started" (step_id step) e) o step
              (ws_set_current_step (Some (step_id step)) st) a
              (resolves_to_emit _ _ _ _ _ _ _ Ha)) as (e1 & Hclk1 & ->).
  cbv zeta. cbn [clock emit] in Hclk1 |- *.
  change (step_task _ step (ws_set_current_step _ st)) with task.
  destruct j as [|j].
  - cbn [replicate] in Hok. rewrite app_nil_r in Hok. rewrite Hok.
    eexists. split; [rewrite set_retry_count_add_0; reflexivity | exact Hclk1].
  - destruct (Hfail 0%nat ltac:(lia)) as [ex0 Hex0].
    cbn [replicate] in Hex0. rewrite app_nil_r in Hex0. rewrite Hex0.
    destruct (Z.leb_spec (retry_count (set_retry_count (retry_count step + 1) step))
                (max_retries (set_retry_count (retry_count step + 1) step))) as [Hle|Hgt];
      cbn [retry_count max_retries set_retry_count] in *; [|lia].
    set (a2 := with_handled (handled a ++ [task]) a).
    set (o2 := set_agents (<[step_agent_id step := a2]> (agents o)) o).
    set (step2 := set_retry_count (retry_count step + 1) step).
    set (st1 := ws_set_current_step (Some (step_id step)) st).
    set (e2 := emit INFO "step retry" _ _).
    assert (Hclk2 : clock e2 = clock e) by (subst e2; cbn; exact Hclk1).
    assert (Htask : step_task (clock e2) step2 st1 = task) by (by rewrite Hclk2).
    destruct (IH e2 o2 step2 st1 a2 j result) as (e' & Heq & Hclk).
    + left. subst o2. cbn. apply lookup_insert_eq.
    + exact Hc.
    + cbn [retry_count max_retries step2 set_retry_count]. lia.
    + lia.
    + intros i Hi. destruct (Hfail (S i) ltac:(lia)) as [ex Hex]. exists ex.
      rewrite Htask. cbn [handled a2 with_handled]. rewrite <- app_assoc. exact Hex.
    + rewrite Htask. cbn [handled a2 with_handled]. rewrite <- app_assoc. exact Hok.
    + exists e'. rewrite Htask in Heq. split; [|by rewrite Hclk].
      rewrite Heq.
      change (went_through result step2 st1) with (went_through result step st).
      change (step_agent_id step2) with (step_agent_id step).
      assert (Ho : set_agents
                     (<[step_agent_id step :=
                          with_handled (handled a2 ++ replicate (S j) task) a2]>
                        (agents o2)) o2
                   = set_agents
                       (<[step_agent_id step :=
                            with_handled (handled a ++ replicate (S (S j)) task) a]>
                          (agents o)) o).
      { subst o2 a2. unfold set_agents, with_handled. cbn.
        rewrite insert_insert_eq, <- app_assoc. reflexivity. }
      assert (Hs : set_retry_count (retry_count step2 + Z.of_nat j) step2
                   = set_retry_count (retry_count step + Z.of_nat (S j)) step).
      { unfold step2, set_retry_count. cbn. f_equal. lia. }
      by rewrite Ho, Hs.
Qed.

Lemma conditions_hold_unmet conds ctx :
  condition_unmet conds ctx -> conditions_hold conds ctx = false.
Proof.
  intros (key & expected & Hin & Hbad).
  induction conds as [|[k v] rest IH]; [by apply elem_of_nil in Hin|].
  cbn [conditions_hold]. apply elem_of_cons in Hin as [[= <- <-]|Hin].
  - destruct Hbad as [-> | (x & -> & ->)]; reflexivity.
  - destruct (ctx !! k) as [x|]; [|done].
    destruct (py_ne x v); [done|]. by apply IH.
Qed.

Lemma check_conditions_unmet conds ctx :
  condition_unmet conds ctx -> _check_conditions conds ctx = false.
Proof.
  intros H. pose proof (conditions_hold_unmet _ _ H) as Hc.
  destruct conds as [|c rest]; [|exact Hc].
  destruct H as (k & v & Hin & _). by apply elem_of_nil in Hin.
Qed.

(** The first attempt of a step that is not skipped calls the
    capability of the agent the step resolves to. *)
Lemma step_function_rec_first_call fuel e o step st a e' o' step' st' :
  resolves_to e o step a ->
  _check_conditions (conditions step) (context st) = true ->
  step_function_rec (S fuel) e o step st = Some (e', o', step', st') ->
  exists a', agents o' !! step_agent_id step = Some a' /\
    exists more, handled a' = handled a ++ step_task (clock e) step st :: more.
Proof.
  intros Ha Hc. cbn [step_function_rec]. cbn [context ws_set_current_step].
  rewrite Hc. cbn [negb].
  destruct (run_step_body_resolved (emit INFO "step started" (step_id step) e) o step
              (ws_set_current_step (Some (step_id step)) st) a
              (resolves_to_emit _ _ _ _ _ _ _ Ha)) as (e1 & Hclk1 & ->).
  cbv zeta. cbn [clock emit].
  change (step_task _ step (ws_set_current_step _ st)) with (step_task (clock e) step st).
  set (task := step_task (clock e) step st).
  set (o2 := set_agents _ o).
  assert (Ho2 : agents o2 !! step_agent_id step = Some (with_handled (handled a ++ [task]) a))
    by (subst o2; cbn; apply lookup_insert_eq).
  assert (Hdone : exists a', agents o2 !! step_agent_id step = Some a' /\
            exists more, handled a' = handled a ++ task :: more).
  { eexists. split; [exact Ho2|]. exists []. reflexivity. }
  destruct (process_task _ _ _) as [res|ex]; [by intros [= <- <- <- <-]|].
  destruct (_ <=? _); [|by intros [= <- <- <- <-]].
  intros Hrec. apply step_function_rec_rel in Hrec as [(_ & _ & _ & _ & _ & Hag) _].
  specialize (Hag (step_agent_id step)). rewrite Ho2 in Hag.
  destruct (agents o' !! step_agent_id step) as [a'|]; [|done].
  destruct Hag as (_ & _ & more & Hh & _).
  exists a'. split; [done|]. exists more. rewrite Hh. cbn. by rewrite <- app_assoc.
Qed.

(** C3.  A step whose condition set has a key that the run context
    lacks, or binds to a value that [!=] tells apart from the expected
    one, is skipped: its id is appended to the completed steps, the
    orchestrator -- hence every agent and every capability call log --
    is left as it was, and so are the context and the result store.  A
    step with an empty condition set passes the check and, when its
    agent resolves, calls that agent's capability. *)
Theorem unmet_condition_skips_step (e : Env) (o : AgentOrchestrator)
    (step : WorkflowStep) (st : WorkflowState) :
  (condition_unmet (conditions step) (context st) ->
   exists e' st',
     step_function e o step st = Some (e', o, step, st') /\
     completed_steps st' = completed_steps st ++ [step_id step] /\
     context st' = context st /\
     results st' = results st /\
     failed_steps st' = failed_steps st /\
     status st' = status st) /\
  (conditions step = [] ->
   _check_conditions (conditions step) (context st) = true /\
   forall a, resolves_to e o step a ->
     exists e' o' step' st' a',
       step_function e o step st = Some (e', o', step', st') /\
       agents o' !! step_agent_id step = Some a' /\
       exists more, handled a' = handled a ++ step_task (clock e) step st :: more).
Proof.
  split.
  - intros Hun. apply check_conditions_unmet in Hun.
    unfold step_function. cbn [step_function_rec]. cbn [context ws_set_current_step].
    rewrite Hun. cbn [negb]. eexists _, _. split; [reflexivity|]. by repeat split.
  - intros Hnil. assert (Hc : _check_conditions (conditions step) (context st) = true)
      by (by rewrite Hnil).
    split; [exact Hc|]. intros a Ha.
    destruct (step_function_total e o step st) as [[[[e' o'] step'] st'] Heq].
    exists e', o', step', st'.
    unfold step_function in Heq.
    destruct (step_function_rec_first_call _ _ _ _ _ _ _ _ _ _ Ha Hc Heq) as (a' & Ha' & Hm).
    exists a'. by repeat split.
Qed.

Lemma unmet_condition_skips_step_witness :
  condition_unmet (conditions Sample.stepC) (context Sample.st0) /\
  (exists e' st',
     step_function Sample.e0 Sample.with_types Sample.stepC Sample.st0
     = Some (e', Sample.with_types, Sample.stepC, st') /\
     completed_steps st' = ["C"] /\ context st' = Sample.input) /\
  conditions Sample.stepB = [] /\
  (exists e' o' step' st' a',
     step_function Sample.e0 Sample.with_types Sample.stepB Sample.st0
     = Some (e', o', step', st') /\
     agents o' !! "good_B" = Some a' /\
     exists more, handled a' = step_task 0 Sample.stepB Sample.st0 :: more).
Proof.
  assert (Hun : condition_unmet (conditions Sample.stepC) (context Sample.st0)).
  { exists "y", (VInt 5). split; [apply elem_of_cons; by left|]. left. reflexivity. }
  split; [exact Hun|]. split.
  - destruct (unmet_condition_skips_step Sample.e0 Sample.with_types Sample.stepC Sample.st0)
      as [Hskip _].
    destruct (Hskip Hun) as (e' & st' & Heq & Hc & Hctx & _).
    exists e', st'. repeat split; assumption.
  - split; [reflexivity|].
    destruct (unmet_condition_skips_step Sample.e0 Sample.with_types Sample.stepB Sample.st0)
      as [_ Hrun].
    destruct (Hrun eq_refl) as [_ Hcall].
    apply (Hcall (started_agent 0 Sample.returning "good_B" "good for B")).
    right. split; [reflexivity|]. exists Sample.returning. by repeat split.
Defined.

(** C2, amended.  A step that starts with its retry counter at 0 and a
    budget [max_retries >= 0], and whose capability fails on every
    attempt, has its capability called exactly [max_retries + 1] times,
    every time on the task built from the (unchanged) run context; the
    last of these failures is the one recorded: the step id joins the
    failed steps, the status becomes FAILED and the error is that
    failure's message.  If instead the capability returns after
    [j <= max_retries] failures, the step goes through and the run is
    not failed by it. *)
Theorem retry_budget_attempts (e : Env) (o : AgentOrchestrator) (step : WorkflowStep)
    (st : WorkflowState) (a : BaseAgent) :
  let task := step_task (clock e) step st in
  let aid := step_agent_id step in
  resolves_to e o step a ->
  _check_conditions (conditions step) (context st) = true ->
  retry_count step = 0 ->
  0 <= max_retries step ->
  ((forall i, (i < Z.to_nat (max_retries step + 1))%nat ->
      exists ex, process_task (cls a) (handled a ++ replicate i task) task = inr ex) ->
   exists e' o' step' a' ex,
     step_function e o step st = Some (e', o', step', gave_up ex step st) /\
     agents o' !! aid = Some a' /\
     handled a' = handled a ++ replicate (Z.to_nat (max_retries step + 1)) task /\
     process_task (cls a) (handled a ++ replicate (Z.to_nat (max_retries step)) task) task
       = inr ex /\
     retry_count step' = max_retries step + 1 /\
     status (gave_up ex step st) = WorkflowStatus.FAILED /\
     failed_steps (gave_up ex step st) = failed_steps st ++ [step_id step] /\
     error (gave_up ex step st) = Some (str_exn ex) /\
     context (gave_up ex step st) = context st) /\
  (forall j result,
     (j <= Z.to_nat (max_retries step))%nat ->
     (forall i, (i < j)%nat ->
        exists ex, process_task (cls a) (handled a ++ replicate i task) task = inr ex) ->
     process_task (cls a) (handled a ++ replicate j task) task = inl result ->
     exists e' o' step' a',
       step_function e o step st = Some (e', o', step', went_through result step st) /\
       agents o' !! aid = Some a' /\
       handled a' = handled a ++ replicate (S j) task /\
       status (went_through result step st) = status st /\
       failed_steps (went_through result step st) = failed_steps st).
Proof.
  intros task aid Ha Hc Hrc Hmax. split.
  - intros Hfail.
    destruct (step_gives_up (S (Z.to_nat (max_retries step - retry_count step)))
                e o step st a Ha Hc ltac:(lia)) as (e' & ex & Heq & Hlast & _).
    { intros i Hi. apply Hfail. rewrite Hrc in Hi. lia. }
    rewrite Hrc, Z.sub_0_r in Heq, Hlast.
    replace (S (Z.to_nat (max_retries step))) with (Z.to_nat (max_retries step + 1))
      in Heq by lia.
    replace (S (Z.to_nat (max_retries step)) - 1)%nat with (Z.to_nat (max_retries step))
      in Hlast by lia.
    eexists e', _, _, _, ex. split; [|split; [|split; [|split; [|split]]]].
    + unfold step_function. rewrite Hrc, Z.sub_0_r.
      replace (S (Z.to_nat (max_retries step))) with (Z.to_nat (max_retries step + 1))
        by lia.
      exact Heq.
    + cbn. apply lookup_insert_eq.
    + reflexivity.
    + exact Hlast.
    + cbn. lia.
    + by repeat split.
  - intros j result Hj Hfail Hok.
    destruct (step_goes_through (S (Z.to_nat (max_retries step - retry_count step)))
                e o step st a j result Ha Hc) as (e' & Heq & _).
    + rewrite Hrc, Z.sub_0_r. exact Hj.
    + rewrite Hrc, Z.sub_0_r. lia.
    + exact Hfail.
    + exact Hok.
    + eexists e', _, _, _. split; [exact Heq|]. split; [cbn; apply lookup_insert_eq|].
      by repeat split.
Qed.

Lemma retry_budget_attempts_witness :
  exists e' o' step' a' ex,
    step_function Sample.e0 Sample.with_types Sample.stepA Sample.st0
    = Some (e', o', step', gave_up ex Sample.stepA Sample.st0) /\
    agents o' !! "bad_A" = Some a' /\
    length (handled a') = 3%nat /\
    retry_count step' = 3.
Proof.
  pose (a := started_agent 0 Sample.failing "bad_A" "bad for A").
  assert (Ha : resolves_to Sample.e0 Sample.with_types Sample.stepA a).
  { right. split; [reflexivity|]. exists Sample.failing. by repeat split. }
  destruct (retry_budget_attempts Sample.e0 Sample.with_types Sample.stepA Sample.st0 a
              Ha eq_refl eq_refl ltac:(cbn; lia)) as [Hgive _].
  destruct Hgive as (e' & o' & step' & a' & ex & Heq & Hag & Hh & _ & Hrc & _).
  { intros i _. exists (Exception "boom"). reflexivity. }
  exists e', o', step', a', ex. split; [exact Heq|]. split; [exact Hag|].
  split; [rewrite Hh; reflexivity | exact Hrc].
Defined.

(** The count of C2 does not hold of every step: [stepA_used], entered
    with its retry counter at 1 and [max_retries = 2], has its failing
    capability called twice, not three times. *)
Lemma budget_ignores_counter_fails :
  (exists e' o' step' st' a',
     step_function Sample.e0 Sample.with_types Sample.stepA_used Sample.st0
     = Some (e', o', step', st') /\
     agents o' !! "bad_A" = Some a' /\
     length (handled a') = 2%nat /\
     Z.to_nat (max_retries Sample.stepA_used + 1) = 3%nat /\
     status st' = WorkflowStatus.FAILED) /\
  ~ budget_ignores_counter.
Proof.
  split.
  - vm_compute. eexists _, _, _, _, _. split; [reflexivity|]. by repeat split.
  - intros H.
    pose (a := started_agent 0 Sample.failing "bad_A" "bad for A").
    destruct (H Sample.e0 Sample.with_types Sample.stepA_used Sample.st0 a)
      as (e' & o' & step' & st' & a' & Heq & Hag & Hlen).
    + right. split; [reflexivity|]. exists Sample.failing. by repeat split.
    + reflexivity.
    + intros h t. by exists (Exception "boom").
    + vm_compute in Heq. injection Heq as <- <- <- <-.
      vm_compute in Hag. injection Hag as <-.
      vm_compute in Hlen. discriminate.
Qed.

(** The retry counter lives on the step object inside the compiled
    graph and [execute_workflow] does not reset it: a second run of the
    sample workflow reaches [A] with the counter at 3 and calls its
    capability once. *)
Example second_run_calls_once :
  let first := execute_workflow Sample.e0 Sample.compiled "w" Sample.input in
  let second := execute_workflow first.1.1 first.1.2 "w" Sample.input in
  (length ∘ handled) <$> agents first.1.2 !! "bad_A" = Some 3%nat /\
  (length ∘ handled) <$> agents second.1.2 !! "bad_A" = Some 4%nat.
Proof. vm_compute. by split. Qed.

(** *** The step path and the agent's own queue *)

Lemma run_steps_rel l : forall e o,
  exists e' o', run_steps l e o = Some (e', o') /\ orch_step_rel e e' o o'.
Proof.
  induction l as [|[step st] l IH]; intros e o.
  - exists e, o. split; [done | apply orch_step_rel_refl].
  - cbn [run_steps].
    destruct (step_function_total e o step st) as [[[[e1 o1] step1] st1] Heq].
    rewrite Heq. apply step_function_rec_rel in Heq as [Hrel _].
    destruct (IH e1 o1) as (e' & o' & Hrun & Hrel').
    exists e', o'. split; [done|]. by eapply orch_step_rel_trans.
Qed.

(** C9.  Step executions, however many, never go through an agent's
    queue or metrics: an agent that was registered keeps its whole
    [state], so its task queue, its current task and its metrics are
    as they were, and every task object the step path handed to its
    capability still has status IDLE, no result and no error; an agent
    created on the way has an empty queue, no current task and the
    initial metrics. *)
Theorem step_path_bypasses_queue (l : list (WorkflowStep * WorkflowState))
    (e : Env) (o : AgentOrchestrator) :
  exists e' o',
    run_steps l e o = Some (e', o') /\
    (forall aid a, agents o !! aid = Some a ->
       exists a', agents o' !! aid = Some a' /\
         state a' = state a /\
         task_queue (state a') = task_queue (state a) /\
         current_task (state a') = current_task (state a) /\
         metrics (state a') = metrics (state a) /\
         exists more, handled a' = handled a ++ more /\ Forall untouched more) /\
    (forall aid a', agents o !! aid = None -> agents o' !! aid = Some a' ->
       task_queue (state a') = [] /\
       current_task (state a') = None /\
       metrics (state a') = initial_metrics /\
       Forall untouched (handled a')).
Proof.
  destruct (run_steps_rel l e o) as (e' & o' & Hrun & (_ & _ & _ & _ & _ & Hag)).
  exists e', o'. split; [exact Hrun|]. split.
  - intros aid a Ha. specialize (Hag aid). rewrite Ha in Hag.
    destruct (agents o' !! aid) as [a'|]; [|done].
    destruct Hag as (_ & Hs & Hh). exists a'. rewrite Hs. by repeat split.
  - intros aid a' Hnone Ha'. specialize (Hag aid). by rewrite Hnone, Ha' in Hag.
Qed.

Lemma step_path_bypasses_queue_witness :
  exists e' o' a',
    run_steps [(Sample.stepA, Sample.st0); (Sample.stepB, Sample.st0);
               (Sample.stepA_used, Sample.st0)] Sample.e0 Sample.with_types
    = Some (e', o') /\
    agents o' !! "bad_A" = Some a' /\
    task_queue (state a') = [] /\
    metrics (state a') = initial_metrics /\
    Forall untouched (handled a').
Proof.
  destruct (step_path_bypasses_queue
              [(Sample.stepA, Sample.st0); (Sample.stepB, Sample.st0);
               (Sample.stepA_used, Sample.st0)] Sample.e0 Sample.with_types)
    as (e' & o' & Hrun & _ & Hnew).
  pose proof Hrun as Hrun'. vm_compute in Hrun'. injection Hrun' as _ Ho.
  assert (Ha : is_Some (agents o' !! "bad_A")) by (rewrite <- Ho; by eexists).
  destruct Ha as [a' Ha]. exists e', o', a'. split; [exact Hrun|]. split; [exact Ha|].
  destruct (Hnew "bad_A" a' eq_refl Ha) as (Hq & _ & Hm & Hu). by repeat split.
Defined.

(** By contrast, a worker-loop turn on a queued task takes it off the
    queue, counts it in the metrics and leaves it in a terminal status. *)
Lemma worker_iteration_accounts d e a t q :
  _is_running a = true ->
  task_queue (state a) = t :: q ->
  let a' := (worker_iteration d e a).2 in
  task_queue (state a') = q /\
  tasks_completed (metrics (state a')) + tasks_failed (metrics (state a'))
    = tasks_completed (metrics (state a)) + tasks_failed (metrics (state a)) + 1 /\
  exists t', handled a' = handled a ++ [t'] /\ task_id t' = task_id t /\
    (task_status t' = AgentStatus.COMPLETED \/ task_status t' = AgentStatus.FAILED).
Proof.
  intros Hrun Hq. unfold worker_iteration. rewrite Hrun, Hq. cbn [negb].
  cbn [cls handled set_state state metrics st_set_current_task st_set_task_queue].
  destruct (process_task _ _ _) as [r|ex]; cbn -[Qcplus Qcdiv Q2Qc];
    unfold _update_metrics;
    destruct (0 <? _); cbn -[Qcplus Qcdiv Q2Qc];
    (split; [done|]; split; [lia|]; eexists; split; [done|]; split; [done|]; auto).
Qed.

(** C1.  The run of [A -> B -> END] where the capability of [A] fails
    on every attempt with [max_retries = 2]: [A] is called three times,
    yet the graph advances and the capability of [B] is called.  What
    the nodes record stays with the graph library: the run state that
    [execute_workflow] stores and returns has no failed step, no
    completed step and not the error of [A]; it is FAILED on the
    [AttributeError] that the [try] tail raises on the [dict] returned
    by [ainvoke]. *)
Theorem exhausted_step_does_not_stop_run :
  let r := execute_workflow Sample.e0 Sample.compiled "w" Sample.input in
  (length ∘ handled) <$> agents r.1.2 !! "bad_A" = Some 3%nat /\
  (length ∘ handled) <$> agents r.1.2 !! "good_B" = Some 1%nat /\
  exists st,
    r.2 = inl st /\
    workflow_states r.1.2 !! "w" = Some st /\
    failed_steps st = [] /\
    completed_steps st = [] /\
    status st = WorkflowStatus.FAILED /\
    error st = Some "'dict' object has no attribute 'status'".
Proof.
  vm_compute. split; [done|]. split; [done|].
  eexists. split; [reflexivity|]. by repeat split.
Qed.

(** *** Runs in flight *)

Lemma in_flight_ok_spec e o wid :
  in_flight_ok e o wid = true <->
  is_Some (workflows o !! wid) /\
  exists st t0, workflow_states o !! wid = Some st /\ started_at st = Some t0 /\
    t0 <= clock e.
Proof.
  unfold in_flight_ok. split.
  - destruct (workflows o !! wid) as [g|]; [|done].
    destruct (workflow_states o !! wid) as [st|]; [|done].
    destruct (started_at st) as [t0|] eqn:Ht; [|done].
    intros H%Z.leb_le. split; [by eexists|]. by exists st, t0.
  - intros [[g ->] (st & t0 & -> & -> & Hle)]. by apply Z.leb_le.
Qed.

(** [in_flight_ok] looks at the clock, the compiled graphs and the run
    states only. *)
Lemma in_flight_ok_ext e e' o o' wid :
  clock e <= clock e' ->
  is_Some (workflows o !! wid) -> is_Some (workflows o' !! wid) ->
  (started_at <$> workflow_states o' !! wid) = (started_at <$> workflow_states o !! wid) ->
  in_flight_ok e o wid = true -> in_flight_ok e' o' wid = true.
Proof.
  intros Hclk _ Hw Hst. rewrite !in_flight_ok_spec.
  intros [_ (st & t0 & Hs & Ht & Hle)]. split; [done|].
  rewrite Hs in Hst. cbn in Hst.
  destruct (workflow_states o' !! wid) as [st'|]; [|done].
  injection Hst as Hst. exists st', t0. split; [done|]. split; [congruence | lia].
Qed.

Lemma orch_inv_same e e' o o' :
  clock e <= clock e' ->
  workflows o' = workflows o ->
  workflow_states o' = workflow_states o ->
  running_workflows o' = running_workflows o ->
  orch_inv e o -> orch_inv e' o'.
Proof.
  unfold orch_inv. intros Hclk Hw Hs Hr Hinv wid h Hwid. rewrite Hr in Hwid.
  specialize (Hinv wid h Hwid). cbn in Hinv.
  pose proof (proj1 (in_flight_ok_spec _ _ _) Hinv) as [Hg _].
  eapply in_flight_ok_ext; [exact Hclk | exact Hg | by rewrite Hw | by rewrite Hs | exact Hinv].
Qed.

Lemma orch_inv_step_rel e e' o o' :
  orch_step_rel e e' o o' -> orch_inv e o -> orch_inv e' o'.
Proof.
  intros (Hc & _ & Hw & Hs & Hr & _). apply orch_inv_same; try done. lia.
Qed.

Lemma orch_inv_init e : orch_inv (AgentOrchestrator_init e).1 (AgentOrchestrator_init e).2.
Proof. unfold orch_inv. cbn. apply map_Forall_empty. Qed.

Lemma orch_inv_advance d e o : orch_inv e o -> orch_inv (advance d e) o.
Proof. apply orch_inv_same; try done. cbn. lia. Qed.

Lemma orch_inv_register e o ty c :
  orch_inv e o -> orch_inv (register_agent_type e o ty c).1 (register_agent_type e o ty c).2.
Proof. by apply orch_inv_same. Qed.

Lemma orch_inv_create_agent e o id ty nm caps cfg :
  orch_inv e o ->
  orch_inv (create_agent e o id ty nm caps cfg).1.1 (create_agent e o id ty nm caps cfg).1.2.
Proof.
  destruct (create_agent e o id ty nm caps cfg) as [[e1 o1] r] eqn:H.
  apply create_agent_rel in H as [Hrel _]. by apply orch_inv_step_rel.
Qed.

Lemma orch_inv_remove_agent e o id :
  orch_inv e o -> orch_inv (remove_agent e o id).1.1 (remove_agent e o id).1.2.
Proof.
  unfold remove_agent. destruct (agents o !! id) as [a|]; [|by apply orch_inv_same].
  unfold stop. destruct (negb (_is_running a)); [by apply orch_inv_same|].
  destruct (cleanup (cls a)); by apply orch_inv_same.
Qed.

Lemma orch_inv_create_workflow e o wid nm steps conns :
  orch_inv e o ->
  orch_inv (create_workflow e o wid nm steps conns).1.1
           (create_workflow e o wid nm steps conns).1.2.
Proof.
  unfold create_workflow. intros Hinv.
  destruct (workflows o !! wid) as [g|] eqn:Hg; [done|].
  destruct (graph_compiles steps conns); [|done].
  cbn. intros w h Hw. cbn in Hw. specialize (Hinv w h Hw). cbn in Hinv |- *.
  pose proof (proj1 (in_flight_ok_spec _ _ _) Hinv) as [Hsome _].
  assert (w <> wid) as Hne by (intros ->; rewrite Hg in Hsome; by destruct Hsome).
  eapply in_flight_ok_ext; [| exact Hsome | | | exact Hinv]; cbn.
  - lia.
  - by rewrite lookup_insert_ne.
  - by rewrite lookup_insert_ne.
Qed.

Lemma orch_inv_start e o wid input :
  orch_inv e o ->
  orch_inv (execute_workflow_start e o wid input).1.1
           (execute_workflow_start e o wid input).1.2.
Proof.
  unfold execute_workflow_start. intros Hinv.
  destruct (workflows o !! wid) as [g|] eqn:Hg; [|done].
  destruct (running_workflows o !! wid) as [h|] eqn:Hr; [done|].
  destruct (workflow_states o !! wid) as [st|] eqn:Hs; [|done].
  cbn. intros w h Hw. cbn in Hw |- *.
  destruct (decide (w = wid)) as [->|Hne].
  - apply in_flight_ok_spec. cbn. rewrite Hg, lookup_insert_eq.
    split; [by eexists|]. eexists _, _. split; [done|]. split; [done|]. lia.
  - rewrite lookup_insert_ne in Hw by done. specialize (Hinv w h Hw). cbn in Hinv.
    pose proof (proj1 (in_flight_ok_spec _ _ _) Hinv) as [Hsome _].
    eapply in_flight_ok_ext; [| exact Hsome | | | exact Hinv]; cbn; [lia | done |].
    by rewrite lookup_insert_ne.
Qed.

Lemma orch_inv_step e o wid n st :
  orch_inv e o ->
  orch_inv (run_step_in_flight e o wid n st).1 (run_step_in_flight e o wid n st).2.
Proof.
  unfold run_step_in_flight. intros Hinv.
  destruct (workflows o !! wid) as [g|] eqn:Hg; [|done].
  destruct (nodes g !! n) as [step|]; [|done].
  destruct (step_function e o step st) as [[[[e1 o1] step1] st1]|] eqn:Hf; [|done].
  apply step_function_rec_rel in Hf as [(Hc & _ & Hw & Hws & Hr & _) _].
  cbn. intros w h Hw'. cbn in Hw' |- *. rewrite Hr in Hw'.
  specialize (Hinv w h Hw'). cbn in Hinv.
  pose proof (proj1 (in_flight_ok_spec _ _ _) Hinv) as [Hsome _].
  eapply in_flight_ok_ext; [| exact Hsome | | | exact Hinv]; cbn.
  - lia.
  - rewrite Hw. destruct (decide (w = wid)) as [->|Hne];
      [rewrite lookup_insert_eq; by eexists | by rewrite lookup_insert_ne].
  - by rewrite Hws.
Qed.

Lemma orch_inv_delete e o wid :
  orch_inv e o -> orch_inv e (execute_workflow_cancelled o wid).
Proof.
  unfold orch_inv, execute_workflow_cancelled. cbn. intros Hinv w h Hw.
  apply lookup_delete_Some in Hw as [_ Hw]. exact (Hinv w h Hw).
Qed.

Lemma orch_inv_finish e o wid r :
  orch_inv e o ->
  orch_inv (execute_workflow_finish e o wid r).1.1 (execute_workflow_finish e o wid r).1.2.
Proof.
  unfold execute_workflow_finish. intros Hinv.
  destruct (workflow_states o !! wid) as [st|] eqn:Hs; [|done].
  assert (Hgen : forall e1 st', clock e1 = clock e ->
            orch_inv e1 (set_running_workflows (delete wid (running_workflows o))
                           (set_workflow_states (<[wid := st']> (workflow_states o)) o))).
  { intros e1 st' Hc w h Hw. cbn in Hw |- *.
    apply lookup_delete_Some in Hw as [Hne Hw]. specialize (Hinv w h Hw). cbn in Hinv.
    pose proof (proj1 (in_flight_ok_spec _ _ _) Hinv) as [Hsome _].
    eapply in_flight_ok_ext; [| exact Hsome | | | exact Hinv]; cbn; [lia | done |].
    by rewrite lookup_insert_ne. }
  cbn. by apply Hgen.
Qed.

Lemma orch_inv_cancel e o wid :
  orch_inv e o -> orch_inv (cancel_workflow e o wid).1.1 (cancel_workflow e o wid).1.2.
Proof.
  unfold cancel_workflow. intros Hinv.
  destruct (running_workflows o !! wid) as [h|] eqn:Hr;
    [|cbn; by apply (orch_inv_same e _ o)].
  pose proof (Hinv wid h Hr) as Hwid. cbn in Hwid.
  apply in_flight_ok_spec in Hwid as [Hsome (st & t0 & Hs & Ht & Hle)].
  cbn [workflow_states set_running_workflows]. rewrite Hs.
  cbn. intros w h' Hw. cbn in Hw |- *.
  assert (exists h0, running_workflows o !! w = Some h0) as [h0 Hw0].
  { destruct (decide (w = wid)) as [->|Hne]; [by eexists|].
    rewrite lookup_insert_ne in Hw by done. by eexists. }
  specialize (Hinv w h0 Hw0). cbn in Hinv.
  pose proof (proj1 (in_flight_ok_spec _ _ _) Hinv) as [Hsome' _].
  eapply in_flight_ok_ext; [| exact Hsome' | | | exact Hinv]; cbn; [lia | done |].
  destruct (decide (w = wid)) as [->|Hne].
  - by rewrite lookup_insert_eq, Hs.
  - by rewrite lookup_insert_ne.
Qed.

(** Every state the orchestrator can be in satisfies [orch_inv]. *)
Lemma reachable_orch_inv e o : reachable e o -> orch_inv e o.
Proof.
  induction 1.
  - apply orch_inv_init.
  - by apply orch_inv_advance.
  - by apply orch_inv_register.
  - by apply orch_inv_create_agent.
  - by apply orch_inv_remove_agent.
  - by apply orch_inv_create_workflow.
  - by apply orch_inv_start.
  - by apply orch_inv_step.
  - by apply orch_inv_finish.
  - by apply orch_inv_delete.
  - by apply orch_inv_cancel.
Qed.

(** C5.  [execute_workflow] on a workflow id that has a run in flight
    raises the "workflow is running" [ValueError] and leaves the
    environment and the orchestrator, the run state of the run in
    flight included, exactly as they were. *)
Theorem execute_in_flight_rejected (e : Env) (o : AgentOrchestrator) (wid : string)
    (input_data : Dict) :
  orch_inv e o ->
  is_Some (running_workflows o !! wid) ->
  execute_workflow e o wid input_data
  = (e, o, inr (ValueError ("workflow is running: " +:+ wid))).
Proof.
  intros Hinv [h Hr]. pose proof (Hinv wid h Hr) as Hwid. cbn in Hwid.
  apply in_flight_ok_spec in Hwid as [[g Hg] _].
  unfold execute_workflow, execute_workflow_start. by rewrite Hg, Hr.
Qed.

Lemma execute_in_flight_rejected_witness :
  orch_inv Sample.e10 Sample.in_flight /\
  is_Some (running_workflows Sample.in_flight !! "w") /\
  execute_workflow Sample.e10 Sample.in_flight "w" ∅
  = (Sample.e10, Sample.in_flight, inr (ValueError "workflow is running: w")).
Proof.
  assert (Hinv : orch_inv Sample.e10 Sample.in_flight)
    by (apply (bool_decide_unpack _); vm_compute; exact I).
  assert (Hrun : is_Some (running_workflows Sample.in_flight !! "w"))
    by (by eexists).
  split; [exact Hinv|]. split; [exact Hrun|].
  exact (execute_in_flight_rejected Sample.e10 Sample.in_flight "w" ∅ Hinv Hrun).
Defined.

(** C6.  [cancel_workflow] on a workflow id that has a run in flight
    raises nothing, asks the run's task to cancel, and sets the run
    state -- whatever it holds at that moment -- to CANCELLED with the
    current clock reading as completion time, which is not before the
    start time of the run. *)
Theorem cancel_in_flight (e : Env) (o : AgentOrchestrator) (wid : string) :
  orch_inv e o ->
  is_Some (running_workflows o !! wid) ->
  exists st t0 o' st',
    workflow_states o !! wid = Some st /\
    cancel_workflow e o wid = (emit INFO "workflow cancelled" wid e, o', inl ()) /\
    workflow_states o' !! wid = Some st' /\
    st' = ws_set_completed_at (Some (clock e)) (ws_set_status WorkflowStatus.CANCELLED st) /\
    status st' = WorkflowStatus.CANCELLED /\
    started_at st' = Some t0 /\
    completed_at st' = Some (clock e) /\
    t0 <= clock e /\
    running_workflows o' !! wid = Some (mkTask true).
Proof.
  intros Hinv [h Hr]. pose proof (Hinv wid h Hr) as Hwid. cbn in Hwid.
  apply in_flight_ok_spec in Hwid as [_ (st & t0 & Hs & Ht & Hle)].
  exists st, t0. eexists _, _. split; [exact Hs|].
  unfold cancel_workflow. rewrite Hr. cbn [workflow_states set_running_workflows].
  rewrite Hs. split; [reflexivity|]. cbn. rewrite !lookup_insert_eq. by repeat split.
Qed.

Lemma cancel_in_flight_witness :
  exists st',
    workflow_states (cancel_workflow Sample.e10 Sample.in_flight "w").1.2 !! "w" = Some st' /\
    status st' = WorkflowStatus.CANCELLED /\
    started_at st' = Some 0 /\ completed_at st' = Some 10.
Proof.
  assert (Hinv : orch_inv Sample.e10 Sample.in_flight)
    by (apply (bool_decide_unpack _); vm_compute; exact I).
  destruct (cancel_in_flight Sample.e10 Sample.in_flight "w" Hinv ltac:(by eexists))
    as (st & t0 & o' & st' & Hs & Hc & Hs' & Hst' & Hstat & Ht0 & Hdone & _).
  rewrite Hc. cbn [fst snd]. exists st'. split; [exact Hs'|]. split; [exact Hstat|].
  vm_compute in Hs. injection Hs as <-. rewrite Hst'. by split.
Defined.

(** ** Further properties *)

(** *** Conditions and mappings *)

Lemma conditions_hold_iff conds ctx :
  conditions_hold conds ctx = true <->
  Forall (fun kv => exists x, ctx !! kv.1 = Some x /\ py_eq x kv.2 = true) conds.
Proof.
  induction conds as [|[k v] rest IH]; cbn [conditions_hold].
  - split; [constructor | done].
  - rewrite Forall_cons. cbn [fst snd]. rewrite <- IH. clear IH.
    unfold py_ne. destruct (ctx !! k) as [x|].
    + destruct (py_eq x v) eqn:Heq; cbn [negb].
      * split; [intros H; split; [by exists x | done] | by intros [_ H]].
      * split; [done | intros [(y & [= <-] & Hy) _]; congruence].
    + split; [done | intros [(y & Hy & _) _]; done].
Qed.

(** X1.  [_check_conditions] accepts a condition set exactly when every
    one of its keys is bound in the run context to a value that Python's
    [==] equates with the expected one; in particular a missing key
    fails the check and an empty set passes it. *)
Theorem check_conditions_iff (conds : list (string * Value)) (ctx : Dict) :
  _check_conditions conds ctx = true <->
  Forall (fun kv => exists x, ctx !! kv.1 = Some x /\ py_eq x kv.2 = true) conds.
Proof.
  rewrite <- conditions_hold_iff. by destruct conds.
Qed.

Lemma prepare_input_fold_sound (mapping : list (string * string)) (ctx : Dict) :
  forall (acc : Dict) (k : string) (v : Value),
  fold_left (fun input_data '(output_key, context_key) =>
               match ctx !! context_key with
               | Some v => <[output_key := v]> input_data
               | None => input_data
               end) mapping acc !! k = Some v ->
  acc !! k = Some v \/ exists src, (k, src) ∈ mapping /\ ctx !! src = Some v.
Proof.
  induction mapping as [|[ok ck] rest IH]; intros acc k v; cbn [fold_left]; [by left|].
  intros H. apply IH in H as [H | (src & Hin & Hsrc)].
  - destruct (ctx !! ck) as [x|] eqn:Hck; [|by left].
    destruct (decide (ok = k)) as [->|Hne].
    + rewrite lookup_insert_eq in H. injection H as ->.
      right. exists ck. split; [by left | done].
    + rewrite lookup_insert_ne in H by done. by left.
  - right. exists src. split; [by right | done].
Qed.

Lemma prepare_input_fold_other (mapping : list (string * string)) (ctx : Dict) :
  forall (acc : Dict) (k : string),
  k ∉ mapping.*1 ->
  fold_left (fun input_data '(output_key, context_key) =>
               match ctx !! context_key with
               | Some v => <[output_key := v]> input_data
               | None => input_data
               end) mapping acc !! k = acc !! k.
Proof.
  induction mapping as [|[ok ck] rest IH]; intros acc k Hk; cbn [fold_left]; [done|].
  cbn in Hk. apply not_elem_of_cons in Hk as [Hne Hk].
  rewrite IH by done. destruct (ctx !! ck); [by rewrite lookup_insert_ne | done].
Qed.

Lemma prepare_input_fold_mapped (mapping : list (string * string)) (ctx : Dict) :
  forall (acc : Dict) (k src : string),
  NoDup mapping.*1 -> (k, src) ∈ mapping ->
  fold_left (fun input_data '(output_key, context_key) =>
               match ctx !! context_key with
               | Some v => <[output_key := v]> input_data
               | None => input_data
               end) mapping acc !! k
  = match ctx !! src with Some v => Some v | None => acc !! k end.
Proof.
  induction mapping as [|[ok ck] rest IH]; intros acc k src Hnd Hin; cbn [fold_left];
    [by apply elem_of_nil in Hin|].
  cbn in Hnd. apply NoDup_cons in Hnd as [Hfresh Hnd].
  apply elem_of_cons in Hin as [[= <- <-]|Hin].
  - rewrite prepare_input_fold_other by done.
    destruct (ctx !! src); [by rewrite lookup_insert_eq | done].
  - rewrite (IH _ _ src) by done.
    destruct (ctx !! src) as [v|]; [done|].
    destruct (ctx !! ck); [|done].
    rewrite lookup_insert_ne; [done|].
    intros ->. apply Hfresh. apply list_elem_of_fmap. by exists (k, src).
Qed.

(** X2.  The input [_prepare_input] builds holds nothing but context
    values: each of its entries comes from a mapping pair whose source
    key the context binds to that value.  When no input key is mapped
    twice, the input binds a mapped key exactly when the context binds
    its source key, to the same value: a source key the context lacks
    is left out, not bound to [None]. *)
Theorem prepare_input_lookup (mapping : list (string * string)) (ctx : Dict) :
  (forall k v, _prepare_input mapping ctx !! k = Some v ->
     exists src, (k, src) ∈ mapping /\ ctx !! src = Some v) /\
  (NoDup mapping.*1 ->
     forall k src, (k, src) ∈ mapping -> _prepare_input mapping ctx !! k = ctx !! src).
Proof.
  split.
  - intros k v H. apply prepare_input_fold_sound in H as [H|H]; [|done].
    by rewrite lookup_empty in H.
  - intros Hnd k src Hin. unfold _prepare_input.
    rewrite (prepare_input_fold_mapped _ _ _ _ src) by done.
    rewrite lookup_empty. by destruct (ctx !! src).
Qed.

Lemma prepare_input_lookup_witness :
  _prepare_input [("in", "x"); ("aux", "missing")] Sample.input !! "in" = Some (VInt 3) /\
  _prepare_input [("in", "x"); ("aux", "missing")] Sample.input !! "aux" = None.
Proof.
  destruct (prepare_input_lookup [("in", "x"); ("aux", "missing")] Sample.input) as [_ H].
  assert (Hnd : NoDup ([("in", "x"); ("aux", "missing")] : list (string * string)).*1)
    by (apply (bool_decide_unpack _); vm_compute; exact I).
  split.
  - rewrite (H Hnd "in" "x"); [reflexivity | by left].
  - rewrite (H Hnd "aux" "missing"); [reflexivity | right; by left].
Defined.

(** *** What a successful step writes *)

Lemma process_output_fold_other (mapping : list (string * string)) (result : Dict) :
  forall (acc : Dict) (k : string),
  k ∉ mapping.*2 ->
  fold_left (fun output_data '(result_key, context_key) =>
               match result !! result_key with
               | Some v => <[context_key := v]> output_data
               | None => output_data
               end) mapping acc !! k = acc !! k.
Proof.
  induction mapping as [|[rk ck] rest IH]; intros acc k Hk; cbn [fold_left]; [done|].
  cbn in Hk. apply not_elem_of_cons in Hk as [Hne Hk].
  rewrite IH by done. destruct (result !! rk); [by rewrite lookup_insert_ne | done].
Qed.

Lemma process_output_fold_mapped (mapping : list (string * string)) (result : Dict) :
  forall (acc : Dict) (rk ck : string),
  NoDup mapping.*2 -> (rk, ck) ∈ mapping ->
  fold_left (fun output_data '(result_key, context_key) =>
               match result !! result_key with
               | Some v => <[context_key := v]> output_data
               | None => output_data
               end) mapping acc !! ck
  = match result !! rk with Some v => Some v | None => acc !! ck end.
Proof.
  induction mapping as [|[rk' ck'] rest IH]; intros acc rk ck Hnd Hin; cbn [fold_left];
    [by apply elem_of_nil in Hin|].
  cbn in Hnd. apply NoDup_cons in Hnd as [Hfresh Hnd].
  apply elem_of_cons in Hin as [[= <- <-]|Hin].
  - rewrite process_output_fold_other by done.
    destruct (result !! rk); [by rewrite lookup_insert_eq | done].
  - rewrite (IH _ rk) by done.
    destruct (result !! rk) as [v|]; [done|].
    destruct (result !! rk'); [|done].
    rewrite lookup_insert_ne; [done|].
    intros ->. apply Hfresh. apply list_elem_of_fmap. by exists (rk, ck).
Qed.

(** X3.  A step whose condition holds, whose agent resolves and whose
    capability returns at the first attempt: its id joins the completed
    steps, the result is stored under the step id and no other stored
    result changes; a context key that is no target of the output
    mapping keeps its binding, and (when no target is mapped twice) a
    target takes the value of its result key when the result has that
    key and keeps its binding otherwise. *)
Theorem step_output_flow (e : Env) (o : AgentOrchestrator) (step : WorkflowStep)
    (st : WorkflowState) (a : BaseAgent) (result : Dict) :
  resolves_to e o step a ->
  _check_conditions (conditions step) (context st) = true ->
  process_task (cls a) (handled a) (step_task (clock e) step st) = inl result ->
  exists e' o' st',
    step_function e o step st = Some (e', o', step, st') /\
    completed_steps st' = completed_steps st ++ [step_id step] /\
    results st' !! step_id step = Some result /\
    (forall sid, sid <> step_id step -> results st' !! sid = results st !! sid) /\
    (forall k, k ∉ (output_mapping step).*2 -> context st' !! k = context st !! k) /\
    (NoDup (output_mapping step).*2 ->
     forall rk ck, (rk, ck) ∈ output_mapping step ->
       context st' !! ck
       = match result !! rk with Some v => Some v | None => context st !! ck end).
Proof.
  intros Ha Hc Hok.
  destruct (step_goes_through (S (Z.to_nat (max_retries step - retry_count step)))
              e o step st a 0 result Ha Hc ltac:(lia) ltac:(lia)) as (e' & Heq & _).
  { intros i Hi. lia. }
  { cbn [replicate]. by rewrite app_nil_r. }
  rewrite set_retry_count_add_0 in Heq.
  eexists e', _, _. split; [exact Heq|]. cbn.
  split; [done|]. split; [apply lookup_insert_eq|].
  split; [intros sid Hne; by rewrite lookup_insert_ne|]. split.
  - intros k Hk. rewrite lookup_union. unfold _process_output.
    rewrite process_output_fold_other by done. rewrite lookup_empty.
    by destruct (context st !! k).
  - intros Hnd rk ck Hin. rewrite lookup_union. unfold _process_output.
    rewrite (process_output_fold_mapped _ _ _ rk) by done. rewrite lookup_empty.
    destruct (result !! rk), (context st !! ck); done.
Qed.

Lemma step_output_flow_witness :
  exists e' o' st',
    step_function Sample.e0 Sample.with_types
      (mkStep "B" "report" "good" [] [("out", "y")] [] 0 3 300) Sample.st0
    = Some (e', o', mkStep "B" "report" "good" [] [("out", "y")] [] 0 3 300, st') /\
    context st' !! "y" = Some (VInt 5) /\ context st' !! "x" = Some (VInt 3).
Proof.
  set (step := mkStep "B" "report" "good" [] [("out", "y")] [] 0 3 300).
  destruct (step_output_flow Sample.e0 Sample.with_types step Sample.st0
              (started_agent 0 Sample.returning "good_B" "good for B")
              {[ "out" := VInt 5 ]}) as (e' & o' & st' & Heq & _ & _ & _ & Hkeep & Hmap).
  - right. split; [reflexivity|]. exists Sample.returning. by repeat split.
  - reflexivity.
  - reflexivity.
  - exists e', o', st'. split; [exact Heq|]. split.
    + rewrite (Hmap ltac:(apply (bool_decide_unpack _); vm_compute; exact I) "out" "y");
        [reflexivity | by left].
    + rewrite Hkeep; [reflexivity|]. cbn. by intros [?|?%elem_of_nil]%elem_of_cons.
Defined.

(** *** What every step execution records *)

Lemma set_retry_count_same step : step = set_retry_count (retry_count step) step.
Proof. by destruct step. Qed.

Lemma run_step_body_done e o step st e1 o1 st1 :
  run_step_body e o step st = (e1, o1, inl st1) ->
  completed_steps st1 = completed_steps st ++ [step_id step] /\
  failed_steps st1 = failed_steps st /\ status st1 = status st /\
  error st1 = error st /\ current_step st1 = current_step st.
Proof.
  unfold run_step_body. intros H.
  destruct (_get_or_create_agent e o (agent_type step) (step_id step)) as [[e' o'] [aid|ex]];
    [|done].
  destruct (call_process_task o' aid _) as [o2 [res|ex]]; [|done].
  by inversion H; subst.
Qed.

Lemma step_function_rec_recorded fuel : forall e o step st e' o' step' st',
  step_function_rec fuel e o step st = Some (e', o', step', st') ->
  recorded_once step step' st st'.
Proof.
  induction fuel as [|fuel IH]; intros e o step st e' o' step' st' H; [done|].
  cbn [step_function_rec] in H.
  destruct (negb (_check_conditions _ _)).
  { inversion H; subst.
    split; [done|]. split; [apply set_retry_count_same|]. split; [lia|].
    left. by repeat split. }
  destruct (run_step_body _ o step _) as [[e2 o2] [st2|ex]] eqn:Hb.
  { apply run_step_body_done in Hb as (Hc & Hf & Hs & He & Hcur).
    inversion H; subst.
    split; [by rewrite Hcur|]. split; [apply set_retry_count_same|]. split; [lia|].
    left. by repeat split. }
  destruct (Z.leb_spec (retry_count (set_retry_count (retry_count step + 1) step))
              (max_retries (set_retry_count (retry_count step + 1) step))) as [Hle|Hgt].
  - apply IH in H as (Hcur & Hstep & Hrc & Hcases). cbn in Hrc, Hle.
    split; [done|]. split; [rewrite Hstep at 1; by destruct step|]. split; [lia|].
    destruct Hcases as [(?&?&?&?) | (?&?&?&?&?&?&?)]; [left | right]; by repeat split.
  - inversion H; subst. cbn in Hgt.
    split; [done|]. split; [by destruct step|]. split; [cbn; lia|].
    right. repeat split; try done; cbn; lia.
Qed.

(** X4.  Every step execution returns, and records the step exactly
    once: it sets the current step and either appends the step id to
    the completed steps (leaving failed steps, status and error alone)
    or appends it to the failed steps with status FAILED and an error
    message, the context and the results as they were and the retry
    counter above the budget.  Of the step object it changes nothing
    but the retry counter, which never decreases. *)
Theorem step_records_once (e : Env) (o : AgentOrchestrator) (step : WorkflowStep)
    (st : WorkflowState) :
  exists e' o' step' st',
    step_function e o step st = Some (e', o', step', st') /\
    recorded_once step step' st st'.
Proof.
  destruct (step_function_total e o step st) as [[[[e' o'] step'] st'] Heq].
  exists e', o', step', st'. split; [exact Heq|].
  by apply step_function_rec_recorded in Heq.
Qed.

(** X5.  The retry counter is counted from the value the step object
    holds: a step entered with counter [retry_count] whose capability
    fails on every attempt has the capability called
    [max (1, max_retries - retry_count + 1)] times -- once when the
    budget is already used up -- and is then recorded as failed, with
    the counter advanced by that number of calls. *)
Theorem attempts_from_any_counter (e : Env) (o : AgentOrchestrator) (step : WorkflowStep)
    (st : WorkflowState) (a : BaseAgent) :
  let task := step_task (clock e) step st in
  let k := Z.to_nat (Z.max 1 (max_retries step - retry_count step + 1)) in
  resolves_to e o step a ->
  _check_conditions (conditions step) (context st) = true ->
  (forall i, (i < k)%nat ->
     exists ex, process_task (cls a) (handled a ++ replicate i task) task = inr ex) ->
  exists e' o' step' st' a',
    step_function e o step st = Some (e', o', step', st') /\
    agents o' !! step_agent_id step = Some a' /\
    handled a' = handled a ++ replicate k task /\
    retry_count step' = retry_count step + Z.of_nat k /\
    status st' = WorkflowStatus.FAILED /\
    failed_steps st' = failed_steps st ++ [step_id step].
Proof.
  intros task k Ha Hc Hfail.
  assert (Hk : k = S (Z.to_nat (max_retries step - retry_count step))) by (subst k; lia).
  destruct (step_gives_up (S (Z.to_nat (max_retries step - retry_count step)))
              e o step st a Ha Hc ltac:(lia)) as (e' & ex & Heq & _ & _).
  { intros i Hi. apply Hfail. lia. }
  eexists e', _, _, _, _. split; [exact Heq|].
  split; [cbn; apply lookup_insert_eq|]. rewrite Hk. by repeat split.
Qed.

Lemma attempts_from_any_counter_witness :
  exists e' o' step' st' a',
    step_function Sample.e0 Sample.with_types (set_retry_count 3 Sample.stepA) Sample.st0
    = Some (e', o', step', st') /\
    agents o' !! "bad_A" = Some a' /\
    length (handled a') = 1%nat /\
    retry_count step' = 4.
Proof.
  destruct (attempts_from_any_counter Sample.e0 Sample.with_types
              (set_retry_count 3 Sample.stepA) Sample.st0
              (started_agent 0 Sample.failing "bad_A" "bad for A"))
    as (e' & o' & step' & st' & a' & Heq & Hag & Hh & Hrc & _).
  - right. split; [reflexivity|]. exists Sample.failing. by repeat split.
  - reflexivity.
  - intros i _. by exists (Exception "boom").
  - exists e', o', step', st', a'. split; [exact Heq|]. split; [exact Hag|].
    split; [rewrite Hh; reflexivity | exact Hrc].
Defined.

Lemma step_unknown_type fuel : forall e o step st,
  let k := S (Z.to_nat (max_retries step - retry_count step)) in
  agents o !! step_agent_id step = None ->
  agent_types o !! agent_type step = None ->
  _check_conditions (conditions step) (context st) = true ->
  (k <= fuel)%nat ->
  exists e',
    step_function_rec fuel e o step st
    = Some (e', o, set_retry_count (retry_count step + Z.of_nat k) step,
            gave_up (ValueError ("unknown agent type: " +:+ agent_type step)) step st).
Proof.
  induction fuel as [|fuel IH]; intros e o step st k Hnone Hty Hc Hk; [lia|].
  cbn [step_function_rec]. cbn [context ws_set_current_step]. rewrite Hc. cbn [negb].
  unfold run_step_body, _get_or_create_agent. cbv zeta.
  fold (step_agent_id step). rewrite Hnone.
  unfold create_agent. rewrite Hty.
  destruct (Z.leb_spec (retry_count (set_retry_count (retry_count step + 1) step))
              (max_retries (set_retry_count (retry_count step + 1) step))) as [Hle|Hgt];
    cbn [retry_count max_retries set_retry_count] in *.
  - set (step2 := set_retry_count (retry_count step + 1) step).
    destruct (IH (emit INFO "step retry" (step_id step)
                    (emit ERROR "step failed" (step_id step)
                       (emit INFO "step started" (step_id step) e)))
                o step2 (ws_set_current_step (Some (step_id step)) st))
      as (e' & Heq); try done.
    { cbn [retry_count max_retries step2 set_retry_count]. lia. }
    exists e'. rewrite Heq.
    change (gave_up ?x step2 (ws_set_current_step _ st)) with (gave_up x step st).
    assert (Hs : set_retry_count
                   (retry_count step2 +
                    Z.of_nat (S (Z.to_nat (max_retries step2 - retry_count step2)))) step2
                 = set_retry_count (retry_count step + Z.of_nat k) step).
    { unfold step2, set_retry_count. cbn. f_equal. subst k. lia. }
    by rewrite Hs.
  - exists (emit ERROR "step failed" (step_id step)
              (emit INFO "step started" (step_id step) e)).
    assert (k = 1%nat) as -> by (subst k; lia). reflexivity.
Qed.

(** X6.  A step whose agent is not registered and whose agent type is
    unknown fails without creating or calling any agent: the
    orchestrator is left as it was, the lookup is retried until the
    budget is used up, and the step is recorded as failed with the
    error [unknown agent type], the context untouched. *)
Theorem step_without_agent_type (e : Env) (o : AgentOrchestrator) (step : WorkflowStep)
    (st : WorkflowState) :
  agents o !! step_agent_id step = None ->
  agent_types o !! agent_type step = None ->
  _check_conditions (conditions step) (context st) = true ->
  exists e' step' st',
    step_function e o step st = Some (e', o, step', st') /\
    retry_count step'
      = retry_count step + Z.max 1 (max_retries step - retry_count step + 1) /\
    status st' = WorkflowStatus.FAILED /\
    failed_steps st' = failed_steps st ++ [step_id step] /\
    error st' = Some ("unknown agent type: " +:+ agent_type step) /\
    context st' = context st.
Proof.
  intros Hnone Hty Hc.
  destruct (step_unknown_type (S (Z.to_nat (max_retries step - retry_count step)))
              e o step st Hnone Hty Hc ltac:(lia)) as (e' & Heq).
  eexists e', _, _. split; [exact Heq|]. cbn. split; [lia|]. by repeat split.
Qed.

Lemma step_without_agent_type_witness :
  exists e' step' st',
    step_function Sample.e0 (AgentOrchestrator_init Sample.e0).2 Sample.stepA Sample.st0
    = Some (e', (AgentOrchestrator_init Sample.e0).2, step', st') /\
    retry_count step' = 3 /\
    error st' = Some "unknown agent type: bad".
Proof.
  destruct (step_without_agent_type Sample.e0 (AgentOrchestrator_init Sample.e0).2
              Sample.stepA Sample.st0 eq_refl eq_refl eq_refl)
    as (e' & step' & st' & Heq & Hrc & _ & _ & Herr & _).
  exists e', step', st'. split; [exact Heq|]. split; [exact Hrc | exact Herr].
Defined.

(** *** Creating and removing agents *)

(** X7.  [create_agent] with a registered type, a fresh id and an
    [initialize] that succeeds returns the id and registers the agent
    under it, started (running, status RUNNING), with an empty queue and
    the initial metrics; every other agent, the registered types and the
    workflow tables are left alone and the registry grows by one. *)
Theorem create_agent_registers (e : Env) (o : AgentOrchestrator) (id ty nm : string)
    (caps : list AgentCapability) (cfg : option Dict) (c : AgentClass) :
  agent_types o !! ty = Some c ->
  agents o !! id = None ->
  initialize c = None ->
  exists e' o',
    create_agent e o id ty nm caps cfg = (e', o', inl id) /\
    get_agent o' id = Some (created_agent (clock e) c id nm caps cfg) /\
    (forall id', id' <> id -> get_agent o' id' = get_agent o id') /\
    size (agents o') = S (size (agents o)) /\
    agent_types o' = agent_types o /\ workflows o' = workflows o /\
    workflow_states o' = workflow_states o /\
    running_workflows o' = running_workflows o.
Proof.
  intros Hty Hid Hinit. unfold create_agent. rewrite Hty, Hid.
  unfold BaseAgent_init, start. cbn [_is_running negb cls]. rewrite Hinit.
  eexists _, _. split; [reflexivity|]. unfold get_agent. cbn.
  split; [apply lookup_insert_eq|].
  split; [intros id' Hne; by rewrite lookup_insert_ne|].
  split; [by apply map_size_insert_None | done].
Qed.

Lemma create_agent_registers_witness :
  exists e' o',
    create_agent Sample.e0 Sample.with_types "g1" "good" "first" [PLANNING] None
    = (e', o', inl "g1") /\
    (_is_running <$> get_agent o' "g1") = Some true /\
    size (agents o') = 1%nat.
Proof.
  destruct (create_agent_registers Sample.e0 Sample.with_types "g1" "good" "first"
              [PLANNING] None Sample.returning eq_refl eq_refl eq_refl)
    as (e' & o' & Heq & Hget & _ & Hsize & _).
  exists e', o'. split; [exact Heq|]. split; [by rewrite Hget | exact Hsize].
Defined.

(** X8.  When [initialize] raises, [create_agent] propagates the
    exception, yet the agent is already in the registry: not running,
    status FAILED.  The id is thereby taken: any later [create_agent]
    with this id and a registered type is refused with [agent id
    exists]. *)
Theorem create_agent_failed_initialize (e : Env) (o : AgentOrchestrator) (id ty nm : string)
    (caps : list AgentCapability) (cfg : option Dict) (c : AgentClass) (ex : exn) :
  agent_types o !! ty = Some c ->
  agents o !! id = None ->
  initialize c = Some ex ->
  exists e' o',
    create_agent e o id ty nm caps cfg = (e', o', inr ex) /\
    get_agent o' id = Some (stillborn_agent (clock e) c id nm caps cfg) /\
    forall e2 ty2 nm2 caps2 cfg2,
      is_Some (agent_types o' !! ty2) ->
      create_agent e2 o' id ty2 nm2 caps2 cfg2
      = (e2, o', inr (ValueError ("agent id exists: " +:+ id))).
Proof.
  intros Hty Hid Hinit. unfold create_agent at 1. rewrite Hty, Hid.
  unfold BaseAgent_init, start. cbn [_is_running negb cls]. rewrite Hinit.
  eexists _, _. split; [reflexivity|]. unfold get_agent. cbn.
  split; [apply lookup_insert_eq|].
  intros e2 ty2 nm2 caps2 cfg2 [c2 Hc2]. unfold create_agent.
  cbn in Hc2 |- *. by rewrite Hc2, lookup_insert_eq.
Qed.

Lemma create_agent_failed_initialize_witness :
  let o := (register_agent_type Sample.e0 Sample.with_types "broken"
              (mkAgentClass (Some (Exception "no key")) (fun _ _ => inl ∅) None)).2 in
  exists e' o',
    create_agent Sample.e0 o "b1" "broken" "first" [] None = (e', o', inr (Exception "no key")) /\
    (_is_running <$> get_agent o' "b1") = Some false /\
    create_agent Sample.e0 o' "b1" "good" "second" [] None
    = (Sample.e0, o', inr (ValueError "agent id exists: b1")).
Proof.
  cbv zeta.
  destruct (create_agent_failed_initialize Sample.e0
              (register_agent_type Sample.e0 Sample.with_types "broken"
                 (mkAgentClass (Some (Exception "no key")) (fun _ _ => inl ∅) None)).2
              "b1" "broken" "first" [] None
              (mkAgentClass (Some (Exception "no key")) (fun _ _ => inl ∅) None)
              (Exception "no key") eq_refl eq_refl eq_refl)
    as (e' & o' & Heq & Hget & Hagain).
  exists e', o'. split; [exact Heq|]. split; [by rewrite Hget|].
  apply Hagain. injection Heq as _ <-. by eexists.
Defined.

(** X9.  Creating an agent and then removing it, when [initialize] and
    [cleanup] succeed, gives back the orchestrator as it was before the
    creation. *)
Theorem create_then_remove (e e2 : Env) (o : AgentOrchestrator) (id ty nm : string)
    (caps : list AgentCapability) (cfg : option Dict) (c : AgentClass) :
  agent_types o !! ty = Some c ->
  agents o !! id = None ->
  initialize c = None ->
  cleanup c = None ->
  exists e', remove_agent e2 (create_agent e o id ty nm caps cfg).1.2 id = (e', o, inl ()).
Proof.
  intros Hty Hid Hinit Hclean. unfold create_agent. rewrite Hty, Hid.
  unfold BaseAgent_init, start. cbn [_is_running negb cls]. rewrite Hinit.
  cbn [fst snd]. unfold remove_agent. cbn [agents set_agents]. rewrite lookup_insert_eq.
  unfold stop. cbn [_is_running negb cls set_is_running set_state]. rewrite Hclean.
  eexists. f_equal. f_equal. unfold set_agents. cbn.
  rewrite insert_insert_eq, delete_insert_eq, delete_id by done. by destruct o.
Qed.

Lemma create_then_remove_witness :
  exists e',
    remove_agent Sample.e0
      (create_agent Sample.e0 Sample.with_types "g1" "good" "first" [] None).1.2 "g1"
    = (e', Sample.with_types, inl ()).
Proof.
  exact (create_then_remove Sample.e0 Sample.e0 Sample.with_types "g1" "good" "first" []
           None Sample.returning eq_refl eq_refl eq_refl eq_refl).
Defined.

(** X10.  When [cleanup] raises, [remove_agent] propagates the
    exception and the agent stays in the registry, stopped, with status
    FAILED and its queue intact; no other agent is touched.  A second
    [remove_agent] then finds the agent not running, skips [cleanup] and
    removes it. *)
Theorem remove_agent_failed_cleanup (e : Env) (o : AgentOrchestrator) (id : string)
    (a : BaseAgent) (ex : exn) :
  agents o !! id = Some a ->
  _is_running a = true ->
  cleanup (cls a) = Some ex ->
  exists e' o' a',
    remove_agent e o id = (e', o', inr ex) /\
    agents o' !! id = Some a' /\
    _is_running a' = false /\
    agent_status (state a') = AgentStatus.FAILED /\
    task_queue (state a') = task_queue (state a) /\
    (forall id', id' <> id -> agents o' !! id' = agents o !! id') /\
    forall e2, exists e3,
      remove_agent e2 o' id = (e3, set_agents (delete id (agents o)) o, inl ()).
Proof.
  intros Ha Hrun Hclean. unfold remove_agent at 1. rewrite Ha.
  unfold stop. rewrite Hrun. cbn [negb]. rewrite Hclean.
  eexists _, _, _. split; [reflexivity|]. cbn.
  split; [apply lookup_insert_eq|]. split; [done|]. split; [done|]. split; [done|].
  split; [intros id' Hne; by rewrite lookup_insert_ne|].
  intros e2. unfold remove_agent. cbn [agents set_agents]. rewrite lookup_insert_eq.
  unfold stop. cbn [_is_running negb set_state set_is_running].
  eexists. f_equal. f_equal. unfold set_agents. cbn.
  by rewrite insert_insert_eq, delete_insert_eq.
Qed.

Lemma remove_agent_failed_cleanup_witness :
  let c := mkAgentClass None (fun _ _ => inl ∅) (Some (Exception "busy")) in
  let o := (create_agent Sample.e0
              (register_agent_type Sample.e0 Sample.with_types "sticky" c).2
              "s1" "sticky" "first" [] None).1.2 in
  exists e' o',
    remove_agent Sample.e0 o "s1" = (e', o', inr (Exception "busy")) /\
    is_Some (agents o' !! "s1") /\
    (remove_agent Sample.e0 o' "s1").2 = inl () /\
    agents (remove_agent Sample.e0 o' "s1").1.2 !! "s1" = None.
Proof.
  cbv zeta.
  set (c := mkAgentClass None (fun _ _ => inl ∅) (Some (Exception "busy"))).
  set (o := (create_agent Sample.e0
               (register_agent_type Sample.e0 Sample.with_types "sticky" c).2
               "s1" "sticky" "first" [] None).1.2).
  destruct (remove_agent_failed_cleanup Sample.e0 o "s1"
              (created_agent 0 c "s1" "first" [] None) (Exception "busy")
              eq_refl eq_refl eq_refl)
    as (e' & o' & a' & Heq & Ha' & _ & _ & _ & _ & Hagain).
  exists e', o'. split; [exact Heq|]. split; [by eexists|].
  destruct (Hagain Sample.e0) as [e3 ->]. split; [reflexivity|].
  cbn. apply lookup_delete_eq.
Defined.

(** X11.  A step whose agent has to be created from a type whose
    [initialize] raises: the first attempt fails on that exception and
    leaves the agent registered but not started; when the budget allows
    a second attempt, that attempt finds the agent in the registry and
    calls its capability although it was never initialized, and the step
    completes with the capability's result. *)
Theorem step_after_failed_initialize (e : Env) (o : AgentOrchestrator)
    (step : WorkflowStep) (st : WorkflowState) (c : AgentClass) (ex : exn)
    (result : Dict) :
  let task := step_task (clock e) step st in
  agents o !! step_agent_id step = None ->
  agent_types o !! agent_type step = Some c ->
  initialize c = Some ex ->
  _check_conditions (conditions step) (context st) = true ->
  retry_count step + 1 <= max_retries step ->
  process_task c [] task = inl result ->
  exists e' o' a',
    step_function e o step st
    = Some (e', o', set_retry_count (retry_count step + 1) step,
            went_through result step st) /\
    agents o' !! step_agent_id step = Some a' /\
    _is_running a' = false /\
    agent_status (state a') = AgentStatus.FAILED /\
    handled a' = [task].
Proof.
  intros task Hnone Hty Hinit Hc Hle Hok.
  unfold step_function. rewrite (attempts_nat _ _ Hle).
  set (n := S (Z.to_nat (max_retries step - (retry_count step + 1)))).
  cbn [step_function_rec]. cbn [context ws_set_current_step]. rewrite Hc. cbn [negb].
  unfold run_step_body, _get_or_create_agent. cbv zeta.
  fold (step_agent_id step). rewrite Hnone.
  unfold create_agent. rewrite Hty, Hnone.
  unfold BaseAgent_init, start. cbn [_is_running negb cls]. rewrite Hinit.
  cbn [retry_count max_retries set_retry_count].
  destruct (Z.leb_spec (retry_count step + 1) (max_retries step)) as [_|]; [|lia].
  set (a := stillborn_agent (clock e) c (step_agent_id step)
              (agent_type step +:+ " for " +:+ step_id step) [] (Some ∅)).
  set (o1 := set_agents _ o).
  set (e1 := emit INFO "step retry" _ _).
  set (st1 := ws_set_current_step _ st).
  set (step1 := set_retry_count _ step).
  destruct (step_goes_through n e1 o1 step1 st1 a 0 result) as (e' & Heq & _).
  - left. subst o1. cbn. apply lookup_insert_eq.
  - exact Hc.
  - lia.
  - subst n. lia.
  - intros i Hi. lia.
  - exact Hok.
  - exists e'. eexists _, _. split; [|split; [|split; [|split]]].
    + rewrite Heq. rewrite set_retry_count_add_0. reflexivity.
    + cbn. apply lookup_insert_eq.
    + reflexivity.
    + reflexivity.
    + reflexivity.
Qed.

Lemma step_after_failed_initialize_witness :
  let c := mkAgentClass (Some (Exception "no key")) (fun _ _ => inl ∅) None in
  let o := (register_agent_type Sample.e0 Sample.with_types "broken" c).2 in
  let step := mkStep "S" "job" "broken" [] [] [] 0 1 300 in
  exists e' o' a' st',
    step_function Sample.e0 o step Sample.st0 = Some (e', o', set_retry_count 1 step, st') /\
    agents o' !! "broken_S" = Some a' /\
    _is_running a' = false /\
    length (handled a') = 1%nat /\
    completed_steps st' = ["S"].
Proof.
  cbv zeta.
  destruct (step_after_failed_initialize Sample.e0
              (register_agent_type Sample.e0 Sample.with_types "broken"
                 (mkAgentClass (Some (Exception "no key")) (fun _ _ => inl ∅) None)).2
              (mkStep "S" "job" "broken" [] [] [] 0 1 300) Sample.st0
              (mkAgentClass (Some (Exception "no key")) (fun _ _ => inl ∅) None)
              (Exception "no key") ∅ eq_refl eq_refl eq_refl eq_refl ltac:(cbn; lia) eq_refl)
    as (e' & o' & a' & Heq & Hag & Hrun & _ & Hh).
  exists e', o', a'. eexists. split; [exact Heq|]. split; [exact Hag|].
  split; [exact Hrun|]. split; [by rewrite Hh | reflexivity].
Defined.

(** *** The queue under submissions and worker turns *)

Lemma worker_iteration_idle d e a :
  _is_running a = false \/ task_queue (state a) = [] ->
  (worker_iteration d e a).2 = a.
Proof.
  unfold worker_iteration. intros [Hr|Hq].
  - by rewrite Hr.
  - destruct (negb (_is_running a)); [done|]. by rewrite Hq.
Qed.

Lemma finished_task_id c h t : task_id (finished c h t) = task_id t.
Proof. unfold finished. by destruct (process_task _ _ _). Qed.

Lemma StronglySorted_tail {A} (R : A -> A -> Prop) x l :
  StronglySorted R (x :: l) -> StronglySorted R l /\ Forall (R x) l.
Proof. intros H. by inversion H. Qed.

Lemma run_ops_sorted ops : forall e a,
  StronglySorted before_ok (task_queue (state a)) ->
  StronglySorted before_ok (task_queue (state (run_ops ops e a).2)).
Proof.
  induction ops as [|[t|d] ops IH]; intros e a Hs; cbn [run_ops]; [done| |].
  - destruct (add_task e a t) as [e1 a1] eqn:Hadd. apply IH.
    replace a1 with (add_task e a t).2 by (by rewrite Hadd).
    rewrite add_task_queue. apply sort_by_priority_sorted.
  - destruct (worker_iteration d e a) as [e1 a1] eqn:Hw. apply IH.
    replace a1 with (worker_iteration d e a).2 by (by rewrite Hw).
    destruct (_is_running a) eqn:Hrun;
      [|by rewrite worker_iteration_idle by (by left)].
    destruct (task_queue (state a)) as [|t q] eqn:Hq;
      [by rewrite worker_iteration_idle, Hq by (by right)|].
    destruct (worker_iteration_pop d e a t q Hrun Hq) as (_ & _ & -> & _).
    by apply StronglySorted_tail in Hs as [Hs _].
Qed.

(** X12.  Whatever sequence of submissions and worker turns has been
    applied to an agent that started with an empty queue, its queue is
    sorted by descending priority, and the next turn of a running worker
    hands the head of the queue to the capability: no task left in the
    queue has a higher priority than the one taken. *)
Theorem worker_takes_highest_priority (ops : list QueueOp) (e : Env) (a : BaseAgent)
    (d : nat) :
  task_queue (state a) = [] ->
  let e1 := (run_ops ops e a).1 in
  let a1 := (run_ops ops e a).2 in
  StronglySorted before_ok (task_queue (state a1)) /\
  forall t q,
    _is_running a1 = true ->
    task_queue (state a1) = t :: q ->
    handled (worker_iteration d e1 a1).2 = handled a1 ++ [finished (cls a1) (handled a1) t] /\
    task_queue (state (worker_iteration d e1 a1).2) = q /\
    Forall (fun u => priority u <= priority t) q.
Proof.
  intros Hq e1 a1.
  assert (Hs : StronglySorted before_ok (task_queue (state a1))).
  { apply run_ops_sorted. rewrite Hq. constructor. }
  split; [exact Hs|]. intros t q Hrun Hq1.
  destruct (worker_iteration_pop d e1 a1 t q Hrun Hq1) as (_ & _ & Hq' & _ & Hh).
  split; [exact Hh|]. split; [exact Hq'|].
  rewrite Hq1 in Hs. by apply StronglySorted_tail in Hs as [_ Hall].
Qed.

Lemma worker_takes_highest_priority_witness :
  let a1 := (run_ops [Submit Sample.low; Submit Sample.high; Submit Sample.low]
               Sample.e0 Sample.agent0).2 in
  task_id <$> task_queue (state a1) = ["t-high"; "t-low"; "t-low"] /\
  task_id <$> handled (worker_iteration 1 Sample.e0 a1).2 = ["t-high"].
Proof.
  cbv zeta.
  destruct (worker_takes_highest_priority
              [Submit Sample.low; Submit Sample.high; Submit Sample.low]
              Sample.e0 Sample.agent0 1 eq_refl) as [_ H].
  split; [reflexivity|].
  destruct (H Sample.high [Sample.low; Sample.low] eq_refl eq_refl) as (_ & _ & _).
  reflexivity.
Defined.

Lemma run_ops_conserves ops : forall e a,
  task_id <$> (handled (run_ops ops e a).2 ++ task_queue (state (run_ops ops e a).2))
  ≡ₚ task_id <$> (handled a ++ task_queue (state a) ++ submitted ops).
Proof.
  induction ops as [|[t|d] ops IH]; intros e a; cbn [run_ops submitted omap].
  - by rewrite app_nil_r.
  - destruct (add_task e a t) as [e1 a1] eqn:Hadd. rewrite IH.
    replace a1 with (add_task e a t).2 by (by rewrite Hadd).
    rewrite add_task_queue, sort_by_priority_perm. cbn [add_task snd handled set_state].
    by rewrite <- !app_assoc.
  - destruct (worker_iteration d e a) as [e1 a1] eqn:Hw. rewrite IH.
    replace a1 with (worker_iteration d e a).2 by (by rewrite Hw).
    destruct (_is_running a) eqn:Hrun;
      [|by rewrite worker_iteration_idle by (by left)].
    destruct (task_queue (state a)) as [|t q] eqn:Hq;
      [by rewrite worker_iteration_idle, Hq by (by right)|].
    destruct (worker_iteration_pop d e a t q Hrun Hq) as (_ & _ & -> & _ & ->).
    rewrite <- !app_assoc. cbn [app]. rewrite !fmap_app, !fmap_cons.
    by rewrite finished_task_id.
Qed.

(** X13.  Submissions and worker turns neither lose nor duplicate tasks:
    the ids of the tasks handed to the capability together with those
    still queued are, up to order, the ids of the tasks handed before,
    of those queued before and of those submitted. *)
Theorem queue_conserves_tasks (ops : list QueueOp) (e : Env) (a : BaseAgent) :
  let a' := (run_ops ops e a).2 in
  task_id <$> (handled a' ++ task_queue (state a'))
  ≡ₚ task_id <$> (handled a ++ task_queue (state a) ++ submitted ops).
Proof. apply run_ops_conserves. Qed.

(** X14.  As many worker turns as there are queued tasks, on a running
    agent and with no submission in between, empty the queue: the tasks
    are handed to the capability in queue order, each one is counted
    once as completed or failed, and no current task is left. *)
Theorem worker_drains_in_queue_order (ds : list nat) : forall (e : Env) (a : BaseAgent),
  _is_running a = true ->
  length ds = length (task_queue (state a)) ->
  let a' := (worker_iterations ds e a).2 in
  task_queue (state a') = [] /\
  task_id <$> handled a' = task_id <$> (handled a ++ task_queue (state a)) /\
  tasks_completed (metrics (state a')) + tasks_failed (metrics (state a'))
  = tasks_completed (metrics (state a)) + tasks_failed (metrics (state a))
    + Z.of_nat (length ds) /\
  (ds <> [] -> current_task (state a') = None).
Proof.
  induction ds as [|d ds IH]; intros e a Hrun Hlen; cbn [worker_iterations].
  - cbn in Hlen. symmetry in Hlen. apply nil_length_inv in Hlen.
    cbn. rewrite Hlen, app_nil_r. repeat split; try done. lia.
  - destruct (task_queue (state a)) as [|t q] eqn:Hq; [done|].
    cbn in Hlen. injection Hlen as Hlen.
    destruct (worker_iteration d e a) as [e1 a1] eqn:Hw.
    pose proof (worker_iteration_pop d e a t q Hrun Hq) as Hp.
    pose proof (worker_iteration_accounts d e a t q Hrun Hq) as Hacc.
    rewrite Hw in Hp, Hacc. cbn [snd] in Hp, Hacc.
    destruct Hp as (Hrun1 & _ & Hq1 & Hcur1 & Hh1). destruct Hacc as (_ & Hm1 & _).
    destruct (IH e1 a1 Hrun1) as (Hq' & Hh' & Hm' & Hcur'); [by rewrite Hq1|].
    split; [exact Hq'|]. split; [|split].
    + rewrite Hh', Hq1, Hh1, <- app_assoc. cbn [app]. rewrite !fmap_app, !fmap_cons.
      by rewrite finished_task_id.
    + rewrite Hm', Hm1. cbn [length]. lia.
    + intros _. destruct ds as [|d' ds]; [exact Hcur1 | by apply Hcur'].
Qed.

Lemma worker_drains_in_queue_order_witness :
  let a1 := (run_ops [Submit Sample.low; Submit Sample.high] Sample.e0 Sample.agent0).2 in
  let a2 := (worker_iterations [1%nat; 1%nat] Sample.e0 a1).2 in
  task_queue (state a2) = [] /\
  task_id <$> handled a2 = ["t-high"; "t-low"] /\
  tasks_completed (metrics (state a2)) + tasks_failed (metrics (state a2)) = 2.
Proof.
  cbv zeta.
  destruct (worker_drains_in_queue_order [1%nat; 1%nat] Sample.e0
              (run_ops [Submit Sample.low; Submit Sample.high] Sample.e0 Sample.agent0).2
              eq_refl eq_refl) as (Hq & Hh & Hm & _).
  split; [exact Hq|]. split; [exact Hh | exact Hm].
Defined.

(** *** Metrics over a history of outcomes *)

Lemma Q2Qc_inject_Z z : Q2Qc (inject_Z z) = Qc_of_Z z.
Proof. apply Qc_is_canon. cbn. apply Qred_correct. Qed.

Lemma count_of_snoc b l x :
  count_of b (l ++ [x]) = count_of b l + (if bool_decide (x.1 = b) then 1 else 0).
Proof.
  unfold count_of. rewrite filter_app, length_app, filter_cons, filter_nil.
  case_bool_decide; destruct (decide (x.1 = b)); try done; cbn; lia.
Qed.

Lemma count_of_total l : count_of true l + count_of false l = Z.of_nat (length l).
Proof.
  induction l as [|x l IH] using rev_ind; [done|].
  rewrite !count_of_snoc, length_app. cbn [length].
  destruct x as [[] t]; cbn; repeat case_bool_decide; try done; lia.
Qed.

Lemma count_of_nonneg b l : 0 <= count_of b l.
Proof. unfold count_of. lia. Qed.

Lemma record_outcomes_snoc l x m :
  record_outcomes (l ++ [x]) m = _update_metrics x.1 x.2 (record_outcomes l m).
Proof. unfold record_outcomes. rewrite fold_left_app. by destruct x. Qed.

Lemma record_outcomes_counts l :
  let m := record_outcomes l initial_metrics in
  tasks_completed m = count_of true l /\
  tasks_failed m = count_of false l /\
  total_execution_time m = total_time l.
Proof.
  induction l as [|x l IH] using rev_ind; [done|].
  cbv zeta in *. destruct IH as (Hc & Hf & Ht).
  rewrite record_outcomes_snoc, !count_of_snoc.
  unfold total_time. rewrite fold_left_app. cbn [fold_left]. fold (total_time l).
  unfold _update_metrics. rewrite Hc, Hf, Ht.
  destruct x as [[] t]; cbn [fst snd];
    destruct (0 <? _); cbn; repeat case_bool_decide; try done; repeat split; lia.
Qed.

(** X15.  From the initial metrics, after any history of outcomes the
    two counters are the numbers of successes and of failures, the
    total time is the sum of the execution times, and, once there is an
    outcome, the average is the total over the number of outcomes and
    the success rate is the share of successes, between 0 and 1. *)
Theorem metrics_after_outcomes (l : list (bool * Qc)) :
  let m := record_outcomes l initial_metrics in
  let n := Z.of_nat (length l) in
  tasks_completed m = count_of true l /\
  tasks_failed m = count_of false l /\
  tasks_completed m + tasks_failed m = n /\
  total_execution_time m = total_time l /\
  (l <> [] ->
     average_execution_time m = (total_time l / Q2Qc (inject_Z n))%Qc /\
     success_rate m = (Q2Qc (inject_Z (count_of true l)) / Q2Qc (inject_Z n))%Qc /\
     (0 <= success_rate m)%Qc /\ (success_rate m <= 1)%Qc).
Proof.
  cbv zeta. destruct (record_outcomes_counts l) as (Hc & Hf & Ht).
  split; [exact Hc|]. split; [exact Hf|].
  split; [rewrite Hc, Hf; apply count_of_total|]. split; [exact Ht|].
  intros Hne. destruct l as [|x l] using rev_ind; [done|]. clear IHl Hne.
  assert (Hn : count_of true (l ++ [x]) + count_of false (l ++ [x])
               = Z.of_nat (length (l ++ [x]))) by apply count_of_total.
  assert (Hpos : 0 < Z.of_nat (length (l ++ [x]))) by (rewrite length_app; cbn; lia).
  set (n := Z.of_nat (length (l ++ [x]))) in *.
  rewrite record_outcomes_snoc in Hc, Hf, Ht |- *.
  unfold _update_metrics in Hc, Hf, Ht |- *.
  set (c := if x.1 then tasks_completed (record_outcomes l initial_metrics) + 1
            else tasks_completed (record_outcomes l initial_metrics)) in *.
  set (f := if x.1 then tasks_failed (record_outcomes l initial_metrics)
            else tasks_failed (record_outcomes l initial_metrics) + 1) in *.
  assert (Hc' : c = count_of true (l ++ [x]))
    by (destruct (0 <? c + f); exact Hc).
  assert (Hf' : f = count_of false (l ++ [x]))
    by (destruct (0 <? c + f); exact Hf).
  assert (Hcf : c + f = n) by (rewrite Hc', Hf'; exact Hn).
  assert (Ht' : (total_execution_time (record_outcomes l initial_metrics) + x.2)%Qc
                = total_time (l ++ [x]))
    by (destruct (0 <? c + f); exact Ht).
  rewrite Hcf. destruct (Z.ltb_spec 0 n) as [_|]; [|lia].
  cbn [average_execution_time success_rate]. rewrite Ht', Hc'.
  split; [done|]. split; [done|].
  rewrite !Q2Qc_inject_Z. unfold Qcdiv.
  assert (H0n : (0 < Qc_of_Z n)%Qc).
  { pose proof (proj1 (Z2Qc_inj_lt 0 n) Hpos) as H. by rewrite Z2Qc_inj_0 in H. }
  assert (H0c : (0 <= Qc_of_Z (count_of true (l ++ [x])))%Qc).
  { pose proof (proj1 (Z2Qc_inj_le 0 _) (count_of_nonneg true (l ++ [x]))) as H.
    by rewrite Z2Qc_inj_0 in H. }
  assert (Hcn : (Qc_of_Z (count_of true (l ++ [x])) <= Qc_of_Z n)%Qc).
  { apply (proj1 (Z2Qc_inj_le _ _)).
    pose proof (count_of_nonneg false (l ++ [x])). lia. }
  pose proof (Qcinv_pos _ H0n) as Hinv.
  split.
  - apply Qcmult_nonneg_nonneg; [done | by apply Qclt_le_weak].
  - rewrite <- (Qcmult_inv_r (Qc_of_Z n)) by (by apply not_symmetry, Qclt_not_eq).
    apply Qcmult_le_mono_nonneg_r; [by apply Qclt_le_weak | done].
Qed.

Lemma metrics_after_outcomes_witness :
  let m := record_outcomes [(true, 2%Qc); (false, 1%Qc); (true, Qc_of_Z 3)] initial_metrics in
  tasks_completed m = 2 /\ tasks_failed m = 1 /\
  (0 <= success_rate m)%Qc /\ (success_rate m <= 1)%Qc.
Proof.
  cbv zeta.
  destruct (metrics_after_outcomes [(true, 2%Qc); (false, 1%Qc); (true, Qc_of_Z 3)])
    as (Hc & Hf & _ & _ & Hrate).
  destruct (Hrate ltac:(done)) as (_ & _ & H0 & H1).
  split; [exact Hc|]. split; [exact Hf|]. split; [exact H0 | exact H1].
Defined.

(** *** Graph runs *)

Lemma run_rel_refl g st : run_rel g st st.
Proof. split; [done|]. split; intros x Hx; by left. Qed.

Lemma graph_rel_refl g : graph_rel g g.
Proof. done. Qed.

Lemma run_nodes_spec wave : forall e o g st e1 o1 g1 r,
  graph_keyed g ->
  run_nodes wave e o g st = (e1, o1, g1, r) ->
  orch_step_rel e e1 o o1 /\ graph_rel g g1 /\
  (forall st1, r = inl st1 -> run_rel g st st1).
Proof.
  induction wave as [|n wave IH]; intros e o g st e1 o1 g1 r Hkey H; cbn [run_nodes] in H.
  { inversion H; subst. split; [apply orch_step_rel_refl|]. split; [done|].
    intros st1 [= <-]. apply run_rel_refl. }
  destruct (nodes g !! n) as [step|] eqn:Hn.
  2:{ inversion H; subst. split; [apply orch_step_rel_refl|]. split; [done|]. done. }
  destruct (step_function e o step st) as [[[[e2 o2] step2] st2]|] eqn:Hf.
  2:{ inversion H; subst. split; [apply orch_step_rel_refl|]. split; [done|]. done. }
  pose proof (step_function_rec_rel _ _ _ _ _ _ _ _ _ Hf) as [Hrel Hframe].
  pose proof (step_function_rec_recorded _ _ _ _ _ _ _ _ _ Hf) as (_ & Hstep & _ & Hcases).
  pose proof (Hkey n step Hn) as Hid. cbn in Hid.
  set (g2 := set_nodes (<[n := step2]> (nodes g)) g) in *.
  assert (Hg2 : graph_rel g g2).
  { split; [done|]. split; [done|]. split.
    - cbn. rewrite dom_insert_L. apply elem_of_dom_2 in Hn.
      apply set_eq. intros x. rewrite elem_of_union, elem_of_singleton.
      split; [by intros [->|?] | by right].
    - intros _ m s Hm. cbn in Hm |- *.
      destruct (decide (m = n)) as [->|Hne].
      + rewrite lookup_insert_eq in Hm. injection Hm as <-. rewrite Hstep. exact Hid.
      + rewrite lookup_insert_ne in Hm by done. exact (Hkey m s Hm). }
  destruct Hg2 as (Hed & Hen & Hdom & Hk2).
  apply IH in H as (Hrel' & (Hed' & Hen' & Hdom' & Hk') & Hst'); [|by apply Hk2].
  split; [by eapply orch_step_rel_trans|]. split.
  { split; [congruence|]. split; [congruence|]. split; [congruence | auto]. }
  intros st1 ->. destruct (Hst' st1 eq_refl) as (Hfr & Hc & Hfl).
  assert (Hnode : forall x, is_Some (nodes g2 !! x) -> is_Some (nodes g !! x)).
  { intros x Hx. apply elem_of_dom. rewrite <- Hdom. by apply elem_of_dom. }
  assert (Hhere : is_Some (nodes g !! step_id step)) by (rewrite Hid; by eexists).
  split; [|split].
  - destruct Hframe as (?&?&?&?&?), Hfr as (?&?&?&?&?). repeat split; congruence.
  - intros x Hx. destruct (Hc x Hx) as [Hx2|Hx2]; [|right; by apply Hnode].
    destruct Hcases as [(-> & _) | (_ & -> & _)] in Hx2; [|by left].
    apply elem_of_app in Hx2 as [Hx2|Hx2]; [by left|].
    apply list_elem_of_singleton in Hx2 as ->. by right.
  - intros x Hx. destruct (Hfl x Hx) as [Hx2|Hx2]; [|right; by apply Hnode].
    destruct Hcases as [(_ & -> & _) | (-> & _)] in Hx2; [by left|].
    apply elem_of_app in Hx2 as [Hx2|Hx2]; [by left|].
    apply list_elem_of_singleton in Hx2 as ->. by right.
Qed.

Lemma run_rel_trans g g1 st st1 st2 :
  dom (nodes g1) = dom (nodes g) ->
  run_rel g st st1 -> run_rel g1 st1 st2 -> run_rel g st st2.
Proof.
  intros Hdom (Hf & Hc & Hfl) (Hf' & Hc' & Hfl').
  assert (Hnode : forall x, is_Some (nodes g1 !! x) -> is_Some (nodes g !! x)).
  { intros x Hx. apply elem_of_dom. rewrite <- Hdom. by apply elem_of_dom. }
  split; [|split].
  - destruct Hf as (?&?&?&?&?), Hf' as (?&?&?&?&?). repeat split; congruence.
  - intros x Hx. destruct (Hc' x Hx) as [H|H]; [by apply Hc | right; by apply Hnode].
  - intros x Hx. destruct (Hfl' x Hx) as [H|H]; [by apply Hfl | right; by apply Hnode].
Qed.

Lemma ainvoke_rec_spec limit : forall wave e o g st e1 o1 g1 r,
  graph_keyed g ->
  ainvoke_rec limit wave e o g st = (e1, o1, g1, r) ->
  orch_step_rel e e1 o o1 /\ graph_rel g g1 /\
  (forall st1, r = inl st1 -> run_rel g st st1).
Proof.
  induction limit as [|limit IH]; intros wave e o g st e1 o1 g1 r Hkey H.
  - destruct wave; cbn in H; inversion H; subst;
      (split; [apply orch_step_rel_refl|]; split; [done|]);
      [intros st1 [= <-]; apply run_rel_refl | done].
  - destruct wave as [|n wave]; cbn [ainvoke_rec] in H.
    { inversion H; subst. split; [apply orch_step_rel_refl|]. split; [done|].
      intros st1 [= <-]. apply run_rel_refl. }
    destruct (run_nodes (n :: wave) e o g st) as [[[e2 o2] g2] r2] eqn:Hrun.
    apply run_nodes_spec in Hrun as (Hrel & (Hed & Hen & Hdom & Hk2) & Hst); [|done].
    destruct r2 as [st2|ex].
    2:{ inversion H; subst. split; [done|]. split; [done|]. done. }
    apply IH in H as (Hrel' & (Hed' & Hen' & Hdom' & Hk') & Hst'); [|by apply Hk2].
    split; [by eapply orch_step_rel_trans|]. split.
    { split; [congruence|]. split; [congruence|]. split; [congruence | auto]. }
    intros st1 ->. eapply run_rel_trans; [exact Hdom | by apply Hst | by apply Hst'].
Qed.

(** *** Well-formed orchestrator states *)

Lemma dom_insert_existing {A} (m : gmap string A) k v :
  is_Some (m !! k) -> dom (<[k := v]> m) = dom m.
Proof.
  intros Hk. rewrite dom_insert_L. apply elem_of_dom in Hk.
  apply set_eq. intros x. rewrite elem_of_union, elem_of_singleton.
  split; [by intros [->|?] | by right].
Qed.

Lemma agents_ok_insert (m : gmap string BaseAgent) id a :
  agent_ok id a -> map_Forall agent_ok m -> map_Forall agent_ok (<[id := a]> m).
Proof. intros Ha Hm. by apply map_Forall_insert_2. Qed.

Lemma create_agent_agents_ok e o id ty nm caps cfg e1 o1 r :
  map_Forall agent_ok (agents o) ->
  create_agent e o id ty nm caps cfg = (e1, o1, r) ->
  map_Forall agent_ok (agents o1).
Proof.
  unfold create_agent. intros Hok H.
  destruct (agent_types o !! ty) as [c|]; [|by inversion H; subst].
  destruct (agents o !! id) as [old|]; [by inversion H; subst|].
  unfold BaseAgent_init, start in H. cbn in H.
  destruct (initialize c); inversion H; subst; cbn;
    apply agents_ok_insert; try done; split; cbn; auto.
Qed.

Lemma run_step_body_agents_ok e o step st e1 o1 r :
  map_Forall agent_ok (agents o) ->
  run_step_body e o step st = (e1, o1, r) ->
  map_Forall agent_ok (agents o1).
Proof.
  unfold run_step_body, _get_or_create_agent. intros Hok H.
  assert (Hcall : forall o' aid t o2 out,
            map_Forall agent_ok (agents o') ->
            call_process_task o' aid t = (o2, out) -> map_Forall agent_ok (agents o2)).
  { intros o' aid t o2 out Hok' Hc. unfold call_process_task in Hc.
    destruct (agents o' !! aid) as [a|] eqn:Ha; inversion Hc; subst; [|done].
    cbn. apply agents_ok_insert; [|done]. exact (Hok' aid a Ha). }
  destruct (agents o !! _) as [a|] eqn:Ha.
  - destruct (call_process_task o _ _) as [o2 out] eqn:Hc.
    apply Hcall in Hc; [|done]. destruct out; by inversion H; subst.
  - destruct (create_agent e o _ _ _ _ _) as [[e' o'] [aid|ex]] eqn:Hcr;
      apply create_agent_agents_ok in Hcr; try done; [|by inversion H; subst].
    destruct (call_process_task o' _ _) as [o2 out] eqn:Hc.
    apply Hcall in Hc; [|done]. destruct out; by inversion H; subst.
Qed.

Lemma step_function_rec_agents_ok fuel : forall e o step st e' o' step' st',
  map_Forall agent_ok (agents o) ->
  step_function_rec fuel e o step st = Some (e', o', step', st') ->
  map_Forall agent_ok (agents o').
Proof.
  induction fuel as [|fuel IH]; intros e o step st e' o' step' st' Hok H; [done|].
  cbn [step_function_rec] in H.
  destruct (negb (_check_conditions _ _)); [by inversion H; subst|].
  destruct (run_step_body _ o step _) as [[e2 o2] r] eqn:Hb.
  apply run_step_body_agents_ok in Hb; [|done].
  destruct r as [st2|ex]; [by inversion H; subst|].
  destruct (_ <=? _); [by eapply IH | by inversion H; subst].
Qed.

Lemma build_graph_keyed steps conns : graph_keyed (build_graph steps conns).
Proof.
  intros n s Hn. cbn in Hn. apply elem_of_list_to_map_2 in Hn.
  apply list_elem_of_fmap in Hn as (s' & [= -> ->] & _). done.
Qed.

Lemma orch_wf_init e : orch_wf (AgentOrchestrator_init e).2.
Proof.
  cbn. split; [done|]. split; [done|].
  split; [apply map_Forall_empty|]. split; apply map_Forall_empty.
Qed.

Lemma orch_wf_agents o o' :
  workflows o' = workflows o -> workflow_states o' = workflow_states o ->
  running_workflows o' = running_workflows o ->
  map_Forall agent_ok (agents o') ->
  orch_wf o -> orch_wf o'.
Proof.
  intros Hw Hs Hr Ha (H1 & H2 & H3 & H4 & _). unfold orch_wf.
  by rewrite Hw, Hs, Hr.
Qed.

Lemma orch_wf_create_agent e o id ty nm caps cfg :
  orch_wf o -> orch_wf (create_agent e o id ty nm caps cfg).1.2.
Proof.
  intros Hwf. destruct (create_agent e o id ty nm caps cfg) as [[e1 o1] r] eqn:H.
  pose proof (create_agent_agents_ok _ _ _ _ _ _ _ _ _ _ (proj2 (proj2 (proj2 (proj2 Hwf)))) H).
  apply create_agent_rel in H as [(_ & _ & Hw & Hs & Hr & _) _].
  by apply (orch_wf_agents o).
Qed.

Lemma stop_agent_ok e a id :
  agent_ok id a -> agent_ok id (stop e a).1.2.
Proof.
  intros [Hid Hst]. unfold stop. destruct (_is_running a) eqn:Hrun; cbn [negb].
  - destruct (cleanup (cls a)); split; cbn; auto.
  - cbn [fst snd]. split; [done|]. by rewrite Hrun.
Qed.

Lemma orch_wf_remove_agent e o id :
  orch_wf o -> orch_wf (remove_agent e o id).1.2.
Proof.
  intros Hwf. pose proof Hwf as (_ & _ & _ & _ & Hag).
  unfold remove_agent. destruct (agents o !! id) as [a|] eqn:Ha; [|done].
  pose proof (stop_agent_ok e a id (Hag id a Ha)) as Hstop.
  destruct (stop e a) as [[e1 a'] r]. cbn [fst snd] in Hstop.
  destruct r; cbn; apply (orch_wf_agents o); try done; cbn.
  - apply map_Forall_delete. by apply agents_ok_insert.
  - by apply agents_ok_insert.
Qed.

Lemma orch_wf_create_workflow e o wid nm steps conns :
  orch_wf o -> orch_wf (create_workflow e o wid nm steps conns).1.2.
Proof.
  intros (Hd & Hr & Hg & Hs & Ha). unfold create_workflow.
  destruct (workflows o !! wid) eqn:Hw; [done|].
  destruct (graph_compiles steps conns); [|done].
  wf_simpl.
  split; [by rewrite !dom_insert_L, Hd|].
  split; [rewrite dom_insert_L; by apply union_subseteq_r'|].
  split; [apply map_Forall_insert_2; [apply build_graph_keyed | done]|].
  split; [by apply map_Forall_insert_2 | done].
Qed.

Lemma orch_wf_start e o wid input :
  orch_wf o -> orch_wf (execute_workflow_start e o wid input).1.2.
Proof.
  intros (Hd & Hr & Hg & Hs & Ha). unfold execute_workflow_start.
  destruct (workflows o !! wid) as [g|] eqn:Hw; [|done].
  destruct (running_workflows o !! wid); [done|].
  destruct (workflow_states o !! wid) as [st|] eqn:Hst; [|done]. wf_simpl.
  split; [by rewrite dom_insert_existing|].
  split.
  { rewrite dom_insert_L. apply union_subseteq. split; [|done].
    apply singleton_subseteq_l. by apply elem_of_dom. }
  split; [done|]. split; [|done].
  apply map_Forall_insert_2; [|done]. exact (Hs wid st Hst).
Qed.

Lemma orch_wf_step e o wid n st :
  orch_wf o -> orch_wf (run_step_in_flight e o wid n st).2.
Proof.
  intros Hwf. pose proof Hwf as (Hd & Hr & Hg & Hs & Ha). unfold run_step_in_flight.
  destruct (workflows o !! wid) as [g|] eqn:Hw; [|done].
  destruct (nodes g !! n) as [step|] eqn:Hn; [|done].
  destruct (step_function e o step st) as [[[[e1 o1] step1] st1]|] eqn:Hf; [|done].
  pose proof (step_function_rec_agents_ok _ _ _ _ _ _ _ _ _ Ha Hf) as Ha1.
  pose proof (step_function_rec_recorded _ _ _ _ _ _ _ _ _ Hf) as (_ & Hstep & _).
  apply step_function_rec_rel in Hf as [(_ & _ & Hw1 & Hs1 & Hr1 & _) _].
  wf_simpl. rewrite Hw1, Hs1, Hr1.
  split; [by rewrite dom_insert_existing|].
  split; [by rewrite dom_insert_existing|].
  split; [|done].
  apply map_Forall_insert_2; [|done]. intros m s Hm. cbn in Hm |- *.
  destruct (decide (m = n)) as [->|Hne].
  - rewrite lookup_insert_eq in Hm. injection Hm as <-. rewrite Hstep.
    exact (Hg wid g Hw n step Hn).
  - rewrite lookup_insert_ne in Hm by done. exact (Hg wid g Hw m s Hm).
Qed.

Lemma orch_wf_finish e o wid r :
  orch_wf o -> orch_wf (execute_workflow_finish e o wid r).1.2.
Proof.
  intros (Hd & Hr & Hg & Hs & Ha). unfold execute_workflow_finish.
  destruct (workflow_states o !! wid) as [st|] eqn:Hst; [|done].
  pose proof (Hs wid st Hst) as Hwid. cbn in Hwid.
  wf_simpl.
  split; [by rewrite dom_insert_existing|].
  split; [rewrite dom_delete_L; intros x [Hx _]%elem_of_difference; by apply Hr|].
  split; [done|]. split; [|done].
  by apply map_Forall_insert_2.
Qed.

Lemma orch_wf_cancelled o wid : orch_wf o -> orch_wf (execute_workflow_cancelled o wid).
Proof.
  intros (Hd & Hr & Hg & Hs & Ha). unfold execute_workflow_cancelled. wf_simpl.
  split; [done|].
  split; [rewrite dom_delete_L; intros x [Hx _]%elem_of_difference; by apply Hr | done].
Qed.

Lemma orch_wf_cancel e o wid : orch_wf o -> orch_wf (cancel_workflow e o wid).1.2.
Proof.
  intros (Hd & Hr & Hg & Hs & Ha). unfold cancel_workflow.
  destruct (running_workflows o !! wid) as [h|] eqn:Hrun; [|done].
  cbn [workflow_states set_running_workflows].
  destruct (workflow_states o !! wid) as [st|] eqn:Hst; wf_simpl.
  - split; [by rewrite dom_insert_existing|].
    split; [by rewrite dom_insert_existing|]. split; [done|]. split; [|done].
    apply map_Forall_insert_2; [|done]. exact (Hs wid st Hst).
  - split; [done|]. split; [by rewrite dom_insert_existing | done].
Qed.

(** X16.  In every state the orchestrator can reach, the tables agree:
    run states and compiled graphs have the same workflow ids, a run in
    flight belongs to a known workflow, a run state and a graph node are
    stored under their own ids, and a registered agent carries its
    registry id, is running exactly when its status is RUNNING, and is
    never COMPLETED or PAUSED. *)
Theorem reachable_well_formed (e : Env) (o : AgentOrchestrator) :
  reachable e o ->
  dom (workflow_states o) = dom (workflows o) /\
  dom (running_workflows o) ⊆ dom (workflows o) /\
  (forall wid st, workflow_states o !! wid = Some st -> workflow_id st = wid) /\
  (forall wid g n step,
     workflows o !! wid = Some g -> nodes g !! n = Some step -> step_id step = n) /\
  (forall id a, agents o !! id = Some a ->
     agent_id (state a) = id /\
     (_is_running a = true <-> agent_status (state a) = AgentStatus.RUNNING) /\
     agent_status (state a) <> AgentStatus.COMPLETED /\
     agent_status (state a) <> AgentStatus.PAUSED).
Proof.
  intros Hreach.
  assert (Hwf : orch_wf o).
  { induction Hreach.
    - apply orch_wf_init.
    - done.
    - exact IHHreach.
    - by apply orch_wf_create_agent.
    - by apply orch_wf_remove_agent.
    - by apply orch_wf_create_workflow.
    - by apply orch_wf_start.
    - by apply orch_wf_step.
    - by apply orch_wf_finish.
    - by apply orch_wf_cancelled.
    - by apply orch_wf_cancel. }
  destruct Hwf as (Hd & Hr & Hg & Hs & Ha).
  split; [done|]. split; [done|]. split; [exact Hs|].
  split; [intros wid g n step Hw Hn; exact (Hg wid g Hw n step Hn)|].
  intros id a Hid. destruct (Ha id a Hid) as [Hname Hst]. split; [done|].
  destruct (_is_running a).
  - rewrite Hst. by repeat split.
  - destruct Hst as [-> | ->]; by repeat split.
Qed.

Lemma reachable_well_formed_witness :
  let e1 := (AgentOrchestrator_init Sample.e0).1 in
  let o1 := (AgentOrchestrator_init Sample.e0).2 in
  dom (workflow_states
         (create_workflow e1 o1 "w" "sample" [Sample.stepA] [("A", [])]).1.2)
  = {[ "w" ]}.
Proof.
  cbv zeta.
  destruct (reachable_well_formed _ _
              (R_create_workflow _ _ "w" "sample" [Sample.stepA] [("A", [])]
                 (R_init Sample.e0))) as (Hd & _).
  rewrite Hd. reflexivity.
Defined.

(** *** A whole run *)

Lemma execute_workflow_spec e o wid input e' o' r :
  orch_wf o ->
  execute_workflow e o wid input = (e', o', r) ->
  match r with
  | inr ex =>
      e' = e /\ o' = o /\
      ((workflows o !! wid = None /\
        ex = ValueError ("workflow does not exist: " +:+ wid)) \/
       (is_Some (running_workflows o !! wid) /\
        ex = ValueError ("workflow is running: " +:+ wid)))
  | inl st =>
      exists st0 ex,
        workflow_states o !! wid = Some st0 /\
        running_workflows o !! wid = None /\
        running_workflows o' = running_workflows o /\
        workflow_states o' = <[wid := st]> (workflow_states o) /\
        st = ws_set_completed_at (Some (clock e))
               (ws_set_error (Some (str_exn ex))
                  (ws_set_status WorkflowStatus.FAILED (run_state_at_start (clock e) input st0)))
  end.
Proof.
  intros (Hd & _ & Hg & _ & _) H. unfold execute_workflow, execute_workflow_start in H.
  destruct (workflows o !! wid) as [g|] eqn:Hw.
  2:{ inversion H; subst. split; [done|]. split; [done|]. by left. }
  destruct (running_workflows o !! wid) as [h|] eqn:Hr.
  { inversion H; subst. split; [done|]. split; [done|]. right. split; [by eexists | done]. }
  assert (is_Some (workflow_states o !! wid)) as [st0 Hst0].
  { apply elem_of_dom. rewrite Hd. apply elem_of_dom. by eexists. }
  rewrite Hst0 in H.
  change (ws_set_error None _) with (run_state_at_start (clock e) input st0) in H.
  set (st7 := run_state_at_start (clock e) input st0) in *.
  unfold _run_workflow in H.
  cbn [workflows workflow_states set_running_workflows set_workflow_states] in H.
  rewrite Hw, lookup_insert_eq in H. unfold ainvoke in H.
  destruct (ainvoke_rec _ _ _ _ g st7) as [[[e2 o2] g2] r2] eqn:Hrun.
  apply ainvoke_rec_spec in Hrun
    as ((Hclk & _ & Hw2 & Hs2 & Hr2 & _) & _ & _); [|exact (Hg wid g Hw)].
  cbn [clock emit workflows workflow_states running_workflows
       set_running_workflows set_workflow_states] in Hclk, Hw2, Hs2, Hr2.
  assert (Hfin : forall rx,
            execute_workflow_finish e2 (set_workflows (<[wid := g2]> (workflows o2)) o2)
              wid rx = (e', o', r) ->
            exists st ex, r = inl st /\
              running_workflows o' = running_workflows o /\
              workflow_states o' = <[wid := st]> (workflow_states o) /\
              st = ws_set_completed_at (Some (clock e))
                     (ws_set_error (Some (str_exn ex))
                        (ws_set_status WorkflowStatus.FAILED st7))).
  { intros rx Hfinish. unfold execute_workflow_finish in Hfinish.
    cbn [workflow_states set_workflows] in Hfinish.
    rewrite Hs2, lookup_insert_eq in Hfinish. inversion Hfinish; subst; clear Hfinish.
    eexists _, _. split; [reflexivity|].
    cbn [running_workflows workflow_states set_running_workflows set_workflow_states
         set_workflows].
    rewrite Hr2, Hclk. split; [by rewrite delete_insert_eq, delete_id|].
    split; [by rewrite insert_insert_eq | reflexivity]. }
  destruct r2 as [st2|ex2]; apply Hfin in H as (st & ex & -> & Hrun' & Hst' & Hst);
    by exists st0, ex.
Qed.

(** X17.  [execute_workflow], run to its end on a well-formed
    orchestrator, raises only for an unknown workflow id or a run in
    flight, and then changes nothing.  Otherwise it returns the run
    state it stored, and on every run that state is FAILED with an
    error message: the exception of the graph run when it raised, and
    else the [AttributeError] of the [try] tail.  Start and completion
    times are set, the completion not before the start, the id is out
    of the runs in flight again and no other workflow's run state is
    touched. *)
Theorem execute_workflow_outcome (e : Env) (o : AgentOrchestrator) (wid : string)
    (input_data : Dict) :
  orch_wf o ->
  let '(e', o', r) := execute_workflow e o wid input_data in
  match r with
  | inr ex =>
      e' = e /\ o' = o /\
      ((workflows o !! wid = None /\
        ex = ValueError ("workflow does not exist: " +:+ wid)) \/
       (is_Some (running_workflows o !! wid) /\
        ex = ValueError ("workflow is running: " +:+ wid)))
  | inl st =>
      running_workflows o !! wid = None /\
      running_workflows o' = running_workflows o /\
      workflow_states o' !! wid = Some st /\
      (forall w, w <> wid -> workflow_states o' !! w = workflow_states o !! w) /\
      status st = WorkflowStatus.FAILED /\
      is_Some (error st) /\
      started_at st = Some (clock e) /\
      exists t, completed_at st = Some t /\ clock e <= t
  end.
Proof.
  intros Hwf. destruct (execute_workflow e o wid input_data) as [[e' o'] r] eqn:H.
  pose proof (execute_workflow_spec _ _ _ _ _ _ _ Hwf H) as Hspec.
  destruct r as [st|ex]; [|exact Hspec].
  destruct Hspec as (st0 & ex & _ & Hnone & Hrun & Hst' & ->).
  split; [done|]. split; [done|]. rewrite Hst'.
  split; [apply lookup_insert_eq|].
  split; [intros w Hne; by rewrite lookup_insert_ne|].
  split; [done|]. split; [by eexists|]. split; [done|].
  exists (clock e). split; [done | lia].
Qed.

Lemma execute_workflow_outcome_witness :
  orch_wf Sample.compiled /\
  exists st,
    (execute_workflow Sample.e0 Sample.compiled "w" Sample.input).2 = inl st /\
    running_workflows (execute_workflow Sample.e0 Sample.compiled "w" Sample.input).1.2
    = ∅ /\
    status st = WorkflowStatus.FAILED.
Proof.
  assert (Hwf : orch_wf Sample.compiled)
    by (apply (bool_decide_unpack _); vm_compute; exact I).
  split; [exact Hwf|].
  pose proof (execute_workflow_outcome Sample.e0 Sample.compiled "w" Sample.input Hwf) as H.
  destruct (execute_workflow Sample.e0 Sample.compiled "w" Sample.input)
    as [[e' o'] [st|ex]] eqn:Heq.
  - destruct H as (_ & Hr & _ & _ & Hfailed & _).
    exists st. split; [reflexivity|]. split; [exact Hr | exact Hfailed].
  - exfalso. vm_compute in Heq. discriminate.
Defined.

(** X18.  The run state that [execute_workflow] stores and returns
    records nothing of what the steps did: whatever the nodes of the
    graph wrote, its completed and failed steps are empty, its results
    are empty, its context is the input data and its current step is
    the one it had before the run. *)
Theorem run_state_records_no_step (e : Env) (o : AgentOrchestrator) (wid : string)
    (input_data : Dict) (st : WorkflowState) :
  orch_wf o ->
  (execute_workflow e o wid input_data).2 = inl st ->
  completed_steps st = [] /\
  failed_steps st = [] /\
  results st = ∅ /\
  context st = input_data /\
  (current_step <$> workflow_states o !! wid) = Some (current_step st).
Proof.
  intros Hwf Hres. destruct (execute_workflow e o wid input_data) as [[e' o'] r] eqn:H.
  cbn in Hres. subst r.
  destruct (execute_workflow_spec _ _ _ _ _ _ _ Hwf H) as (st0 & ex & Hst0 & _ & _ & _ & ->).
  rewrite Hst0. by repeat split.
Qed.

Lemma run_state_records_no_step_witness :
  exists st,
    (execute_workflow Sample.e0 Sample.compiled "w" Sample.input).2 = inl st /\
    completed_steps st = [] /\ failed_steps st = [] /\
    results st = ∅ /\ context st = Sample.input.
Proof.
  assert (Hwf : orch_wf Sample.compiled)
    by (apply (bool_decide_unpack _); vm_compute; exact I).
  destruct (execute_workflow Sample.e0 Sample.compiled "w" Sample.input).2
    as [st|ex] eqn:Heq; [|exfalso; vm_compute in Heq; discriminate].
  destruct (run_state_records_no_step Sample.e0 Sample.compiled "w" Sample.input st Hwf Heq)
    as (Hc & Hf & Hr & Hx & _).
  by exists st.
Defined.

(** *** Shutdown *)

Lemma cancel_each_spec wids : forall e o,
  (forall w, w ∈ wids -> is_Some (running_workflows o !! w)) ->
  dom (running_workflows o) ⊆ dom (workflow_states o) ->
  exists e' o',
    cancel_each wids e o = (e', o', inl ()) /\
    clock e' = clock e /\
    agents o' = agents o /\ agent_types o' = agent_types o /\
    workflows o' = workflows o /\
    (forall w, running_workflows o' !! w
               = if decide (w ∈ wids) then Some (mkTask true)
                 else running_workflows o !! w) /\
    (forall w, workflow_states o' !! w
               = if decide (w ∈ wids) then cancelled_at (clock e) <$> workflow_states o !! w
                 else workflow_states o !! w).
Proof.
  induction wids as [|w wids IH]; intros e o Hrun Hdom; cbn [cancel_each].
  { exists e, o. split; [done|]. repeat split; intros w; by rewrite decide_False by apply not_elem_of_nil. }
  destruct (Hrun w ltac:(by left)) as [h Hh].
  assert (is_Some (workflow_states o !! w)) as [st Hst].
  { apply elem_of_dom, Hdom, elem_of_dom. by eexists. }
  unfold cancel_workflow. rewrite Hh. cbn [workflow_states set_running_workflows]. rewrite Hst.
  set (o1 := set_workflow_states _ _). set (e1 := emit _ _ _ e).
  destruct (IH e1 o1) as (e' & o' & Heq & Hclk & Hag & Hty & Hw & Hr & Hs).
  { intros x Hx. subst o1. cbn.
    destruct (decide (x = w)) as [->|Hne]; [rewrite lookup_insert_eq; by eexists|].
    rewrite lookup_insert_ne by done. apply Hrun. by right. }
  { subst o1. cbn. rewrite !dom_insert_existing by (by eexists). done. }
  exists e', o'. split; [exact Heq|]. split; [by rewrite Hclk|].
  split; [by rewrite Hag|]. split; [by rewrite Hty|]. split; [by rewrite Hw|].
  split.
  - intros x. rewrite Hr. subst o1. cbn.
    destruct (decide (x = w)) as [->|Hne].
    + rewrite lookup_insert_eq. rewrite (decide_True (P := w ∈ w :: wids)) by (by left).
      by destruct (decide (w ∈ wids)).
    + rewrite lookup_insert_ne by done.
      destruct (decide (x ∈ wids)) as [Hin|Hout].
      * by rewrite decide_True by (by right).
      * rewrite decide_False; [done|]. by intros [?|?]%elem_of_cons.
  - intros x. rewrite Hs. subst o1 e1. cbn.
    destruct (decide (x = w)) as [->|Hne].
    + rewrite lookup_insert_eq, Hst. rewrite (decide_True (P := w ∈ w :: wids)) by (by left).
      by destruct (decide (w ∈ wids)).
    + rewrite lookup_insert_ne by done.
      destruct (decide (x ∈ wids)) as [Hin|Hout].
      * by rewrite decide_True by (by right).
      * rewrite decide_False; [done|]. by intros [?|?]%elem_of_cons.
Qed.

Lemma remove_agent_clean e o id :
  (forall a, agents o !! id = Some a -> cleanup (cls a) = None) ->
  exists e',
    remove_agent e o id = (e', set_agents (delete id (agents o)) o, inl ()) /\
    clock e' = clock e.
Proof.
  intros Hclean. unfold remove_agent. destruct (agents o !! id) as [a|] eqn:Ha.
  - unfold stop. rewrite (Hclean a eq_refl).
    destruct (_is_running a); cbn [negb]; eexists;
      (split;
       [unfold set_agents;
        cbn [agents agent_types workflows workflow_states running_workflows];
        by rewrite delete_insert_eq
       |reflexivity]).
  - eexists. split; [rewrite delete_id by done; by destruct o | reflexivity].
Qed.

Lemma remove_each_spec aids : forall e o,
  map_Forall (fun _ a => cleanup (cls a) = None) (agents o) ->
  exists e' o',
    remove_each aids e o = (e', o', inl ()) /\
    clock e' = clock e /\
    agent_types o' = agent_types o /\ workflows o' = workflows o /\
    workflow_states o' = workflow_states o /\
    running_workflows o' = running_workflows o /\
    forall id, agents o' !! id = if decide (id ∈ aids) then None else agents o !! id.
Proof.
  induction aids as [|id aids IH]; intros e o Hclean; cbn [remove_each].
  { exists e, o. repeat split; intros; by rewrite ?decide_False by apply not_elem_of_nil. }
  destruct (remove_agent_clean e o id) as (e1 & -> & Hclk1).
  { intros a Ha. exact (Hclean id a Ha). }
  destruct (IH e1 (set_agents (delete id (agents o)) o))
    as (e' & o' & Heq & Hclk & Hty & Hw & Hs & Hr & Hag).
  { cbn. by apply map_Forall_delete. }
  exists e', o'. split; [exact Heq|]. split; [congruence|].
  split; [done|]. split; [done|]. split; [done|]. split; [done|].
  intros x. rewrite Hag. cbn.
  destruct (decide (x = id)) as [->|Hne].
  - rewrite lookup_delete_eq. rewrite (decide_True (P := id ∈ id :: aids)) by (by left).
    by destruct (decide (id ∈ aids)).
  - rewrite lookup_delete_ne by done.
    destruct (decide (x ∈ aids)) as [Hin|Hout].
    + by rewrite decide_True by (by right).
    + rewrite decide_False; [done|]. by intros [?|?]%elem_of_cons.
Qed.

(** X19.  [shutdown], in whatever order it walks the runs in flight and
    the agents, when every [cleanup] succeeds: it returns normally with
    an empty agent registry and unchanged workflows; every run that was
    in flight has its task cancelled and its run state CANCELLED with
    the completion time set, but its entry stays in
    [running_workflows]; the other run states are untouched. *)
Theorem shutdown_clears (wids aids : list string) (e : Env) (o : AgentOrchestrator) :
  orch_wf o ->
  (forall w, w ∈ wids <-> is_Some (running_workflows o !! w)) ->
  (forall id, id ∈ aids <-> is_Some (agents o !! id)) ->
  (forall id a, agents o !! id = Some a -> cleanup (cls a) = None) ->
  exists e' o',
    shutdown_in wids aids e o = (e', o', inl ()) /\
    agents o' = ∅ /\
    workflows o' = workflows o /\
    (forall w, is_Some (running_workflows o !! w) ->
       running_workflows o' !! w = Some (mkTask true) /\
       workflow_states o' !! w = cancelled_at (clock e) <$> workflow_states o !! w /\
       is_Some (workflow_states o' !! w)) /\
    (forall w, running_workflows o !! w = None ->
       running_workflows o' !! w = None /\
       workflow_states o' !! w = workflow_states o !! w).
Proof.
  intros (Hd & Hr & _) Hwids Haids Hclean. unfold shutdown_in.
  destruct (cancel_each_spec wids (emit INFO "orchestrator shutting down" "" e) o)
    as (e1 & o1 & -> & Hclk1 & Hag1 & Hty1 & Hw1 & Hr1 & Hs1).
  { intros w Hw. by apply Hwids. }
  { by rewrite Hd. }
  destruct (remove_each_spec aids e1 o1) as (e2 & o2 & -> & Hclk2 & Hty2 & Hw2 & Hs2 & Hr2 & Hag2).
  { rewrite Hag1. intros id a Ha. by eapply Hclean. }
  eexists _, _. split; [reflexivity|]. split; [|split; [congruence|split]].
  - apply map_eq. intros id. rewrite Hag2, Hag1, lookup_empty.
    destruct (decide (id ∈ aids)) as [|Hout]; [done|].
    destruct (agents o !! id) eqn:Ha; [|done].
    exfalso. apply Hout, Haids. by eexists.
  - intros w Hw. rewrite Hr2, Hs2, Hr1, Hs1.
    rewrite !decide_True by (by apply Hwids).
    split; [done|]. split; [done|].
    assert (is_Some (workflow_states o !! w)) as [st ->]; [|by eexists].
    destruct Hw as [h Hh]. apply elem_of_dom. rewrite Hd. apply Hr. apply elem_of_dom. by eexists.
  - intros w Hw. rewrite Hr2, Hs2, Hr1, Hs1.
    rewrite !decide_False; [done| |];
      intros Hin%Hwids; rewrite Hw in Hin; by destruct Hin.
Qed.

Lemma shutdown_clears_witness :
  let o := (create_agent Sample.e10 Sample.in_flight "g1" "good" "first" [] None).1.2 in
  exists e' o',
    shutdown Sample.e10 o = (e', o', inl ()) /\
    agents o' = ∅ /\
    (status <$> workflow_states o' !! "w") = Some WorkflowStatus.CANCELLED /\
    is_Some (running_workflows o' !! "w").
Proof.
  cbv zeta.
  set (o := (create_agent Sample.e10 Sample.in_flight "g1" "good" "first" [] None).1.2).
  destruct (shutdown_clears (map_to_list (running_workflows o)).*1
              (map_to_list (agents o)).*1 Sample.e10 o)
    as (e' & o' & Heq & Hag & _ & Hrun & _).
  - apply (bool_decide_unpack _). vm_compute. exact I.
  - intros w. rewrite <- elem_of_dom. change ((map_to_list (running_workflows o)).*1)
      with (["w"] : list string). change (dom (running_workflows o)) with ({["w"]} : gset string).
    rewrite list_elem_of_singleton, elem_of_singleton. done.
  - intros id. rewrite <- elem_of_dom. change ((map_to_list (agents o)).*1)
      with (["g1"] : list string). change (dom (agents o)) with ({["g1"]} : gset string).
    rewrite list_elem_of_singleton, elem_of_singleton. done.
  - intros id a Ha. destruct (decide (id = "g1")) as [->|Hne].
    + vm_compute in Ha. by injection Ha as <-.
    + exfalso. assert (Hin : id ∈ dom (agents o)) by (apply elem_of_dom; by eexists).
      change (dom (agents o)) with ({["g1"]} : gset string) in Hin.
      by apply elem_of_singleton in Hin.
  - exists e', o'. split; [exact Heq|]. split; [exact Hag|].
    destruct (Hrun "w" ltac:(by eexists)) as (Hr & Hs & _).
    split; [rewrite Hs; reflexivity | rewrite Hr; by eexists].
Defined.

(** *** Status summaries *)

Lemma summary_fold l : forall s,
  Forall (fun a => if _is_running a then agent_status (state a) = AgentStatus.RUNNING
                   else agent_status (state a) = AgentStatus.IDLE \/
                        agent_status (state a) = AgentStatus.FAILED) l ->
  let s' := fold_left summary_add l s in
  total_agents s' = total_agents s /\
  running_agents s' = (running_agents s + length (filter (fun a => _is_running a = true) l))%nat /\
  (running_agents s' + idle_agents s' + failed_agents s'
   = running_agents s + idle_agents s + failed_agents s + length l)%nat /\
  agent_details s' = agent_details s ++ (get_status <$> l).
Proof.
  induction l as [|a l IH]; intros s Hall; cbn [fold_left].
  { cbn. rewrite app_nil_r. repeat split; lia. }
  apply Forall_cons in Hall as [Ha Hall].
  destruct (IH (summary_add s a) Hall) as (Ht & Hr & Hsum & Hd). cbv zeta in *.
  assert (Hone : total_agents (summary_add s a) = total_agents s /\
            running_agents (summary_add s a)
              = (running_agents s + if _is_running a then 1 else 0)%nat /\
            (running_agents (summary_add s a) + idle_agents (summary_add s a)
               + failed_agents (summary_add s a)
             = running_agents s + idle_agents s + failed_agents s + 1)%nat /\
            agent_details (summary_add s a) = agent_details s ++ [get_status a]).
  { unfold summary_add, get_status. cbn [rep_status].
    destruct (_is_running a).
    - rewrite Ha. cbn [AgentStatus_value].
      repeat case_bool_decide; try done; cbn; repeat split; (lia || reflexivity).
    - destruct Ha as [-> | ->]; cbn [AgentStatus_value];
        repeat case_bool_decide; try done; cbn; repeat split; (lia || reflexivity). }
  destruct Hone as (Ht1 & Hr1 & Hsum1 & Hd1).
  rewrite filter_cons. cbn [length fmap list_fmap].
  split; [congruence|]. split; [|split].
  - rewrite Hr, Hr1. destruct (_is_running a).
    + rewrite decide_True by done. cbn [length]. lia.
    + rewrite decide_False by done. lia.
  - rewrite Hsum, Hsum1. lia.
  - rewrite Hd, Hd1, <- app_assoc. reflexivity.
Qed.

(** X20.  On a well-formed orchestrator the agent summary is
    consistent: the total is the size of the registry, there is one
    detail entry per agent, the running, idle and failed counts add up
    to the total, and the running count is the number of agents whose
    worker loop is on. *)
Theorem agent_summary_counts (o : AgentOrchestrator) :
  orch_wf o ->
  let s := get_agent_status_summary o in
  total_agents s = size (agents o) /\
  (running_agents s + idle_agents s + failed_agents s = total_agents s)%nat /\
  length (agent_details s) = total_agents s /\
  running_agents s
  = length (filter (fun a => _is_running a = true) (map_to_list (agents o)).*2).
Proof.
  intros (_ & _ & _ & _ & Hag). unfold get_agent_status_summary.
  destruct (summary_fold (map_to_list (agents o)).*2
              (mkAgentSummary (size (agents o)) 0 0 0 [])) as (Ht & Hr & Hsum & Hd).
  { apply Forall_fmap, Forall_forall. intros [id a] Hin%elem_of_map_to_list.
    exact (proj2 (Hag id a Hin)). }
  cbv zeta in *. cbn [total_agents running_agents idle_agents failed_agents agent_details]
    in Ht, Hr, Hsum, Hd.
  rewrite !length_fmap, length_map_to_list in Hsum.
  split; [exact Ht|]. split; [lia|]. split; [|exact Hr].
  rewrite Hd, Ht. cbn. by rewrite !length_fmap, length_map_to_list.
Qed.

Lemma agent_summary_counts_witness :
  let o := (create_agent Sample.e0 Sample.with_types "g1" "good" "first" [] None).1.2 in
  running_agents (get_agent_status_summary o) = 1%nat /\
  total_agents (get_agent_status_summary o) = 1%nat.
Proof.
  cbv zeta.
  destruct (agent_summary_counts
              (create_agent Sample.e0 Sample.with_types "g1" "good" "first" [] None).1.2)
    as (Ht & _ & _ & Hr).
  - apply (bool_decide_unpack _). vm_compute. exact I.
  - split; [rewrite Hr; reflexivity | rewrite Ht; reflexivity].
Defined.

(** X21.  On a well-formed orchestrator the workflow summary is
    consistent: the runs in flight are at most the workflows, there is
    one detail entry per workflow, and each entry reports the status and
    the numbers of completed and failed steps of the stored run state of
    a known workflow. *)
Theorem workflow_summary_counts (o : AgentOrchestrator) :
  orch_wf o ->
  let s := get_workflow_summary o in
  (running_workflows_count s <= total_workflows s)%nat /\
  length (workflow_details s) = total_workflows s /\
  (forall d, d ∈ workflow_details s ->
     exists st, workflow_states o !! det_workflow_id d = Some st /\
       is_Some (workflows o !! det_workflow_id d) /\
       det_status d = WorkflowStatus_value (status st) /\
       det_completed_steps d = length (completed_steps st) /\
       det_failed_steps d = length (failed_steps st)).
Proof.
  intros (Hd & Hr & _). cbn. split; [|split].
  - rewrite <- !size_dom. by apply subseteq_size.
  - rewrite length_fmap, length_map_to_list, <- !size_dom. by rewrite Hd.
  - intros d Hin. apply list_elem_of_fmap in Hin as ([wid st] & -> & Hin).
    apply elem_of_map_to_list in Hin. exists st. cbn. split; [done|].
    split; [|done]. apply elem_of_dom. rewrite <- Hd. apply elem_of_dom. by eexists.
Qed.

Lemma workflow_summary_counts_witness :
  running_workflows_count (get_workflow_summary Sample.in_flight) = 1%nat /\
  total_workflows (get_workflow_summary Sample.in_flight) = 1%nat /\
  length (workflow_details (get_workflow_summary Sample.in_flight)) = 1%nat.
Proof.
  destruct (workflow_summary_counts Sample.in_flight) as (_ & Hlen & _).
  - apply (bool_decide_unpack _). vm_compute. exact I.
  - split; [reflexivity|]. split; [reflexivity | rewrite Hlen; reflexivity].
Defined.

(** *** The HTTP endpoints *)

Lemma AgentCapability_of_value c : AgentCapability_of_string (AgentCapability_value c) = inl c.
Proof. by destruct c. Qed.

Lemma AgentCapability_value_of s c :
  AgentCapability_of_string s = inl c -> AgentCapability_value c = s.
Proof.
  unfold AgentCapability_of_string. repeat case_bool_decide; intros Heq; simplify_eq; done.
Qed.

Lemma AgentCapability_known s c :
  AgentCapability_of_string s = inl c -> s ∈ capability_values.
Proof.
  intros <-%AgentCapability_value_of. apply list_elem_of_fmap. exists c. split; [done|].
  destruct c; repeat first [apply list_elem_of_here | apply list_elem_of_further].
Qed.

Lemma AgentCapability_unknown s ex :
  AgentCapability_of_string s = inr ex -> s ∉ capability_values.
Proof.
  intros Hs (c & -> & _)%list_elem_of_fmap. by rewrite AgentCapability_of_value in Hs.
Qed.

Lemma convert_capabilities_spec strs : forall e acc,
  (convert_capabilities strs e acc).2
  = acc ++ omap (fun s => match AgentCapability_of_string s with
                          | inl c => Some c
                          | inr _ => None
                          end) strs /\
  logs (convert_capabilities strs e acc).1
  = logs e ++ omap (fun s => match AgentCapability_of_string s with
                             | inl _ => None
                             | inr _ => Some (mkLog WARNING "unknown agent capability" s)
                             end) strs.
Proof.
  induction strs as [|s strs IH]; intros e acc; cbn [convert_capabilities omap list_omap].
  { by rewrite !app_nil_r. }
  destruct (AgentCapability_of_string s) as [c|ex].
  - destruct (IH e (acc ++ [c])) as [-> ->]. by rewrite <- app_assoc.
  - destruct (IH (emit WARNING "unknown agent capability" s e) acc) as [-> ->].
    split; [done|]. cbn. by rewrite <- app_assoc.
Qed.

(** X22.  Capability strings of a creation request: the values of a
    list of capabilities convert back to that list with nothing logged;
    in general the converted list is the sublist of the known values, in
    order and with repetitions, and each string that is dropped leaves
    exactly one log record. *)
Theorem capabilities_round_trip :
  (forall caps e, convert_capabilities (AgentCapability_value <$> caps) e [] = (e, caps)) /\
  (forall strs e,
     AgentCapability_value <$> (convert_capabilities strs e []).2
     = filter (fun s => s ∈ capability_values) strs) /\
  (forall strs e,
     length (logs (convert_capabilities strs e []).1)
     = (length (logs e) + length strs
        - length (convert_capabilities strs e []).2)%nat).
Proof.
  split; [|split].
  - intros caps e.
    enough (forall acc, convert_capabilities (AgentCapability_value <$> caps) e acc
                        = (e, acc ++ caps)) as H by (intros; apply (H [])).
    induction caps as [|c caps IH]; intros acc; cbn; [by rewrite app_nil_r|].
    rewrite AgentCapability_of_value, IH, <- app_assoc. reflexivity.
  - intros strs e. destruct (convert_capabilities_spec strs e []) as [-> _]. cbn [app].
    induction strs as [|s strs IH]; [done|]. cbn [omap list_omap]. rewrite filter_cons.
    destruct (AgentCapability_of_string s) as [c|ex] eqn:Hs.
    + rewrite decide_True by (by apply (AgentCapability_known s c)). cbn. rewrite IH.
      by rewrite (AgentCapability_value_of s c Hs).
    + rewrite decide_False by (by apply (AgentCapability_unknown s ex)). exact IH.
  - intros strs e. destruct (convert_capabilities_spec strs e []) as [-> ->]. cbn [app].
    rewrite length_app.
    enough (length (omap (fun s => match AgentCapability_of_string s with
                                   | inl _ => None
                                   | inr _ => Some (mkLog WARNING "unknown agent capability" s)
                                   end) strs)
            + length (omap (fun s => match AgentCapability_of_string s with
                                     | inl c => Some c
                                     | inr _ => None
                                     end) strs)
            = length strs)%nat by lia.
    induction strs as [|s strs IH]; [done|]. cbn [omap list_omap length].
    destruct (AgentCapability_of_string s); cbn [length]; lia.
Qed.

Lemma sort_by_priority_length q : length (sort_by_priority q) = length q.
Proof. by rewrite sort_by_priority_perm. Qed.

Lemma api_execute_agent_task_found e o aid a req :
  agents o !! aid = Some a ->
  let task :=
    mkAgentTask
      (aid +:+ "_" +:+ req_task_type req +:+ "_" +:+
       pretty (length (task_queue (state a)) + 1)%nat)
      (req_task_type req) (req_priority req) (req_payload req)
      (clock e) None [] AgentStatus.IDLE None None in
  api_execute_agent_task e o aid req
  = ((add_task e a task).1,
     set_agents (<[aid := (add_task e a task).2]> (agents o)) o,
     inl (mkApiResponse true (Some (task_id task)) ("task queued for " +:+ aid))).
Proof. intros Ha. unfold api_execute_agent_task, get_agent. by rewrite Ha. Qed.

(** X23.  Task ids generated by the execute endpoint repeat: the id is
    built from the queue length, so when a task is submitted, the worker
    takes one task off the queue and a task of the same type is
    submitted, both submissions are answered with the same task id,
    while one more task has been handed to the capability and one more
    is in the queue than before the two submissions. *)
Theorem api_task_ids_repeat (e1 e2 e3 : Env) (o : AgentOrchestrator) (aid : string)
    (a : BaseAgent) (req1 req2 : ExecuteTaskRequest) (d : nat) :
  agents o !! aid = Some a ->
  _is_running a = true ->
  req_task_type req1 = req_task_type req2 ->
  let r1 := api_execute_agent_task e1 o aid req1 in
  let turn := registry_worker_turn d e2 r1.1.2 aid in
  let r2 := api_execute_agent_task e3 turn.2 aid req2 in
  exists id resp1 resp2 a',
    r1.2 = inl resp1 /\ resp_id resp1 = Some id /\
    r2.2 = inl resp2 /\ resp_id resp2 = Some id /\
    agents r2.1.2 !! aid = Some a' /\
    length (handled a') = S (length (handled a)) /\
    length (task_queue (state a')) = S (length (task_queue (state a))).
Proof.
  intros Ha Hrun Hty r1 turn r2.
  set (n := length (task_queue (state a))).
  subst r1 turn r2. rewrite (api_execute_agent_task_found e1 o aid a req1 Ha).
  cbv zeta. cbn [fst snd].
  set (t1 := mkAgentTask _ (req_task_type req1) _ _ _ _ _ _ _ _).
  set (a1 := (add_task e1 a t1).2).
  assert (Hq1 : task_queue (state a1) = sort_by_priority (task_queue (state a) ++ [t1]))
    by reflexivity.
  assert (Hrun1 : _is_running a1 = true) by exact Hrun.
  assert (Hh1 : handled a1 = handled a) by reflexivity.
  assert (Hlen1 : length (task_queue (state a1)) = S n).
  { rewrite Hq1, sort_by_priority_length, length_app. cbn. lia. }
  clearbody a1.
  destruct (task_queue (state a1)) as [|t q] eqn:Hq; [done|].
  cbn in Hlen1. injection Hlen1 as Hlen1.
  unfold registry_worker_turn. cbn [agents set_agents]. rewrite lookup_insert_eq.
  pose proof (worker_iteration_pop d e2 a1 t q Hrun1 Hq) as Hp.
  destruct (worker_iteration d e2 a1) as [e2' a2].
  cbn [snd] in Hp. destruct Hp as (_ & _ & Hq2 & _ & Hh2).
  cbn [snd].
  rewrite (api_execute_agent_task_found e3 _ aid a2 req2)
    by (cbn [agents set_agents]; apply lookup_insert_eq).
  cbv zeta. cbn [fst snd]. rewrite Hq2, Hlen1.
  eexists _, _, _, _. split; [reflexivity|]. split; [reflexivity|].
  split; [reflexivity|]. split; [cbn; by rewrite <- Hty|].
  cbn [agents set_agents]. split; [apply lookup_insert_eq|].
  cbn [add_task snd handled set_state state task_queue st_set_task_queue].
  rewrite Hh2, Hh1, length_app, sort_by_priority_length, length_app, Hq2. cbn. split; lia.
Qed.

Lemma api_task_ids_repeat_witness :
  let o := (create_agent Sample.e0 Sample.with_types "g1" "good" "first" [] None).1.2 in
  let req := mkExecuteTaskRequest "job" ∅ 1 in
  let r1 := api_execute_agent_task Sample.e0 o "g1" req in
  let turn := registry_worker_turn 1 Sample.e0 r1.1.2 "g1" in
  let r2 := api_execute_agent_task Sample.e0 turn.2 "g1" req in
  exists id resp1 resp2 a',
    r1.2 = inl resp1 /\ resp_id resp1 = Some id /\
    r2.2 = inl resp2 /\ resp_id resp2 = Some id /\
    agents r2.1.2 !! "g1" = Some a' /\
    length (handled a') = 1%nat /\
    length (task_queue (state a')) = 1%nat.
Proof.
  exact (api_task_ids_repeat Sample.e0 Sample.e0 Sample.e0
           (create_agent Sample.e0 Sample.with_types "g1" "good" "first" [] None).1.2
           "g1" (created_agent (clock Sample.e0) Sample.returning "g1" "first" [] None)
           (mkExecuteTaskRequest "job" ∅ 1) (mkExecuteTaskRequest "job" ∅ 1) 1
           eq_refl eq_refl eq_refl).
Defined.

Lemma api_create_agent_fresh e o req c :
  agent_types o !! req_agent_type req = Some c ->
  initialize c = None ->
  let id := req_agent_type req +:+ "_" +:+ pretty (size (agents o) + 1)%nat in
  agents o !! id = None ->
  exists e' o',
    api_create_agent e o req
    = (e', o', inl (mkApiResponse true (Some id) ("agent created: " +:+ req_name req))) /\
    (exists a, agents o' = <[id := a]> (agents o) /\ _is_running a = true /\ cls a = c) /\
    agent_types o' = agent_types o.
Proof.
  intros Hty Hinit id Hid. unfold api_create_agent.
  destruct (convert_capabilities (req_capabilities req) e []) as [e1 caps].
  fold id. unfold create_agent. rewrite Hty, Hid.
  unfold BaseAgent_init, start. cbn [_is_running negb cls]. rewrite Hinit.
  eexists _, _. split; [reflexivity|]. split; [|done]. by eexists.
Qed.

(** X24.  Agent ids generated by the create endpoint collide after a
    removal: the id is built from the registry size, so after two
    creations of one type and the removal of the first agent, the next
    creation of that type generates the id of the second agent and is
    answered with status 500 ([agent id exists]), the registry
    unchanged. *)
Theorem api_agent_id_reused (e1 e2 e3 e4 : Env) (o : AgentOrchestrator)
    (req : CreateAgentRequest) (c : AgentClass) :
  agent_types o !! req_agent_type req = Some c ->
  initialize c = None ->
  cleanup c = None ->
  let id1 := req_agent_type req +:+ "_" +:+ pretty (size (agents o) + 1)%nat in
  let id2 := req_agent_type req +:+ "_" +:+ pretty (size (agents o) + 2)%nat in
  agents o !! id1 = None ->
  agents o !! id2 = None ->
  let r1 := api_create_agent e1 o req in
  let r2 := api_create_agent e2 r1.1.2 req in
  let r3 := api_remove_agent e3 r2.1.2 id1 in
  let r4 := api_create_agent e4 r3.1.2 req in
  r1.2 = inl (mkApiResponse true (Some id1) ("agent created: " +:+ req_name req)) /\
  r2.2 = inl (mkApiResponse true (Some id2) ("agent created: " +:+ req_name req)) /\
  r3.2 = inl (mkApiResponse true None ("agent removed: " +:+ id1)) /\
  r4.2 = inr (mkHTTPException 500 ("agent id exists: " +:+ id2)) /\
  r4.1.2 = r3.1.2 /\
  dom (agents r4.1.2) = dom (agents o) ∪ {[id2]}.
Proof.
  intros Hty Hinit Hclean id1 id2 Hid1 Hid2 r1 r2 r3 r4.
  assert (Hne : id1 <> id2).
  { unfold id1, id2. intros Heq. apply (inj (String.app _)) in Heq.
    apply (inj (String.app _)) in Heq. apply (inj pretty) in Heq. lia. }
  destruct (api_create_agent_fresh e1 o req c Hty Hinit Hid1)
    as (e1' & o1 & H1 & (a1 & Ha1 & Hrun1 & Hc1) & Hty1).
  fold r1 in H1.
  assert (Hsz1 : size (agents o1) = S (size (agents o))).
  { rewrite Ha1. by apply map_size_insert_None. }
  assert (Hid2' : agents o1 !! (req_agent_type req +:+ "_" +:+
                                pretty (size (agents o1) + 1)%nat) = None).
  { rewrite Hsz1. replace (S (size (agents o)) + 1)%nat with (size (agents o) + 2)%nat by lia.
    fold id2. rewrite Ha1, lookup_insert_ne by done. exact Hid2. }
  assert (Hty1' : agent_types o1 !! req_agent_type req = Some c) by (by rewrite Hty1).
  destruct (api_create_agent_fresh e2 o1 req c Hty1' Hinit Hid2')
    as (e2' & o2 & H2 & (a2 & Ha2 & Hrun2 & Hc2) & Hty2).
  rewrite Hsz1 in H2, Ha2.
  replace (S (size (agents o)) + 1)%nat with (size (agents o) + 2)%nat in H2, Ha2 by lia.
  fold id2 in H2, Ha2.
  assert (Hr2eq : r2 = (e2', o2, inl (mkApiResponse true (Some id2)
                                        ("agent created: " +:+ req_name req))))
    by (subst r2; by rewrite H1).
  assert (Hlk1 : agents o2 !! id1 = Some a1).
  { rewrite Ha2, lookup_insert_ne by done. rewrite Ha1. apply lookup_insert_eq. }
  assert (Hr3eq : exists e3',
             r3 = (e3', set_agents (delete id1 (agents o2)) o2,
                   inl (mkApiResponse true None ("agent removed: " +:+ id1)))).
  { subst r3. rewrite Hr2eq. cbn [fst snd]. unfold api_remove_agent, get_agent.
    rewrite Hlk1. unfold remove_agent. rewrite Hlk1. unfold stop. rewrite Hrun1.
    cbn [negb]. rewrite Hc1, Hclean. eexists. f_equal. f_equal.
    unfold set_agents. cbn. by rewrite delete_insert_eq. }
  destruct Hr3eq as (e3' & Hr3eq).
  set (o3 := set_agents (delete id1 (agents o2)) o2) in *.
  assert (Hdom3 : dom (agents o3) = dom (agents o) ∪ {[id2]}).
  { unfold o3. cbn [agents set_agents]. rewrite Ha2, Ha1.
    rewrite delete_insert_ne by done. rewrite delete_insert_eq.
    rewrite delete_id by done. rewrite dom_insert_L. apply (comm_L _). }
  assert (Hsz3 : size (agents o3) = S (size (agents o))).
  { rewrite <- size_dom, Hdom3, size_union, size_dom, size_singleton; [lia|].
    apply disjoint_singleton_r. by apply not_elem_of_dom. }
  assert (Hlk3 : agents o3 !! id2 = Some a2).
  { unfold o3. cbn [agents set_agents]. rewrite lookup_delete_ne by done.
    rewrite Ha2. apply lookup_insert_eq. }
  rewrite H1, Hr2eq, Hr3eq. cbn [fst snd].
  split; [done|]. split; [done|]. split; [done|].
  subst r4. rewrite Hr3eq. cbn [fst snd]. unfold api_create_agent.
  destruct (convert_capabilities (req_capabilities req) e4 []) as [e4' caps].
  rewrite Hsz3. replace (S (size (agents o)) + 1)%nat with (size (agents o) + 2)%nat by lia.
  fold id2. unfold create_agent.
  assert (Hty3 : agent_types o3 !! req_agent_type req = Some c).
  { unfold o3. cbn. by rewrite Hty2. }
  rewrite Hty3, Hlk3. cbn [fst snd]. split; [done|]. split; [done|]. exact Hdom3.
Qed.

Lemma api_agent_id_reused_witness :
  let req := mkCreateAgentRequest "good" "helper" ["planning"; "flying"] None in
  let r1 := api_create_agent Sample.e0 Sample.with_types req in
  let r2 := api_create_agent Sample.e0 r1.1.2 req in
  let r3 := api_remove_agent Sample.e0 r2.1.2 "good_1" in
  let r4 := api_create_agent Sample.e0 r3.1.2 req in
  r4.2 = inr (mkHTTPException 500 "agent id exists: good_2").
Proof.
  exact (proj1 (proj2 (proj2 (proj2
           (api_agent_id_reused Sample.e0 Sample.e0 Sample.e0 Sample.e0 Sample.with_types
              (mkCreateAgentRequest "good" "helper" ["planning"; "flying"] None)
              Sample.returning eq_refl eq_refl eq_refl eq_refl eq_refl))))).
Defined.

(** *** Stopping, restarting and remembering *)

(** X25.  Stopping and restarting an agent whose [cleanup] and
    [initialize] succeed: while stopped the agent is IDLE and a worker
    turn does nothing; after the restart the agent is as before the
    stop -- queue, current task, memory, metrics and handled tasks kept
    -- with status RUNNING and a new last-active time. *)
Theorem stop_start_round_trip (e1 e2 : Env) (a : BaseAgent) (d : nat) (e : Env) :
  _is_running a = true ->
  cleanup (cls a) = None ->
  initialize (cls a) = None ->
  let stopped := stop e1 a in
  let restarted := start e2 stopped.1.2 in
  stopped.2 = inl () /\
  _is_running stopped.1.2 = false /\
  agent_status (state stopped.1.2) = AgentStatus.IDLE /\
  worker_iteration d e stopped.1.2 = (e, stopped.1.2) /\
  restarted.2 = inl () /\
  restarted.1.2
  = set_state (st_set_last_active (clock e2)
                 (st_set_status AgentStatus.RUNNING (state a))) a.
Proof.
  intros Hrun Hclean Hinit. cbv zeta. unfold stop. rewrite Hrun. cbn [negb].
  rewrite Hclean. cbn [fst snd]. split; [done|]. split; [done|]. split; [done|].
  split; [done|]. unfold start. cbn [_is_running set_is_running set_state cls].
  rewrite Hinit. cbn [fst snd]. split; [done|].
  destruct a as [c s cfg r h]. cbn in Hrun. subst r. by destruct s.
Qed.

Lemma stop_start_round_trip_witness :
  let a := (add_task Sample.e0 Sample.agent0 Sample.low).2 in
  task_queue (state (start Sample.e10 (stop Sample.e0 a).1.2).1.2) = [Sample.low].
Proof.
  cbv zeta.
  destruct (stop_start_round_trip Sample.e0 Sample.e10
              (add_task Sample.e0 Sample.agent0 Sample.low).2 1 Sample.e0
              eq_refl eq_refl eq_refl) as (_ & _ & _ & _ & _ & ->).
  reflexivity.
Defined.

Lemma remember_all_snoc updates e d a :
  remember_all (updates ++ [(e, d)]) a
  = update_memory e (remember_all updates a) None (Some d) None None.
Proof. unfold remember_all. by rewrite fold_left_app. Qed.

Lemma remember_all_frame updates : forall a,
  let a' := remember_all updates a in
  short_term (memory (state a')) = short_term (memory (state a)) /\
  episodic (memory (state a')) = episodic (memory (state a)) /\
  semantic (memory (state a')) = semantic (memory (state a)) /\
  task_queue (state a') = task_queue (state a) /\
  metrics (state a') = metrics (state a).
Proof.
  induction updates as [|[e d] updates IH]; intros a; [done|].
  specialize (IH (update_memory e a None (Some d) None None)). cbv zeta in IH.
  destruct IH as (H1 & H2 & H3 & H4 & H5). unfold remember_all in *.
  cbn [fold_left fst snd]. by rewrite H1, H2, H3, H4, H5.
Qed.

(** X26.  Successive long-term memory updates: a key reads the value of
    the last update that binds it, and its old value when no update
    binds it; short-term, episodic and semantic memory are not
    touched. *)
Theorem long_term_last_write_wins (updates : list (Env * Dict)) (a : BaseAgent) (k : string) :
  let a' := remember_all updates a in
  (forall before e d after v,
     updates = before ++ (e, d) :: after ->
     d !! k = Some v ->
     Forall (fun ed => ed.2 !! k = None) after ->
     long_term (memory (state a')) !! k = Some v) /\
  (Forall (fun ed => ed.2 !! k = None) updates ->
   long_term (memory (state a')) !! k = long_term (memory (state a)) !! k) /\
  short_term (memory (state a')) = short_term (memory (state a)) /\
  episodic (memory (state a')) = episodic (memory (state a)) /\
  semantic (memory (state a')) = semantic (memory (state a)).
Proof.
  cbv zeta.
  assert (Hnone : forall ups a0, Forall (fun ed : Env * Dict => ed.2 !! k = None) ups ->
            long_term (memory (state (remember_all ups a0))) !! k
            = long_term (memory (state a0)) !! k).
  { induction ups as [|[e d] ups IH]; intros a0 Hall; [done|].
    apply Forall_cons in Hall as [Hd Hall].
    specialize (IH (update_memory e a0 None (Some d) None None) Hall).
    unfold remember_all in *. cbn [fold_left fst snd]. rewrite IH.
    cbn. cbn in Hd. by rewrite lookup_union_r. }
  split; [|split; [apply Hnone|]];
    [|destruct (remember_all_frame updates a) as (H1 & H2 & H3 & _); by rewrite H1, H2, H3].
  intros before e d after v -> Hd Hall.
  specialize (Hnone after (update_memory e (remember_all before a) None (Some d) None None)
                Hall).
  unfold remember_all in *. rewrite fold_left_app. cbn [fold_left fst snd].
  rewrite Hnone. cbn. by apply lookup_union_Some_l.
Qed.

Lemma long_term_last_write_wins_witness :
  long_term (memory (state (remember_all
    [(Sample.e0, {["region" := VStr "eu"]} : Dict);
     (Sample.e0, {["region" := VStr "us"]} : Dict);
     (Sample.e0, {["tier" := VInt 2]} : Dict)] Sample.agent0))) !! "region"
  = Some (VStr "us").
Proof.
  apply (proj1 (long_term_last_write_wins
                 [(Sample.e0, {["region" := VStr "eu"]} : Dict);
                  (Sample.e0, {["region" := VStr "us"]} : Dict);
                  (Sample.e0, {["tier" := VInt 2]} : Dict)] Sample.agent0 "region")
         [(Sample.e0, {["region" := VStr "eu"]} : Dict)] Sample.e0
         ({["region" := VStr "us"]} : Dict)
         [(Sample.e0, {["tier" := VInt 2]} : Dict)] (VStr "us")).
  - reflexivity.
  - reflexivity.
  - repeat constructor.
Defined.
